(** * vdsm storage: the LVM cache and command engine (lib/vdsm/storage/lvm.py)

    A shallow embedding of the Python module and the properties of its
    filter builder, output parsers, cache reload and invalidation
    protocol, retry ladder and public LV/PV operations.

    Conventions of the embedding:
    - Python [str] is [string] (a sequence of bytes, UTF-8); ordering is
      byte-wise, which on UTF-8 coincides with code-point ordering.
    - Python [dict] is stdpp's [gmap], Python [set] is [gset]; a dict whose
      iteration order matters is an association list.
    - The module-level singleton [_lvminfo] together with everything outside
      the process (the LVM runner, multipath enumeration, the clock) is one
      explicit state [Sys], threaded by a state-and-exception monad [M].
    - Exceptions are values of [exn]; a raising call returns [Raise e]. *)

From Stdlib Require Import ZArith QArith Ascii.
From stdpp Require Import gmap strings sorting list fin_maps.

Local Open Scope string_scope.
Local Open Scope Z_scope.
Local Open Scope list_scope.

(** ** Python built-ins used by the module *)

Module Py.

(** The double quote character: written by code so that no literal has
    to contain it. *)
Definition DQ : string := String (Ascii.ascii_of_nat 34) "".
(** The line feed character. *)
Definition LF : string := String (Ascii.ascii_of_nat 10) "".

(** [str.isspace] on one character, for the ASCII range. *)
Definition isspace (a : ascii) : bool :=
  let n := Ascii.nat_of_ascii a in
  ((9 <=? n)%nat && (n <=? 13)%nat) || ((28 <=? n)%nat && (n <=? 32)%nat).

Fixpoint lstrip (s : string) : string :=
  match s with
  | String a s' => if isspace a then lstrip s' else s
  | EmptyString => EmptyString
  end.

Fixpoint rstrip (s : string) : string :=
  match s with
  | String a s' =>
      match rstrip s' with
      | EmptyString => if isspace a then EmptyString else String a EmptyString
      | r => String a r
      end
  | EmptyString => EmptyString
  end.

(** [s.strip()] *)
Definition strip (s : string) : string := rstrip (lstrip s).

(** [s.split(sep)] for a one-character separator: the fields between the
    separators, always at least one. *)
Fixpoint split_go (sep : ascii) (cur : string) (s : string) : list string :=
  match s with
  | EmptyString => [String.rev cur]
  | String a s' =>
      if Ascii.eqb a sep then String.rev cur :: split_go sep EmptyString s'
      else split_go sep (String a cur) s'
  end.
Definition split (sep : ascii) (s : string) : list string :=
  split_go sep EmptyString s.

(** [sep.join(l)] *)
Fixpoint join (sep : string) (l : list string) : string :=
  match l with
  | [] => ""
  | [x] => x
  | x :: l' => x +:+ sep +:+ join sep l'
  end.

(** [s.replace(old, new)] for a non-empty [old]: occurrences are replaced
    from left to right without overlap. [skip] counts the characters of an
    occurrence just replaced that are still to be consumed. *)
Fixpoint replace_go (old new : string) (skip : nat) (s : string) : string :=
  match s with
  | EmptyString => EmptyString
  | String a s' =>
      match skip with
      | S k => replace_go old new k s'
      | O =>
          if String.prefix old s
          then new +:+ replace_go old new (Nat.pred (String.length old)) s'
          else String a (replace_go old new O s')
      end
  end.
Definition replace (old new s : string) : string := replace_go old new O s.

(** [tuple(s)] / [list(s)] of a string: its characters. *)
Fixpoint chars (s : string) : list ascii :=
  match s with
  | EmptyString => []
  | String a s' => a :: chars s'
  end.

(** [os.path.basename(p)]: what follows the last slash. *)
Definition basename (p : string) : string :=
  List.last (split "/"%char p) "".

(** [os.path.join(a, b)] *)
Definition path_join (a b : string) : string :=
  if String.prefix "/" b then b
  else if (String.length a =? 0)%nat then b
  else if String.prefix "/" (String.rev a) then a +:+ b
  else a +:+ "/" +:+ b.

Definition is_digit (a : ascii) : bool :=
  let n := Ascii.nat_of_ascii a in (48 <=? n)%nat && (n <=? 57)%nat.
Definition digit_val (a : ascii) : Z := Z.of_nat (Ascii.nat_of_ascii a) - 48.

(** Digits of a decimal literal, with single underscores allowed between
    digits; [acc] is the value read so far, [prev] tells whether the
    previous character was a digit. *)
Fixpoint digits (acc : Z) (prev : bool) (s : string) : option Z :=
  match s with
  | EmptyString => if prev then Some acc else None
  | String a s' =>
      if is_digit a then digits (10 * acc + digit_val a) true s'
      else if Ascii.eqb a "_"%char then
             (if prev then digits acc false s' else None)
      else None
  end.

(** [int(s)] for a string: surrounding whitespace, an optional sign and a
    decimal literal; [None] stands for [ValueError]. *)
Definition int (s : string) : option Z :=
  match strip s with
  | String "-"%char r => Z.opp <$> digits 0 false r
  | String "+"%char r => digits 0 false r
  | r => digits 0 false r
  end.

(** [str(n)] / ["%d" % n] for an integer. *)
Definition digit_char (d : Z) : ascii := Ascii.ascii_of_nat (Z.to_nat d + 48).
Fixpoint str_pos_go (fuel : nat) (n : Z) (acc : string) : string :=
  match fuel with
  | O => acc
  | S f =>
      let acc' := String (digit_char (n mod 10)) acc in
      if n / 10 =? 0 then acc' else str_pos_go f (n / 10) acc'
  end.
Definition str_Z (n : Z) : string :=
  if n <? 0 then "-" +:+ str_pos_go (S (Z.to_nat (Z.log2 (- n)))) (- n) ""
  else str_pos_go (S (Z.to_nat (Z.log2 n))) n "".

End Py.

(** ** Constants and the data model *)

Definition PV_FIELDS : string :=
  "uuid,name,size,vg_name,vg_uuid,pe_start,pe_count," +:+
  "pe_alloc_count,mda_count,dev_size,mda_used_count".
Definition PV_FIELDS_LEN : nat := length (Py.split "," PV_FIELDS).

Definition VG_FIELDS : string :=
  "uuid,name,attr,size,free,extent_size,extent_count,free_count," +:+
  "tags,vg_mda_size,vg_mda_free,lv_count,pv_count,pv_name".
Definition VG_FIELDS_LEN : nat := length (Py.split "," VG_FIELDS).

Definition LV_FIELDS : string := "uuid,name,vg_name,attr,size,seg_start_pe,devices,tags".
Definition LV_FIELDS_LEN : nat := length (Py.split "," LV_FIELDS).

(** Returned by vgs and pvs for missing pv or unknown vg name. *)
Definition UNKNOWN : string := "[unknown]".

Definition VG_OK : string := "OK".
Definition VG_PARTIAL : string := "PARTIAL".

Definition SEPARATOR : ascii := "|"%char.
Definition LVM_NOBACKUP : list string := ["--autobackup"; "n"].
Definition LVM_FLAGS : list string :=
  ["--noheadings"; "--units"; "b"; "--nosuffix"; "--separator";
   String SEPARATOR ""; "--ignoreskippedcluster"].

Definition PV_PREFIX : string := "/dev/mapper".

Definition PVS_CMD : list string := ["pvs"] ++ LVM_FLAGS ++ ["-o"; PV_FIELDS].
Definition VGS_CMD : list string := ["vgs"] ++ LVM_FLAGS ++ ["-o"; VG_FIELDS].
Definition LVS_CMD : list string := ["lvs"] ++ LVM_FLAGS ++ ["-o"; LV_FIELDS].

(** [vdsm.common.units.MiB] *)
Definition MiB : Z := 1024 * 1024.

(** Exceptions raised by the module and by the built-ins it calls. *)
Inductive exn : Type :=
| InvalidOutputLine (command line : string)
| TypeError
| ValueError
| IndexError
| ZeroDivisionError
| AssertionError
| AttributeError (msg : string)
| InaccessiblePhysDev (pvName : string)
| VolumeGroupDoesNotExist (vgName : string)
| LogicalVolumeDoesNotExistError (name : string)
| VolumeGroupSizeError (msg : string)
| LogicalVolumeExtendError (vgName lvName size : string)
| CouldNotMovePVData (pvName vgName : string) (err : list string)
| CannotRemoveLogicalVolume (vgName : string) (lvNames err : list string).

Inductive result (A : Type) : Type :=
| Ok (a : A)
| Raise (e : exn).
Arguments Ok {A} a.
Arguments Raise {A} e.

#[global] Instance exn_eq_dec : EqDecision exn.
Proof. solve_decision. Defined.

Module PV.
Record t : Type := mk {
  uuid : string; name : string; size : string; vg_name : string;
  vg_uuid : string; pe_start : string; pe_count : string;
  pe_alloc_count : string; mda_count : string; dev_size : string;
  mda_used_count : string; guid : string }.

(** [PV.fromlvm]: the namedtuple constructor takes exactly the
    eleven pvs fields followed by the guid. *)
Definition fromlvm (args : list string) : result t :=
  match args with
  | [a0; a1; a2; a3; a4; a5; a6; a7; a8; a9; a10] =>
      let guid := Py.basename a1 in
      Ok (mk a0 a1 a2 a3 a4 a5 a6 a7 a8 a9 a10 guid)
  | _ :: _ :: _ => Raise TypeError
  | _ => Raise IndexError
  end.

Definition is_metadata_pv (pv : t) : bool :=
  bool_decide (mda_used_count pv = "2").
End PV.

(** [_tags2Tuple(sTags)] *)
Definition _tags2Tuple (sTags : string) : list string :=
  if bool_decide (sTags = "") then [] else Py.split "," sTags.

Module VG.
Record ATTR : Type := mkATTR {
  permission : ascii; resizeable : ascii; exported : ascii;
  partial : ascii; allocation : ascii; clustered : ascii }.

Record t : Type := mk {
  uuid : string; name : string; attr : ATTR; size : string; free : string;
  extent_size : string; extent_count : string; free_count : string;
  tags : list string; vg_mda_size : string; vg_mda_free : string;
  lv_count : string; pv_count : string; pv_name : list string;
  writeable : bool; partial_state : string }.

(** [VG_ATTR]: fewer than six
    characters make the namedtuple constructor raise. *)
Definition attr_of (sAttr : string) : result ATTR :=
  match Py.chars sAttr with
  | p :: r :: e :: pa :: al :: c :: _ => Ok (mkATTR p r e pa al c)
  | _ => Raise TypeError
  end.

(** [VG.fromlvm]: [args] are the vgs fields, whose pv_name slot
    has been replaced by the list [pv_names], kept aside here. *)
Definition fromlvm (args : list string) (pv_names : list string) : result t :=
  match args with
  | [a0; a1; a2; a3; a4; a5; a6; a7; a8; a9; a10; a11; a12; _] =>
      let tags := _tags2Tuple a8 in
      match attr_of a2 with
      | Ok attrs =>
          Ok (mk a0 a1 attrs a3 a4 a5 a6 a7 tags a9 a10 a11 a12 pv_names
                (bool_decide (permission attrs = "w"%char))
                (if bool_decide (partial attrs = "-"%char)
                 then VG_OK else VG_PARTIAL))
      | Raise e => Raise e
      end
  | _ => Raise TypeError
  end.
End VG.

Module LV.
Record ATTR : Type := mkATTR {
  voltype : ascii; permission : ascii; allocations : ascii;
  fixedminor : ascii; state : ascii; devopen : ascii;
  target : ascii; zero : ascii }.

Record t : Type := mk {
  uuid : string; name : string; vg_name : string; attr : ATTR;
  size : string; seg_start_pe : string; devices : string;
  tags : list string; writeable : bool; opened : bool; active : bool }.

Definition attr_of (sAttr : string) : result ATTR :=
  match Py.chars sAttr with
  | v :: p :: al :: f :: s :: d :: tg :: z :: _ => Ok (mkATTR v p al f s d tg z)
  | _ => Raise TypeError
  end.

(** [LV.fromlvm] *)
Definition fromlvm (args : list string) : result t :=
  match args with
  | [a0; a1; a2; a3; a4; a5; a6; a7] =>
      let tags := _tags2Tuple a7 in
      match attr_of a3 with
      | Ok attrs =>
          Ok (mk a0 a1 a2 attrs a4 a5 a6 tags
                (bool_decide (permission attrs = "w"%char))
                (bool_decide (devopen attrs = "o"%char))
                (bool_decide (state attrs = "a"%char)))
      | Raise e => Raise e
      end
  | _ => Raise TypeError
  end.
End LV.

(** A cache slot holds a parsed record, or a [Stale] or [Unreadable]
    marker carrying the name only. *)
Inductive entry (R : Type) : Type :=
| Fresh (r : R)
| Stale (name : string)
| Unreadable (name : string).
Arguments Fresh {R} r.
Arguments Stale {R} name.
Arguments Unreadable {R} name.

Definition is_stale {R} (e : entry R) : bool :=
  match e with
  | Fresh _ => false
  | Stale _ | Unreadable _ => true
  end.

(** The [name] attribute, which all three variants have. *)
Definition entry_name {R} (name_of : R → string) (e : entry R) : string :=
  match e with
  | Fresh r => name_of r
  | Stale n | Unreadable n => n
  end.

(** Any other attribute: [Stale] has none, [Unreadable.__getattr__] raises
    its own [AttributeError]. *)
Definition getattr {R A} (attrName : string) (f : R → A) (e : entry R) : result A :=
  match e with
  | Fresh r => Ok (f r)
  | Stale _ =>
      Raise (AttributeError ("'Stale' object has no attribute '" +:+ attrName +:+ "'"))
  | Unreadable n => Raise (AttributeError ("Failed reload: " +:+ n))
  end.

(** ** Filter builder and config renderer *)

(** [_buildFilter(devices)]; [USER_DEV_LIST] is the module-level list read
    from the configuration. *)
Definition _buildFilter (USER_DEV_LIST devices : list string) : string :=
  let devices : gset string := list_to_set (Py.strip <$> (devices ++ USER_DEV_LIST)%list) in
  let devices := devices ∖ {[ "" ]} in
  let accept :=
    if bool_decide (devices ≠ ∅) then
      let devices := merge_sort String.le (Py.replace "\x" "\\x" <$> elements devices) in
      let pattern := Py.join "|" ((λ d, "^" +:+ d +:+ "$") <$> devices) in
      Py.DQ +:+ "a|" +:+ pattern +:+ "|" +:+ Py.DQ +:+ ", "
    else "" in
  "[" +:+ accept +:+ Py.DQ +:+ "r|.*|" +:+ Py.DQ +:+ "]".

Definition LVMCONF_TEMPLATE (filter locking_type : string) : string :=
  Py.LF +:+ "devices {" +:+ Py.LF +:+
  " preferred_names=[" +:+ Py.DQ +:+ "^/dev/mapper/" +:+ Py.DQ +:+ "]" +:+ Py.LF +:+
  " ignore_suspended_devices=1" +:+ Py.LF +:+
  " write_cache_state=0" +:+ Py.LF +:+
  " disable_after_error_count=3" +:+ Py.LF +:+
  " filter=" +:+ filter +:+ Py.LF +:+
  " hints=" +:+ Py.DQ +:+ "none" +:+ Py.DQ +:+ Py.LF +:+
  " obtain_device_list_from_udev=0" +:+ Py.LF +:+
  "}" +:+ Py.LF +:+
  "global {" +:+ Py.LF +:+
  " locking_type=" +:+ locking_type +:+ Py.LF +:+
  " prioritise_write_locks=1" +:+ Py.LF +:+
  " wait_for_locks=1" +:+ Py.LF +:+
  " use_lvmetad=0" +:+ Py.LF +:+
  "}" +:+ Py.LF +:+
  "backup {" +:+ Py.LF +:+
  " retain_min=50" +:+ Py.LF +:+
  " retain_days=0" +:+ Py.LF +:+
  "}" +:+ Py.LF.

(** [_buildConfig(dev_filter, locking_type)] *)
Definition _buildConfig (dev_filter locking_type : string) : string :=
  Py.strip (Py.replace Py.LF " " (LVMCONF_TEMPLATE dev_filter locking_type)).

(** ** The engine state *)

(** What [LVMRunner.run] returns: [(rc, out, err)] with the output already
    decoded and split into lines. *)
Record RunResult : Type := mkRun {
  rc : Z; out : list string; err : list string }.

(** Everything outside the cache object. [runner] is the injected
    [cmd_runner]: its answer may depend on the commands spawned before.
    [getMPDevNamesIter] gives the multipath devices seen by the n-th
    enumeration. [spawned], [enumerations] and [slept] record what the
    engine did, oldest first. *)
Record World : Type := mkWorld {
  runner : list (list string) → list string → RunResult;
  getMPDevNamesIter : nat → list string;
  lvm_dev_whitelist : string;
  EXT_LVM : string;
  spawned : list (list string);
  enumerations : nat;
  slept : list Q }.

(** [USER_DEV_LIST], computed once from the configuration. *)
Definition USER_DEV_LIST (w : World) : list string :=
  Py.split "," (lvm_dev_whitelist w).

Record CacheStats : Type := mkStats { _hits : nat; _misses : nat }.

Record LVMCache : Type := mkCache {
  _cache_lvs : bool;
  _read_only : bool;
  _filter : option string;
  _filterStale : bool;
  _stalepv : bool;
  _stalevg : bool;
  _freshlv : gset string;
  _pvs : gmap string (entry PV.t);
  _vgs : gmap string (entry VG.t);
  _lvs : gmap (string * string) (entry LV.t);
  _stats : CacheStats }.

Definition READ_ONLY_RETRIES : nat := 4.
Definition RETRY_DELAY : Q := 1 # 10.
Definition RETRY_BACKUP_OFF : Q := 2 # 1.

(** [LVMCache.__init__] *)
Definition LVMCache_init (cache_lvs : bool) : LVMCache :=
  mkCache cache_lvs false None true true true ∅ ∅ ∅ ∅ (mkStats 0 0).

Record Sys : Type := mkSys { cache : LVMCache; world : World }.

Definition set_filter (f : option string) (stale : bool) (c : LVMCache) : LVMCache :=
  mkCache (_cache_lvs c) (_read_only c) f stale (_stalepv c) (_stalevg c)
    (_freshlv c) (_pvs c) (_vgs c) (_lvs c) (_stats c).
Definition set_pvs (stalepv : bool) (pvs : gmap string (entry PV.t)) (c : LVMCache) : LVMCache :=
  mkCache (_cache_lvs c) (_read_only c) (_filter c) (_filterStale c) stalepv
    (_stalevg c) (_freshlv c) pvs (_vgs c) (_lvs c) (_stats c).
Definition set_vgs (stalevg : bool) (freshlv : gset string)
    (vgs : gmap string (entry VG.t)) (c : LVMCache) : LVMCache :=
  mkCache (_cache_lvs c) (_read_only c) (_filter c) (_filterStale c) (_stalepv c)
    stalevg freshlv (_pvs c) vgs (_lvs c) (_stats c).
Definition set_lvs (freshlv : gset string)
    (lvs : gmap (string * string) (entry LV.t)) (c : LVMCache) : LVMCache :=
  mkCache (_cache_lvs c) (_read_only c) (_filter c) (_filterStale c) (_stalepv c)
    (_stalevg c) freshlv (_pvs c) (_vgs c) lvs (_stats c).
Definition set_stats (st : CacheStats) (c : LVMCache) : LVMCache :=
  mkCache (_cache_lvs c) (_read_only c) (_filter c) (_filterStale c) (_stalepv c)
    (_stalevg c) (_freshlv c) (_pvs c) (_vgs c) (_lvs c) st.
Definition set_mode (read_only : bool) (c : LVMCache) : LVMCache :=
  mkCache (_cache_lvs c) read_only (_filter c) (_filterStale c) (_stalepv c)
    (_stalevg c) (_freshlv c) (_pvs c) (_vgs c) (_lvs c) (_stats c).

(** ** The state-and-exception monad *)

Definition M (A : Type) : Type := Sys → result A * Sys.

#[global] Instance M_ret : MRet M := λ A a s, (Ok a, s).
#[global] Instance M_bind : MBind M := λ A B f m s,
  match m s with
  | (Ok a, s') => f a s'
  | (Raise e, s') => (Raise e, s')
  end.

Definition raise {A} (e : exn) : M A := λ s, (Raise e, s).
Definition lift {A} (r : result A) : M A := λ s, (r, s).
Definition gets {A} (f : LVMCache → A) : M A := λ s, (Ok (f (cache s)), s).
Definition modify (f : LVMCache → LVMCache) : M unit :=
  λ s, (Ok tt, mkSys (f (cache s)) (world s)).
Definition ask {A} (f : World → A) : M A := λ s, (Ok (f (world s)), s).

(** [int(s)], raising [ValueError]. *)
Definition int (s : string) : M Z :=
  match Py.int s with
  | Some n => mret n
  | None => raise ValueError
  end.

(** [a // b] *)
Definition floordiv (a b : Z) : M Z :=
  if b =? 0 then raise ZeroDivisionError else mret (a / b).

(** ** Cache engine: the command path *)

(** The world after one more multipath enumeration, after one more spawned
    command and after one more sleep. *)
Definition enumerate_in (w : World) : World :=
  mkWorld (runner w) (getMPDevNamesIter w) (lvm_dev_whitelist w) (EXT_LVM w)
    (spawned w) (S (enumerations w)) (slept w).
Definition spawn_in (full_cmd : list string) (w : World) : World :=
  mkWorld (runner w) (getMPDevNamesIter w) (lvm_dev_whitelist w) (EXT_LVM w)
    (spawned w ++ [full_cmd]) (enumerations w) (slept w).
Definition sleep_in (delay : Q) (w : World) : World :=
  mkWorld (runner w) (getMPDevNamesIter w) (lvm_dev_whitelist w) (EXT_LVM w)
    (spawned w) (enumerations w) (slept w ++ [delay]).

(** [multipath.getMPDevNamesIter()] *)
Definition enumerate_mp : M (list string) := λ s,
  (Ok (getMPDevNamesIter (world s) (enumerations (world s))),
   mkSys (cache s) (enumerate_in (world s))).

(** [self._runner.run(cmd)] *)
Definition run (full_cmd : list string) : M RunResult := λ s,
  (Ok (runner (world s) (spawned (world s)) full_cmd),
   mkSys (cache s) (spawn_in full_cmd (world s))).

(** [time.sleep(delay)] *)
Definition sleep (delay : Q) : M unit := λ s,
  (Ok tt, mkSys (cache s) (sleep_in delay (world s))).

(** The filter text as it is rendered into the config: [None] prints as
    such. *)
Definition filter_text (f : option string) : string := default "None" f.

Definition _getCachedFilter : M string :=
  stale ← gets _filterStale;
  (if stale : bool then
     devs ← enumerate_mp;
     user ← ask USER_DEV_LIST;
     modify (set_filter (Some (_buildFilter user devs)) false)
   else mret tt);;
  gets (λ c, filter_text (_filter c)).

(** The command line [_addExtraCfg] assembles: the lvm binary, the
    sub-command, the rendered configuration and the remaining arguments. *)
Definition with_config (ext cmd0 : string) (cmd_rest : list string)
    (dev_filter : string) (read_only : bool) : list string :=
  let conf := _buildConfig dev_filter (if read_only then "4" else "1") in
  [ext; cmd0] ++ ["--config"; conf] ++ cmd_rest.

Definition _addExtraCfg (cmd devices : list string) : M (list string) :=
  match cmd with
  | [] => raise IndexError
  | cmd0 :: cmd_rest =>
      ext ← ask EXT_LVM;
      dev_filter ← (if bool_decide (devices ≠ [])
                    then user ← ask USER_DEV_LIST; mret (_buildFilter user devices)
                    else _getCachedFilter);
      read_only ← gets _read_only;
      mret (with_config ext cmd0 cmd_rest dev_filter read_only)
  end.

Definition invalidateFilter : M unit :=
  modify (λ c, set_filter (_filter c) true c).

(** The read-only retry loop of [cmd], over the values of
    [range(1, READ_ONLY_RETRIES + 1)] still to come; [r] is the result of
    the last run. *)
Fixpoint cmd_retry (retries : list nat) (delay : Q) (full_cmd : list string)
    (r : RunResult) : M RunResult :=
  match retries with
  | [] => mret r
  | _ :: retries' =>
      sleep delay;;
      let delay := (delay * RETRY_BACKUP_OFF)%Q in
      r ← run full_cmd;
      if rc r =? 0 then mret r
      else cmd_retry retries' delay full_cmd r
  end.

(** [LVMCache.cmd(cmd, devices)]. The command semaphore and the shared
    read-only lock held around the body do not show in a single thread;
    the [tries] counter only feeds the log. *)
Definition cmd (cmd devices : list string) : M RunResult :=
  full_cmd ← _addExtraCfg cmd devices;
  r ← run full_cmd;
  if rc r =? 0 then mret r else
  invalidateFilter;;
  wider_cmd ← _addExtraCfg cmd [];
  '(full_cmd, r, returned) ←
    (if bool_decide (wider_cmd ≠ full_cmd) then
       r ← run wider_cmd;
       mret (wider_cmd, r, rc r =? 0)
     else mret (full_cmd, r, false));
  if returned : bool then mret r else
  read_only ← gets _read_only;
  if negb (rc r =? 0) && read_only
  then cmd_retry (seq 1 READ_ONLY_RETRIES) RETRY_DELAY full_cmd r
  else mret r.

(** [LVMCache.set_read_only(value)], in a single thread. *)
Definition set_read_only (value : bool) : M unit :=
  read_only ← gets _read_only;
  if bool_decide (read_only ≠ value) then modify (set_mode value) else mret tt.

(** ** Cache engine: reload *)

(** An argument that the callers pass as [None], as one name or as a list
    of names. *)
Inductive names : Type :=
| NoNames
| OneName (s : string)
| Names (l : list string).

Definition normalize_args (args : names) : list string :=
  match args with
  | NoNames => []
  | OneName s => [s]
  | Names l => l
  end.

(** Truth value of the argument itself, as [if not pvName] tests it. *)
Definition truthy (args : names) : bool :=
  match args with
  | NoNames => false
  | OneName s => bool_decide (s ≠ "")
  | Names l => bool_decide (l ≠ [])
  end.

(** The fields of one output line. *)
Definition line_fields (line : string) : list string :=
  Py.strip <$> Py.split SEPARATOR line.

(** Keys of a dict, as iterating over it yields them. *)
Definition keys {K A} `{Countable K} (m : gmap K A) : list K := (map_to_list m).*1.
Definition values {K A} `{Countable K} (m : gmap K A) : list A := (map_to_list m).*2.

(** One step of the failure branch of a reload: a stale entry in scope
    becomes [Unreadable] in the cache and in the result. *)
Definition mark_unreadable_step {K R} `{Countable K} (name_of : R → string)
    (acc : gmap K (entry R) * gmap K (entry R)) (k : K)
    : gmap K (entry R) * gmap K (entry R) :=
  let '(m, updated) := acc in
  match m !! k with
  | Some e =>
      if is_stale e then
        let e' := Unreadable (entry_name name_of e) in
        (<[k := e']> m, <[k := e']> updated)
      else (m, updated)
  | None => (m, updated)
  end.

(** The failure branch of a reload over the names in scope; returns the
    map and the updated entries. *)
Definition mark_unreadable {K R} `{Countable K} (name_of : R → string)
    (scope : list K) (m : gmap K (entry R)) : gmap K (entry R) * gmap K (entry R) :=
  foldl (mark_unreadable_step name_of) (m, ∅) scope.

(** Removal of the names in scope that the command did not report. *)
Definition remove_stale {K R} `{Countable K} (scope : list K)
    (updated m : gmap K (entry R)) : gmap K (entry R) :=
  let stale := filter (λ k, updated !! k = None) scope in
  foldl (λ m k, delete k m) m stale.

(** A [for] loop whose body may raise and which carries the local
    variables [acc] from one iteration to the next. *)
Fixpoint for_ {A B} (l : list A) (body : A → B → M B) (acc : B) : M B :=
  match l with
  | [] => mret acc
  | x :: l' => acc' ← body x acc; for_ l' body acc'
  end.

(** Body of the loop over the lines of pvs. *)
Definition _reloadpvs_line (line : string)
    (updatedPVs : gmap string (entry PV.t)) : M (gmap string (entry PV.t)) :=
  let fields := line_fields line in
  if bool_decide (length fields ≠ PV_FIELDS_LEN)
  then raise (InvalidOutputLine "pvs" line)
  else
    pv ← lift (PV.fromlvm fields);
    if bool_decide (PV.name pv = UNKNOWN)
    then mret updatedPVs
    else
      modify (λ c, set_pvs (_stalepv c) (<[PV.name pv := Fresh pv]> (_pvs c)) c);;
      mret (<[PV.name pv := Fresh pv]> updatedPVs).

(** What [_reloadpvs] does with the result of the command, under the
    cache lock. *)
Definition _reloadpvs_locked (pvName : names) (r : RunResult)
    : M (gmap string (entry PV.t)) :=
  let pvNames := normalize_args pvName in
  if negb (rc r =? 0) then
    pvs ← gets _pvs;
    let scope := if bool_decide (pvNames ≠ []) then pvNames else keys pvs in
    let '(pvs', updatedPVs) := mark_unreadable PV.name scope pvs in
    modify (λ c, set_pvs (_stalepv c) pvs' c);;
    mret updatedPVs
  else
    updatedPVs ← for_ (out r) _reloadpvs_line ∅;
    pvs ← gets _pvs;
    let scope := if bool_decide (pvNames ≠ []) then pvNames else keys pvs in
    modify (λ c, set_pvs (if truthy pvName then _stalepv c else false)
                   (remove_stale scope updatedPVs pvs) c);;
    mret updatedPVs.

Definition _reloadpvs (pvName : names) : M (gmap string (entry PV.t)) :=
  r ← cmd (PVS_CMD ++ normalize_args pvName) [];
  _reloadpvs_locked pvName r.

Fixpoint _getVGDevs_go (vgs : gmap string (entry VG.t)) (vgNames devices : list string)
    : list string :=
  match vgNames with
  | [] => devices
  | name :: vgNames' =>
      match vgs !! name with
      | Some (Fresh vg) => _getVGDevs_go vgs vgNames' (devices ++ VG.pv_name vg)
      | _ => []
      end
  end.

Definition _getVGDevs (vgNames : list string) : M (list string) :=
  gets (λ c, _getVGDevs_go (_vgs c) vgNames []).

(** The rows of vgs grouped by uuid, in order of first appearance: the
    fields of the first row of the group and the pv names collected. *)
Definition vgsFields_t : Type := list (string * (list string * list string)).

Fixpoint vgsFields_add (uuid : string) (fields : list string) (pv_name : string)
    (vgsFields : vgsFields_t) : vgsFields_t :=
  match vgsFields with
  | [] => [(uuid, (fields, [pv_name]))]
  | (u, (f, pvs)) :: rest =>
      if bool_decide (u = uuid) then (u, (f, pvs ++ [pv_name])) :: rest
      else (u, (f, pvs)) :: vgsFields_add uuid fields pv_name rest
  end.

(** Body of the first loop of [_reloadvgs], over the lines of vgs. *)
Definition _reloadvgs_line (line : string) (vgsFields : vgsFields_t) : M vgsFields_t :=
  let fields := line_fields line in
  if bool_decide (length fields ≠ VG_FIELDS_LEN)
  then raise (InvalidOutputLine "vgs" line)
  else
    let uuid := nth 0 fields "" in
    let pv_name := nth 13 fields "" in
    if bool_decide (pv_name = UNKNOWN)
    then mret vgsFields
    else mret (vgsFields_add uuid fields pv_name vgsFields).

(** Body of the second loop of [_reloadvgs], over the grouped rows. *)
Definition _reloadvgs_group (group : string * (list string * list string))
    (updatedVGs : gmap string (entry VG.t)) : M (gmap string (entry VG.t)) :=
  let '(_, (fields, pv_names)) := group in
  vg ← lift (VG.fromlvm fields pv_names);
  _ ← int (VG.pv_count vg);
  modify (λ c, set_vgs (_stalevg c) (_freshlv c) (<[VG.name vg := Fresh vg]> (_vgs c)) c);;
  mret (<[VG.name vg := Fresh vg]> updatedVGs).

(** The [if rc != 0] block of [_reloadvgs], which does not return. *)
Definition _reloadvgs_failed (vgNames : list string) (r : RunResult) : M unit :=
  if negb (rc r =? 0) then
    vgs ← gets _vgs;
    let scope := if bool_decide (vgNames ≠ []) then vgNames else keys vgs in
    modify (λ c, set_vgs (_stalevg c) (_freshlv c) (mark_unreadable VG.name scope vgs).1 c)
  else mret tt.

Definition _reloadvgs_locked (vgName : names) (r : RunResult)
    : M (gmap string (entry VG.t)) :=
  let vgNames := normalize_args vgName in
  _reloadvgs_failed vgNames r;;
  vgsFields ← for_ (out r) _reloadvgs_line [];
  updatedVGs ← for_ vgsFields _reloadvgs_group ∅;
  vgs ← gets _vgs;
  let scope := if bool_decide (vgNames ≠ []) then vgNames else keys vgs in
  let staleVGs := filter (λ name, updatedVGs !! name = None ∧ is_Some (vgs !! name)) scope in
  modify (λ c, set_vgs (if truthy vgName then _stalevg c else false)
                 (_freshlv c ∖ list_to_set staleVGs)
                 (remove_stale scope updatedVGs vgs) c);;
  mret updatedVGs.

Definition _reloadvgs (vgName : names) : M (gmap string (entry VG.t)) :=
  devices ← _getVGDevs (normalize_args vgName);
  r ← cmd (VGS_CMD ++ normalize_args vgName) devices;
  _reloadvgs_locked vgName r.

(** Body of the loop over the lines of lvs. *)
Definition _reloadlvs_line (line : string)
    (updatedLVs : gmap (string * string) (entry LV.t))
    : M (gmap (string * string) (entry LV.t)) :=
  let fields := line_fields line in
  if bool_decide (length fields ≠ LV_FIELDS_LEN)
  then raise (InvalidOutputLine "lvs" line)
  else
    lv ← lift (LV.fromlvm fields);
    if bool_decide (LV.seg_start_pe lv = "0") then
      let key := (LV.vg_name lv, LV.name lv) in
      modify (λ c, set_lvs (_freshlv c) (<[key := Fresh lv]> (_lvs c)) c);;
      mret (<[key := Fresh lv]> updatedLVs)
    else mret updatedLVs.

(** The names of the cached LVs of one VG. *)
Definition lvs_of_vg (vgName : string) (lvs : gmap (string * string) (entry LV.t))
    : list string :=
  (filter (λ k, k.1 = vgName) (keys lvs)).*2.

Definition _reloadlvs_locked (vgName : string) (lvNames : list string) (r : RunResult)
    : M (gmap (string * string) (entry LV.t)) :=
  if negb (rc r =? 0) then
    lvs ← gets _lvs;
    let scope := if bool_decide (lvNames ≠ []) then lvNames else lvs_of_vg vgName lvs in
    let '(lvs', updatedLVs) :=
      mark_unreadable LV.name ((λ lvName, (vgName, lvName)) <$> scope) lvs in
    modify (λ c, set_lvs (_freshlv c) lvs' c);;
    mret updatedLVs
  else
    updatedLVs ← for_ (out r) _reloadlvs_line ∅;
    lvs ← gets _lvs;
    let scope := if bool_decide (lvNames ≠ []) then lvNames else lvs_of_vg vgName lvs in
    modify (λ c, set_lvs (if bool_decide (lvNames ≠ []) then _freshlv c
                          else _freshlv c ∪ {[ vgName ]})
                   (remove_stale ((λ lvName, (vgName, lvName)) <$> scope) updatedLVs lvs) c);;
    mret updatedLVs.

(** The arguments appended to [LVS_CMD]. *)
Definition lvs_args (vgName : string) (lvNames : list string) : list string :=
  if bool_decide (lvNames ≠ [])
  then (λ lvName, vgName +:+ "/" +:+ lvName) <$> lvNames
  else [vgName].

Definition _reloadlvs (vgName : string) (lvNames : names)
    : M (gmap (string * string) (entry LV.t)) :=
  let lvNames := normalize_args lvNames in
  devices ← _getVGDevs [vgName];
  r ← cmd (LVS_CMD ++ lvs_args vgName lvNames) devices;
  _reloadlvs_locked vgName lvNames r.

(** ** Cache engine: invalidation *)

Definition _invalidatepvs (pvNames : names) : M unit :=
  modify (λ c, set_pvs (_stalepv c)
                 (foldl (λ pvs pvName, <[pvName := Stale pvName]> pvs) (_pvs c)
                    (normalize_args pvNames)) c).

Definition _invalidatevgs (vgNames : names) : M unit :=
  modify (λ c, set_vgs (_stalevg c) (_freshlv c)
                 (foldl (λ vgs vgName, <[vgName := Stale vgName]> vgs) (_vgs c)
                    (normalize_args vgNames)) c).

(** Body of the loop of [_invalidatelvs] over all the values of the dict:
    a fresh LV of the VG has the slot [(vgName, lv.name)] overwritten. *)
Definition _invalidatelvs_step (vgName : string)
    (lvs : gmap (string * string) (entry LV.t)) (e : entry LV.t)
    : gmap (string * string) (entry LV.t) :=
  match e with
  | Fresh lv =>
      if bool_decide (LV.vg_name lv = vgName)
      then <[(vgName, LV.name lv) := Stale (LV.name lv)]> lvs
      else lvs
  | _ => lvs
  end.

(** [_invalidatelvs(vgName, lvNames)]. Without names, the loop runs over
    the values the dict held when it started. *)
Definition _invalidatelvs (vgName : string) (lvNames : names) : M unit :=
  let lvNames := normalize_args lvNames in
  modify (λ c,
    set_lvs (_freshlv c)
      (if bool_decide (lvNames ≠ []) then
         foldl (λ lvs lvName, <[(vgName, lvName) := Stale lvName]> lvs) (_lvs c) lvNames
       else foldl (_invalidatelvs_step vgName) (_lvs c) (values (_lvs c))) c).

Definition _removelvs (vgName : string) (lvNames : names) : M unit :=
  let lvNames := normalize_args lvNames in
  modify (λ c,
    let scope := if bool_decide (lvNames ≠ []) then lvNames
                 else lvs_of_vg vgName (_lvs c) in
    set_lvs (_freshlv c)
      (foldl (λ lvs lvName, delete (vgName, lvName) lvs) (_lvs c) scope) c).

(** ** Cache engine: read API *)

Definition stats_miss : M unit :=
  modify (λ c, set_stats (mkStats (_hits (_stats c)) (S (_misses (_stats c)))) c).
Definition stats_hit : M unit :=
  modify (λ c, set_stats (mkStats (S (_hits (_stats c))) (_misses (_stats c))) c).

(** Whether a lookup result calls for a reload: [not x or x.is_stale()]. *)
Definition missing_or_stale {R} (o : option (entry R)) : bool :=
  match o with
  | None => true
  | Some e => is_stale e
  end.

Definition getPv (pvName : string) : M (option (entry PV.t)) :=
  pv ← gets (λ c, _pvs c !! pvName);
  if missing_or_stale pv then
    stats_miss;;
    pvs ← _reloadpvs (OneName pvName);
    mret (pvs !! pvName)
  else stats_hit;; mret pv.

Definition getVg (vgName : string) : M (option (entry VG.t)) :=
  vg ← gets (λ c, _vgs c !! vgName);
  if missing_or_stale vg then
    stats_miss;;
    vgs ← _reloadvgs (OneName vgName);
    mret (vgs !! vgName)
  else stats_hit;; mret vg.

Definition _lvs_needs_reload (vg_name : string) (c : LVMCache) : bool :=
  if negb (_cache_lvs c) then true
  else if bool_decide (vg_name ∉ _freshlv c) then true
  else existsb (λ '((vgn, _), lv), bool_decide (vgn = vg_name) && is_stale lv)
         (map_to_list (_lvs c)).

(** What [getLv] returns: one slot (or [None]) when an LV name is given,
    the list of the fresh LVs of the VG otherwise. *)
Inductive lv_lookup : Type :=
| OneLv (lv : option (entry LV.t))
| AllLvs (lvs : list LV.t).

(** [not lv] on the value returned by [getLv]. *)
Definition lookup_falsy (r : lv_lookup) : bool :=
  match r with
  | OneLv None => true
  | OneLv (Some _) => false
  | AllLvs l => bool_decide (l = [])
  end.

(** [[lv for lv in lvs.values() if not lv.is_stale() and lv.vg_name == vgName]] *)
Definition fresh_lvs_of (vgName : string) (lvs : gmap (string * string) (entry LV.t))
    : list LV.t :=
  omap (λ e, match e with
             | Fresh lv => if bool_decide (LV.vg_name lv = vgName) then Some lv else None
             | _ => None
             end) (values lvs).

(** Truth value of an optional string argument. *)
Definition str_truthy (o : option string) : bool :=
  match o with
  | Some s => bool_decide (s ≠ "")
  | None => false
  end.

Definition getLv (vgName : string) (lvName : option string) : M lv_lookup :=
  if str_truthy lvName then
    let lvName := default "" lvName in
    lv ← gets (λ c, _lvs c !! (vgName, lvName));
    if missing_or_stale lv then
      stats_miss;;
      lvs ← _reloadlvs vgName NoNames;
      mret (OneLv (lvs !! (vgName, lvName)))
    else stats_hit;; mret (OneLv lv)
  else
    needs_reload ← gets (_lvs_needs_reload vgName);
    lvs ← (if needs_reload : bool then stats_miss;; _reloadlvs vgName NoNames
           else stats_hit;; gets _lvs);
    mret (AllLvs (fresh_lvs_of vgName lvs)).

(** ** Public object accessors *)

Definition _fqpvname (pv : string) : M string :=
  match pv with
  | EmptyString => raise IndexError
  | String a _ =>
      if Ascii.eqb a "/"%char then mret pv
      else mret (Py.path_join PV_PREFIX pv)
  end.

Definition getPV (pvName : string) : M (entry PV.t) :=
  fq ← _fqpvname pvName;
  pv ← getPv fq;
  match pv with
  | None => raise (InaccessiblePhysDev pvName)
  | Some pv => mret pv
  end.

Definition getVG (vgName : string) : M (entry VG.t) :=
  vg ← getVg vgName;
  match vg with
  | None => raise (VolumeGroupDoesNotExist vgName)
  | Some vg => mret vg
  end.

(** The text [%s] gives for an optional name. *)
Definition str_opt (o : option string) : string := default "None" o.

Definition getLV (vgName : string) (lvName : option string) : M lv_lookup :=
  lv ← getLv vgName lvName;
  if lookup_falsy lv
  then raise (LogicalVolumeDoesNotExistError (vgName +:+ "/" +:+ str_opt lvName))
  else mret lv.

(** Attribute access on the value [getLV(vgName, lvName)] returned. A list
    has no such attribute. *)
Definition lv_attr {A} (attrName : string) (f : LV.t → A) (r : lv_lookup) : M A :=
  match r with
  | OneLv (Some e) => lift (getattr attrName f e)
  | OneLv None =>
      raise (AttributeError ("'NoneType' object has no attribute '" +:+ attrName +:+ "'"))
  | AllLvs _ =>
      raise (AttributeError ("'list' object has no attribute '" +:+ attrName +:+ "'"))
  end.

(** ** Public operations *)

(** Modelled from the spec: [vdsm.utils.round(n, size)] is not part of this
    module; the extend and reduce operations use it to round a size up to a
    whole number of extents, that is to the next multiple of [size]. *)
Definition utils_round (n size : Z) : Z := (n + size - 1) / size * size.

(** [utils.round(size_mb * MiB, extent_size) // extent_size] *)
Definition requested_extents_of (size_mb extent_size : Z) : Z :=
  utils_round (size_mb * MiB) extent_size / extent_size.

Fixpoint mapM {A B} (f : A → M B) (l : list A) : M (list B) :=
  match l with
  | [] => mret []
  | x :: l' => y ← f x; ys ← mapM f l'; mret (y :: ys)
  end.

(** The command lines of the operations below. *)
Definition pvmove_cmd (pvName : string) (dsts : list string) : list string :=
  ["pvmove"; pvName] ++ dsts.
Definition lvremove_cmd (vgName : string) (lvNames : list string) : list string :=
  ["lvremove"; "-f"] ++ LVM_NOBACKUP
  ++ ((λ lvName, vgName +:+ "/" +:+ lvName) <$> lvNames).
Definition lvreduce_cmd (vgName lvName : string) (size_mb : Z) (force : bool)
    : list string :=
  ["lvreduce"] ++ LVM_NOBACKUP ++ (if force then ["--force"] else [])
  ++ ["--size"; Py.str_Z size_mb +:+ "m"; vgName +:+ "/" +:+ lvName].

Definition movePV (vgName src_device : string) (dst_devices : list string) : M unit :=
  pvName ← _fqpvname src_device;
  _invalidatepvs (OneName pvName);;
  pv ← getPV pvName;
  pe_alloc_count ← lift (getattr "pe_alloc_count" PV.pe_alloc_count pv);
  if bool_decide (pe_alloc_count = "0") then mret tt else
  dsts ← mapM _fqpvname dst_devices;
  devices ← _getVGDevs [vgName];
  r ← cmd (pvmove_cmd pvName dsts) devices;
  _invalidatepvs (OneName pvName);;
  _invalidatelvs vgName NoNames;;
  _invalidatevgs (OneName vgName);;
  if negb (rc r =? 0) then raise (CouldNotMovePVData pvName vgName (err r))
  else mret tt.

(** [removeLVs(vgName, lvNames)]. The probe of [/dev/vg/lv] before the
    command only decides whether a warning is logged. *)
Definition removeLVs (vgName : string) (lvNames : list string) : M unit :=
  devices ← _getVGDevs [vgName];
  r ← cmd (lvremove_cmd vgName lvNames) devices;
  if rc r =? 0 then
    _removelvs vgName (Names lvNames);;
    _invalidatevgs (OneName vgName)
  else
    _invalidatelvs vgName (Names lvNames);;
    raise (CannotRemoveLogicalVolume vgName lvNames (err r)).


Definition reduceLV (vgName lvName : string) (size_mb : Z) (force : bool) : M unit :=
  devices ← _getVGDevs [vgName];
  r ← cmd (lvreduce_cmd vgName lvName size_mb force) devices;
  if negb (rc r =? 0) then
    vg ← getVG vgName;
    lv ← getLV vgName (Some lvName);
    extent_size ← (s ← lift (getattr "extent_size" VG.extent_size vg); int s);
    lv_extents ← (s ← lv_attr "size" LV.size lv; n ← int s; floordiv n extent_size);
    requested_extents ← floordiv (utils_round (size_mb * MiB) extent_size) extent_size;
    if lv_extents <=? requested_extents then mret tt
    else raise (LogicalVolumeExtendError vgName lvName (Py.str_Z size_mb +:+ "m"))
  else
    _invalidatevgs (OneName vgName);;
    _invalidatelvs vgName (OneName lvName).

(** ** Threads, the command semaphore and the read-only lock

    The two methods that take the read-only lock, run by any number of
    threads. A thread makes one call; a new call is a new thread. Each
    thread is at one point of its call, and what it holds follows from that
    point. *)

Definition MAX_COMMANDS : nat := 10.

Inductive call : Type :=
| CallCmd
| CallSetReadOnly (value : bool).

(** Where a thread is: the call is made and nothing is held yet; [cmd] holds
    the semaphore and waits for the shared lock; [cmd] holds the semaphore
    and the shared lock and runs its body; [set_read_only] holds the
    exclusive lock, before and after the body of its [with] block; the call
    has returned and holds nothing. *)
Inductive pc : Type :=
| Called (c : call)
| HasSem
| InCmd
| HasExclusive (value : bool)
| Switched
| Returned.

#[global] Instance call_eq_dec : EqDecision call.
Proof. solve_decision. Defined.
#[global] Instance pc_eq_dec : EqDecision pc.
Proof. solve_decision. Defined.

Definition holds_sem (p : pc) : bool :=
  match p with HasSem | InCmd => true | _ => false end.
Definition holds_shared (p : pc) : bool :=
  match p with InCmd => true | _ => false end.
Definition holds_exclusive (p : pc) : bool :=
  match p with HasExclusive _ | Switched => true | _ => false end.

Record Conc : Type := mkConc {
  threads : gmap nat pc;
  read_only_flag : bool }.

(** The number of threads inside [with self._cmd_sem]. *)
Definition sem_count (th : gmap nat pc) : nat :=
  length (filter (λ tp, holds_sem tp.2 = true) (map_to_list th)).

Definition move (t : nat) (p : pc) (σ : Conc) : Conc :=
  mkConc (<[t := p]> (threads σ)) (read_only_flag σ).

(** Modelled from the spec: [rwlock.RWLock] and the bounded semaphore are
    not part of the module. Several shared holders may proceed together; the
    exclusive lock is granted only when no thread holds the lock in either
    mode, and the shared lock only when no thread holds it exclusively; the
    semaphore admits at most [MAX_COMMANDS] threads. The steps follow the two
    [with] statements: [cmd] takes the semaphore, then the shared lock, and
    releases both when its body returns; [set_read_only] takes the exclusive
    lock, runs its body, which assigns the flag if the value differs, and
    releases the lock. *)
Inductive step : Conc → Conc → Prop :=
| step_call t c σ :
    threads σ !! t = None → step σ (move t (Called c) σ)
| step_sem t σ :
    threads σ !! t = Some (Called CallCmd) →
    (sem_count (threads σ) < MAX_COMMANDS)%nat →
    step σ (move t HasSem σ)
| step_shared t σ :
    threads σ !! t = Some HasSem →
    (∀ u p, threads σ !! u = Some p → holds_exclusive p = false) →
    step σ (move t InCmd σ)
| step_cmd_return t σ :
    threads σ !! t = Some InCmd → step σ (move t Returned σ)
| step_exclusive t value σ :
    threads σ !! t = Some (Called (CallSetReadOnly value)) →
    (∀ u p, threads σ !! u = Some p →
            holds_shared p = false ∧ holds_exclusive p = false) →
    step σ (move t (HasExclusive value) σ)
| step_switch t value σ :
    threads σ !! t = Some (HasExclusive value) →
    step σ (mkConc (<[t := Switched]> (threads σ))
              (if bool_decide (read_only_flag σ ≠ value) then value
               else read_only_flag σ))
| step_set_return t σ :
    threads σ !! t = Some Switched → step σ (move t Returned σ).

(** At the start no thread holds anything. *)
Definition initial (σ : Conc) : Prop :=
  ∀ t p, threads σ !! t = Some p → ∃ c, p = Called c.

Definition reachable (σ : Conc) : Prop := ∃ σ0, initial σ0 ∧ rtc step σ0 σ.

(** No command is in flight while a thread holds the exclusive lock, and
    at most one thread holds it. *)
Definition exclusion (σ : Conc) : Prop :=
  ∀ t p, threads σ !! t = Some p → holds_exclusive p = true →
    ∀ u q, threads σ !! u = Some q →
      holds_shared q = false ∧ (holds_exclusive q = true → u = t).

(** ** Specification-side definitions

    The following definitions are not translated from the module: they
    phrase what the operations are expected to produce, and the properties
    below compare them with the code. *)

(** The text of a filter accepting exactly the devices [ds], in this
    order. *)
Definition render_filter (ds : list string) : string :=
  "[" +:+
  match ds with
  | [] => ""
  | _ => Py.DQ +:+ "a|" +:+ Py.join "|" ((λ d, "^" +:+ d +:+ "$") <$> ds)
         +:+ "|" +:+ Py.DQ +:+ ", "
  end +:+ Py.DQ +:+ "r|.*|" +:+ Py.DQ +:+ "]".

(** The first line whose number of fields is not [n]. *)
Fixpoint first_bad (n : nat) (lines : list string) : option string :=
  match lines with
  | [] => None
  | line :: lines' =>
      if bool_decide (length (line_fields line) ≠ n) then Some line
      else first_bad n lines'
  end.

(** A pvs row whose name is the [UNKNOWN] marker, and a vgs row whose
    pv_name is. *)
Definition unknown_pv_row (line : string) : bool :=
  bool_decide (length (line_fields line) = PV_FIELDS_LEN
               ∧ nth 1 (line_fields line) "" = UNKNOWN).
Definition unknown_vg_row (line : string) : bool :=
  bool_decide (length (line_fields line) = VG_FIELDS_LEN
               ∧ nth 13 (line_fields line) "" = UNKNOWN).

(** The run result with some of its output lines dropped. *)
Definition drop_lines (skip : string → bool) (r : RunResult) : RunResult :=
  mkRun (rc r) (filter (λ line, skip line = false) (out r)) (err r).

(** The vgs row of scenario S1, for the PV [pv]. *)
Definition vg0_row (pv : string) : string :=
  "uuid-1|vg0|wz--n-|107374182400|53687091200|134217728|800|400|tag1,tag2|"
  +:+ "16777216|8388608|3|2|" +:+ pv.

(** The record expected from the two rows of scenario S1. *)
Definition vg0_record : VG.t :=
  VG.mk "uuid-1" "vg0" (VG.mkATTR "w" "z" "-" "-" "n" "-")
    "107374182400" "53687091200" "134217728" "800" "400" ["tag1"; "tag2"]
    "16777216" "8388608" "3" "2" ["/dev/mapper/pv0"; "/dev/mapper/pv1"]
    true "OK".

(** A host for scenario S1: a new cache, no multipath device, and a runner
    that answers every command with the two rows. *)
Definition S1_world : World :=
  mkWorld (λ _ _, mkRun 0 [vg0_row "/dev/mapper/pv0"; vg0_row "/dev/mapper/pv1"] [])
    (λ _, []) "" "/usr/sbin/lvm" [] 0 [].
Definition S1_sys : Sys := mkSys (LVMCache_init false) S1_world.

(** The delays of the read-only retries, in seconds. *)
Definition retry_delays : list Q := [1 # 10; 2 # 10; 4 # 10; 8 # 10].

(** [n] delays starting at [delay], each multiplied by the back-off
    factor to give the next. *)
Fixpoint backoff_delays (n : nat) (delay : Q) : list Q :=
  match n with
  | O => []
  | S n' => delay :: backoff_delays n' (delay * RETRY_BACKUP_OFF)%Q
  end.

(** Running a list of attempts, each a command and the sleep that precedes
    it, until one returns 0: the result of the last attempt made ([r] when
    none is) and the world afterwards. *)
Fixpoint run_attempts (attempts : list (option Q * list string)) (r : RunResult)
    (w : World) : RunResult * World :=
  match attempts with
  | [] => (r, w)
  | (delay, full_cmd) :: rest =>
      let w1 := match delay with Some d => sleep_in d w | None => w end in
      let r' := runner w1 (spawned w1) full_cmd in
      if rc r' =? 0 then (r', spawn_in full_cmd w1)
      else run_attempts rest r' (spawn_in full_cmd w1)
  end.

(** The three-stage ladder of the specification: the command with the
    specific or cached filter; then, the filter marked stale and rebuilt,
    the widened command if it differs; then, in read-only mode, the retries
    with their delays. *)
Definition ladder (argv devices : list string) (s : Sys) : result RunResult * Sys :=
  match _addExtraCfg argv devices s with
  | (Raise e, s1) => (Raise e, s1)
  | (Ok full_cmd, s1) =>
      let r1 := runner (world s1) (spawned (world s1)) full_cmd in
      let w1 := spawn_in full_cmd (world s1) in
      if rc r1 =? 0 then (Ok r1, mkSys (cache s1) w1) else
      match _addExtraCfg argv []
              (mkSys (set_filter (_filter (cache s1)) true (cache s1)) w1) with
      | (Raise e, s2) => (Raise e, s2)
      | (Ok wider_cmd, s2) =>
          let widened := bool_decide (wider_cmd ≠ full_cmd) in
          let last_cmd := if widened then wider_cmd else full_cmd in
          let attempts :=
            (if widened then [(None, wider_cmd)] else [])
            ++ (if _read_only (cache s2)
                then (λ d, (Some d, last_cmd)) <$> retry_delays else []) in
          let '(r, w) := run_attempts attempts r1 (world s2) in
          (Ok r, mkSys (cache s2) w)
      end
  end.

(** The commands of the first two stages: the first command, and the
    widened one when it differs. *)
Definition filter_attempts (argv devices : list string) (s : Sys) : list (list string) :=
  match _addExtraCfg argv devices s with
  | (Ok full_cmd, s1) =>
      match _addExtraCfg argv []
              (mkSys (set_filter (_filter (cache s1)) true (cache s1)) (world s1)) with
      | (Ok wider_cmd, _) =>
          if bool_decide (wider_cmd ≠ full_cmd) then [full_cmd; wider_cmd] else [full_cmd]
      | _ => [full_cmd]
      end
  | _ => []
  end.

(** The largest number of times [cmd] may run the command. *)
Definition max_tries (argv devices : list string) (s : Sys) : nat :=
  length (filter_attempts argv devices s)
  + (if _read_only (cache s) then READ_ONLY_RETRIES else 0).

(** A deterministic runner that fails (non-zero return code) on its
    invocations before the [N]-th counted from now, and succeeds from the
    [N]-th on. *)
Definition fails_until (N : nat) (w : World) : Prop :=
  ∀ history full_cmd,
    rc (runner w (spawned w ++ history) full_cmd) = 0 ↔ (N ≤ S (length history))%nat.

(** A host whose runner fails with return code 5 until its [N]-th
    invocation and succeeds from then on, with the multipath devices
    [mp]; and an engine in read-only mode on such a host. *)
Definition flaky_world (N : nat) (mp : nat → list string) : World :=
  mkWorld (λ history _, if (S (length history) <? N)%nat
                        then mkRun 5 [] ["failed"] else mkRun 0 ["done"] [])
    mp "" "/usr/sbin/lvm" [] 0 [].
Definition read_only_sys (N : nat) (mp : nat → list string) : Sys :=
  mkSys (set_mode true (LVMCache_init false)) (flaky_world N mp).

(** The bound of the specification read literally: with a runner failing
    until its [N]-th invocation, [cmd] succeeds exactly when [N] is within
    two filter attempts plus the read-only retries. *)
Definition literal_retry_bound : Prop :=
  ∀ (s : Sys) (cmd0 : string) (cmd_rest devices : list string) (N : nat),
    (1 ≤ N)%nat → fails_until N (world s) →
    ∀ r s', cmd (cmd0 :: cmd_rest) devices s = (Ok r, s') →
            (rc r = 0 ↔ (N ≤ 2 + READ_ONLY_RETRIES)%nat).

(** Two caches that differ at most by the cached filter and its flag. *)
Definition same_cache_data (c c' : LVMCache) : Prop :=
  ∃ f stale, c' = set_filter f stale c.

(** Two worlds of one host: same runner, devices and configuration. *)
Definition same_host (w w' : World) : Prop :=
  runner w' = runner w ∧ getMPDevNamesIter w' = getMPDevNamesIter w ∧
  lvm_dev_whitelist w' = lvm_dev_whitelist w ∧ EXT_LVM w' = EXT_LVM w.

(** The runner answers every lvs command with [r]. *)
Definition lvs_answers (w : World) (r : RunResult) : Prop :=
  ∀ history full_cmd, nth 1 full_cmd "" = "lvs" → runner w history full_cmd = r.

(** A VG with no LV: the cache knows the VG of scenario S1 and the runner
    answers every command with success and no output. *)
Definition empty_vg_sys : Sys :=
  mkSys (set_vgs false ∅ {[ "vg0" := Fresh vg0_record ]} (LVMCache_init false))
    (mkWorld (λ _ _, mkRun 0 [] []) (λ _, []) "" "/usr/sbin/lvm" [] 0 []).

(** The LV of scenario S5: 512 MiB in the VG of scenario S1, whose extents
    are 128 MiB. *)
Definition lv0_record : LV.t :=
  LV.mk "uuid-lv0" "lv0" "vg0" (LV.mkATTR "-" "w" "i" "-" "a" "-" "-" "-")
    "536870912" "0" "/dev/mapper/pv0(0)" [] true false true.

(** Scenario S5: both records are cached, and any command would fail. *)
Definition S5_sys : Sys :=
  mkSys (set_lvs ∅ {[ ("vg0", "lv0") := Fresh lv0_record ]}
           (set_vgs false ∅ {[ "vg0" := Fresh vg0_record ]} (LVMCache_init false)))
    (mkWorld (λ _ _, mkRun 5 [] ["failed"]) (λ _, []) "" "/usr/sbin/lvm" [] 0 []).



(** A host on which lvextend fails, lvs reports the LV of scenario S5
    unchanged and vgs reports its VG with two free extents. *)
Definition full_vg_runner (history : list (list string)) (full_cmd : list string)
    : RunResult :=
  if bool_decide (nth 1 full_cmd "" = "lvs") then
    mkRun 0 ["uuid-lv0|lv0|vg0|-wi-a-----|536870912|0|/dev/mapper/pv0(0)|"] []
  else if bool_decide (nth 1 full_cmd "" = "vgs") then
    mkRun 0 ["uuid-1|vg0|wz--n-|107374182400|268435456|134217728|800|2||"
             +:+ "16777216|8388608|3|1|/dev/mapper/pv0"] []
  else mkRun 5 [] ["failed"].

Definition full_vg_sys : Sys :=
  mkSys (cache S5_sys)
    (mkWorld full_vg_runner (λ _, []) "" "/usr/sbin/lvm" [] 0 []).

(** A slot that is stale or gone. *)
Definition stale_or_removed {K R} `{Countable K} (m : gmap K (entry R)) (k : K) : Prop :=
  match m !! k with
  | Some e => is_stale e = true
  | None => True
  end.

(** Every fresh LV sits in the slot of its own VG and name, as the reloads
    store them. *)
Definition lvs_coherent (lvs : gmap (string * string) (entry LV.t)) : Prop :=
  ∀ k lv, lvs !! k = Some (Fresh lv) → k = (LV.vg_name lv, LV.name lv).

(** The invalidation discipline read literally, for [reduceLV] and for
    [movePV]: however the operation ends, the slots of the objects it names
    are stale or gone. *)
Definition reduceLV_always_invalidates : Prop :=
  ∀ (s : Sys) (vgName lvName : string) (size_mb : Z) (force : bool) res s',
    reduceLV vgName lvName size_mb force s = (res, s') →
    stale_or_removed (_vgs (cache s')) vgName ∧
    stale_or_removed (_lvs (cache s')) (vgName, lvName).
Definition movePV_always_invalidates : Prop :=
  ∀ (s : Sys) (vgName pvName : string) (dst_devices : list string) res s',
    movePV vgName pvName dst_devices s = (res, s') →
    String.prefix "/" pvName = true →
    stale_or_removed (_pvs (cache s')) pvName.

(** A host on which pvs reports one PV without allocated extents, and
    every other command fails. *)
Definition idle_pv_sys : Sys :=
  mkSys (LVMCache_init false)
    (mkWorld (λ _ full_cmd,
                if bool_decide (nth 1 full_cmd "" = "pvs") then
                  mkRun 0 ["uuid-pv0|/dev/mapper/pv0|107374182400|vg0|uuid-1|"
                           +:+ "1048576|800|0|2|107374182400|2"] []
                else mkRun 5 [] ["failed"])
       (λ _, []) "" "/usr/sbin/lvm" [] 0 []).

(** The records of scenario S5 on a host where every command succeeds. *)
Definition willing_sys : Sys := mkSys (cache S5_sys) (world empty_vg_sys).

(** One command in flight (thread 1) when [set_read_only(True)] is called
    (thread 2), the engine being in read-write mode. *)
Definition switching : Conc :=
  mkConc {[ 1%nat := InCmd; 2%nat := Called (CallSetReadOnly true) ]} false.

(** What the failure branch of a reload makes of one slot. *)
Definition unreadable_slot {R} (name_of : R → string) (o : option (entry R))
    : option (entry R) :=
  match o with
  | Some e => if is_stale e then Some (Unreadable (entry_name name_of e)) else Some e
  | None => None
  end.

(** While [set_read_only] waits for the lock, a command in flight stays
    in flight or returns; once [set_read_only] has the lock the command has
    returned. *)
Definition drained (t : nat) (value : bool) (u : nat) (σ : Conc) : Prop :=
  (threads σ !! t = Some (Called (CallSetReadOnly value)) ∧
   (threads σ !! u = Some InCmd ∨ threads σ !! u = Some Returned))
  ∨ threads σ !! u = Some Returned.

(** ** Device-mapper names *)

(** [getLvDmName(vgName, lvName)] *)
Definition getLvDmName (vgName lvName : string) : string :=
  Py.replace "-" "--" vgName +:+ "-" +:+ lvName.

(** [_removeVgMapping(vgName)], given the names that
    [devicemapper.getAllMappedDevices()] returned: the mappings handed to
    [devicemapper.removeMapping], in order. A removal that fails is logged
    and the loop goes on. *)
Definition _removeVgMapping (vgName : string) (mappings : list string) : list string :=
  let mappingPrefix := getLvDmName vgName "" in
  filter (λ mapping, String.prefix mappingPrefix mapping = true) mappings.

(** ** Cache engine: bootstrap, wholesale invalidation and the list accessors *)

(** Body of the loop of [_loadAllLvs] over the lines of lvs: the rows go
    to a dict of its own, not to the cache. *)
Definition _loadAllLvs_line (line : string)
    (new_lvs : gmap (string * string) (entry LV.t))
    : M (gmap (string * string) (entry LV.t)) :=
  let fields := line_fields line in
  if bool_decide (length fields ≠ LV_FIELDS_LEN)
  then raise (InvalidOutputLine "lvs" line)
  else
    lv ← lift (LV.fromlvm fields);
    if bool_decide (LV.seg_start_pe lv = "0")
    then mret (<[(LV.vg_name lv, LV.name lv) := Fresh lv]> new_lvs)
    else mret new_lvs.

(** [LVMCache._loadAllLvs()] *)
Definition _loadAllLvs : M (gmap (string * string) (entry LV.t)) :=
  r ← cmd LVS_CMD [];
  (if rc r =? 0 then
     new_lvs ← for_ (out r) _loadAllLvs_line ∅;
     modify (set_lvs (list_to_set (keys new_lvs).*1) new_lvs)
   else mret tt);;
  gets _lvs.

(** [LVMCache.bootstrap()] *)
Definition LVMCache_bootstrap : M unit :=
  _reloadpvs NoNames;;
  _reloadvgs NoNames;;
  _loadAllLvs;;
  mret tt.

(** Body of the loop of [_invalidatevgpvs] over the values of the dict: a
    fresh PV of the VG has the slot of its name overwritten. *)
Definition _invalidatevgpvs_step (vgName : string)
    (pvs : gmap string (entry PV.t)) (e : entry PV.t) : gmap string (entry PV.t) :=
  match e with
  | Fresh pv =>
      if bool_decide (PV.vg_name pv = vgName)
      then <[PV.name pv := Stale (PV.name pv)]> pvs
      else pvs
  | _ => pvs
  end.

(** [_invalidatevgpvs(vgName)]; as in [_invalidatelvs], the loop runs
    over the values the dict held when it started. *)
Definition _invalidatevgpvs (vgName : string) : M unit :=
  modify (λ c, set_pvs (_stalepv c)
                 (foldl (_invalidatevgpvs_step vgName) (_pvs c) (values (_pvs c))) c).

Definition _invalidateAllPvs : M unit := modify (set_pvs true ∅).

Definition _invalidateAllVgs : M unit := modify (set_vgs true ∅ ∅).

Definition _invalidateAllLvs : M unit := modify (set_lvs ∅ ∅).

Definition _removevgs (vgNames : names) : M unit :=
  modify (λ c, set_vgs (_stalevg c) (_freshlv c)
                 (foldl (λ vgs vgName, delete vgName vgs) (_vgs c)
                    (normalize_args vgNames)) c).

Definition flush : M unit :=
  _invalidateAllPvs;;
  _invalidateAllVgs;;
  _invalidateAllLvs.

(** [LVMCache.invalidateCache()] and the module-level [invalidateCache()]
    that calls it. *)
Definition invalidateCache : M unit :=
  invalidateFilter;;
  flush.

(** [CacheStats.clear()], as [clear_stats()] calls it. *)
Definition clear_stats : M unit := modify (set_stats (mkStats 0 0)).

(** Body of the loop of [getPvs] over the PV names of the VG: the name of
    a missing or stale PV is put aside, a cached PV is collected. *)
Definition getPvs_step (cached : gmap string (entry PV.t))
    (acc : list string * list (entry PV.t)) (pvName : string)
    : list string * list (entry PV.t) :=
  let '(stalepvs, pvs) := acc in
  match cached !! pvName with
  | Some pv => if is_stale pv then (stalepvs ++ [pvName], pvs) else (stalepvs, pvs ++ [pv])
  | None => (stalepvs ++ [pvName], pvs)
  end.

(** [LVMCache.getPvs(vgName)]. [getVg] may return [None], which has no
    attribute. *)
Definition getPvs (vgName : string) : M (list (entry PV.t)) :=
  vg ← getVg vgName;
  pv_name ← match vg with
            | Some vg => lift (getattr "pv_name" VG.pv_name vg)
            | None =>
                raise (AttributeError "'NoneType' object has no attribute 'pv_name'")
            end;
  cached ← gets _pvs;
  let '(stalepvs, pvs) := foldl (getPvs_step cached) ([], []) pv_name in
  if bool_decide (stalepvs ≠ []) then
    stats_miss;;
    reloadedpvs ← _reloadpvs (Names stalepvs);
    mret (pvs ++ values reloadedpvs)
  else stats_hit;; mret pvs.

(** [invalidateVG(vgName, invalidateLVs, invalidatePVs)] *)
Definition invalidateVG (vgName : string) (invalidateLVs invalidatePVs : bool) : M unit :=
  _invalidatevgs (OneName vgName);;
  (if invalidateLVs then _invalidatelvs vgName NoNames else mret tt);;
  (if invalidatePVs then _invalidatevgpvs vgName else mret tt).

(** [listPVNames(vgName)]: the cache is read directly; a missing, stale or
    unreadable slot sends to [getVG]. *)
Definition listPVNames (vgName : string) : M (list string) :=
  vg ← gets (λ c, _vgs c !! vgName);
  match vg with
  | Some (Fresh vg) => mret (VG.pv_name vg)
  | _ => vg ← getVG vgName; lift (getattr "pv_name" VG.pv_name vg)
  end.

(** Iterating over the value [getLV] returned, as [lvsByTag] does: a
    single LV is a namedtuple and yields its fields, none of which has
    tags, so only the list form is of use. *)
Definition lvsByTag (vgName tag : string) : M (list LV.t) :=
  lvs ← getLV vgName None;
  match lvs with
  | AllLvs lvs => mret (filter (λ lv, tag ∈ LV.tags lv) lvs)
  | OneLv _ => raise (AttributeError "'str' object has no attribute 'tags'")
  end.
(** A host on which every command fails and prints nothing on its standard
    output. *)
Definition every_command_fails (w : World) : Prop :=
  ∀ history full_cmd,
    rc (runner w history full_cmd) ≠ 0 ∧ out (runner w history full_cmd) = [].

(** A cache whose VG, PV and LV have been invalidated, on a host where
    every command fails. *)
Definition lost_sys : Sys :=
  mkSys (set_lvs ∅ {[ ("vg0", "lv0") := Stale "lv0" ]}
           (set_vgs true ∅ {[ "vg0" := Stale "vg0" ]}
              (set_pvs true {[ "/dev/mapper/pv0" := Stale "/dev/mapper/pv0" ]}
                 (LVMCache_init false))))
    (world S5_sys).

(** Every fresh PV sits in the slot of its own name, as the reloads store
    them. *)
Definition pvs_coherent (pvs : gmap string (entry PV.t)) : Prop :=
  ∀ k pv, pvs !! k = Some (Fresh pv) → PV.name pv = k.

(** What the invalidation of the objects that [sel] selects makes of one
    slot. *)
Definition invalidated_slot {R} (name_of : R → string) (sel : R → bool)
    (o : option (entry R)) : option (entry R) :=
  match o with
  | Some (Fresh r) => if sel r then Some (Stale (name_of r)) else Some (Fresh r)
  | _ => o
  end.

(** A cache that holds the VG of scenario S1, its two PVs and the LV of
    scenario S5, all fresh, on a host where every command fails. *)
Definition pv_record (guid : string) : PV.t :=
  PV.mk ("uuid-" +:+ guid) ("/dev/mapper/" +:+ guid) "107374182400" "vg0" "uuid-1"
    "1048576" "800" "400" "2" "107374182400" "2" guid.
Definition warm_sys : Sys :=
  mkSys (set_pvs false {[ "/dev/mapper/pv0" := Fresh (pv_record "pv0");
                          "/dev/mapper/pv1" := Fresh (pv_record "pv1") ]}
           (cache S5_sys))
    (world S5_sys).
(** ** Helper functions of the public interface *)

(** [s.lstrip(chars)], [s.rstrip(chars)] and [s.strip(chars)]: the
    characters of [chars] are removed at the ends. *)
Fixpoint lstrip_chars (chars : list ascii) (s : string) : string :=
  match s with
  | String a s' => if bool_decide (a ∈ chars) then lstrip_chars chars s' else s
  | EmptyString => EmptyString
  end.

Fixpoint rstrip_chars (chars : list ascii) (s : string) : string :=
  match s with
  | String a s' =>
      match rstrip_chars chars s' with
      | EmptyString => if bool_decide (a ∈ chars) then EmptyString else String a EmptyString
      | r => String a r
      end
  | EmptyString => EmptyString
  end.

Definition strip_chars (chars : list ascii) (s : string) : string :=
  rstrip_chars chars (lstrip_chars chars s).

(** [getFirstExt(vg, lv)] *)
Definition getFirstExt (vg : string) (lv : option string) : M (list string) :=
  lv ← getLV vg lv;
  devices ← lv_attr "devices" LV.devices lv;
  mret (Py.split "("%char (strip_chars [" "%char; ")"%char] devices)).

(** * Properties *)

(** ** Monad laws used by the proofs *)

Lemma bind_Ok {A B} (m : M A) (f : A → M B) s a s' :
  m s = (Ok a, s') → (m ≫= f) s = f a s'.
Proof. intros H. unfold mbind, M_bind. by rewrite H. Qed.

Lemma bind_Raise {A B} (m : M A) (f : A → M B) s e s' :
  m s = (Raise e, s') → (m ≫= f) s = (Raise e, s').
Proof. intros H. unfold mbind, M_bind. by rewrite H. Qed.

Lemma bind_inv_Ok {A B} (m : M A) (f : A → M B) s b s' :
  (m ≫= f) s = (Ok b, s') → ∃ a s1, m s = (Ok a, s1) ∧ f a s1 = (Ok b, s').
Proof.
  unfold mbind, M_bind. destruct (m s) as [[a|e] s1]; [eauto|discriminate].
Qed.

Lemma bind_inv_Raise {A B} (m : M A) (f : A → M B) s e s' :
  (m ≫= f) s = (Raise e, s') →
  m s = (Raise e, s') ∨ ∃ a s1, m s = (Ok a, s1) ∧ f a s1 = (Raise e, s').
Proof.
  unfold mbind, M_bind. destruct (m s) as [[a|e'] s1]; [eauto|].
  intros [= -> ->]. by left.
Qed.

Lemma bind_ext {A B} (m : M A) (f g : A → M B) s :
  (∀ a s1, f a s1 = g a s1) → (m ≫= f) s = (m ≫= g) s.
Proof. intros H. unfold mbind, M_bind. by destruct (m s) as [[a|e] s1]. Qed.

Lemma bind_cong {A B} (m m' : M A) (f : A → M B) s :
  m s = m' s → (m ≫= f) s = (m' ≫= f) s.
Proof. intros H. unfold mbind, M_bind. by rewrite H. Qed.

Ltac munfold :=
  unfold mbind, M_bind, mret, M_ret, raise, lift, gets, modify, ask in *.

(** ** Filter builder *)

Lemma buildFilter_render (user devices : list string) :
  ∃ us ds : list string,
    NoDup us ∧
    (∀ u, u ∈ us ↔ u ≠ "" ∧ ∃ x, x ∈ devices ++ user ∧ u = Py.strip x) ∧
    Sorted String.le ds ∧
    ds ≡ₚ Py.replace "\x" "\\x" <$> us ∧
    _buildFilter user devices = render_filter ds.
Proof.
  set (S := (list_to_set (Py.strip <$> (devices ++ user)) ∖ {[ "" ]} : gset string)).
  exists (elements S), (merge_sort String.le (Py.replace "\x" "\\x" <$> elements S)).
  split; [apply NoDup_elements|].
  split.
  { intros u. rewrite elem_of_elements. unfold S.
    rewrite elem_of_difference, elem_of_list_to_set, list_elem_of_fmap, elem_of_singleton.
    split.
    - intros [(x & -> & Hx) Hne]. split; [done|]. by exists x.
    - intros [Hne (x & Hx & ->)]. split; [by exists x|done]. }
  split; [apply (Sorted_merge_sort String.le)|].
  split; [apply merge_sort_Permutation|].
  unfold _buildFilter, render_filter. fold S.
  case_bool_decide as HS.
  - destruct (merge_sort String.le (Py.replace "\x" "\\x" <$> elements S))
      as [|d ds] eqn:E; [|reflexivity].
    exfalso. apply HS.
    assert (Hp := merge_sort_Permutation String.le (Py.replace "\x" "\\x" <$> elements S)).
    rewrite E in Hp. symmetry in Hp. apply Permutation_nil_r in Hp.
    apply fmap_nil_inv in Hp. by apply elements_empty_inv in Hp; apply leibniz_equiv.
  - rewrite HS, elements_empty. reflexivity.
Qed.

Lemma buildFilter_set (user l1 l2 : list string) :
  (∀ x, x ∈ l1 ↔ x ∈ l2) → _buildFilter user l1 = _buildFilter user l2.
Proof.
  intros H. unfold _buildFilter.
  assert ((list_to_set (Py.strip <$> (l1 ++ user)) : gset string)
          = list_to_set (Py.strip <$> (l2 ++ user))) as ->; [|done].
  apply set_eq. intros x. rewrite !elem_of_list_to_set, !list_elem_of_fmap.
  setoid_rewrite elem_of_app. setoid_rewrite H. done.
Qed.

(** C5. With an empty allowlist (the configuration value is the empty
    string, so [USER_DEV_LIST] holds one empty name), the filter builder
    strips the names, drops the empty ones and the duplicates, doubles the
    backslash of every [\x], sorts the result in lexicographic order and
    renders the accept/reject list: [ds] below is that sorted list. The two
    literal scenarios give exactly the texts of the specification, an escape
    is shown on a literal name, and two inputs with the same elements give
    the same filter. *)
Theorem buildFilter_empty_allowlist (devices : list string) :
  (∃ us ds : list string,
      NoDup us ∧
      (∀ u, u ∈ us ↔ u ≠ "" ∧ ∃ x, x ∈ devices ∧ u = Py.strip x) ∧
      Sorted String.le ds ∧
      ds ≡ₚ Py.replace "\x" "\\x" <$> us ∧
      _buildFilter (Py.split "," "") devices = render_filter ds) ∧
  _buildFilter (Py.split "," "") ["/dev/mapper/a"; "/dev/mapper/b"]
    = "[" +:+ Py.DQ +:+ "a|^/dev/mapper/a$|^/dev/mapper/b$|" +:+ Py.DQ +:+ ", "
          +:+ Py.DQ +:+ "r|.*|" +:+ Py.DQ +:+ "]" ∧
  _buildFilter (Py.split "," "") [] = "[" +:+ Py.DQ +:+ "r|.*|" +:+ Py.DQ +:+ "]" ∧
  _buildFilter (Py.split "," "") ["/dev/mapper/b"; ""; "/dev/\x2d"; "/dev/mapper/b"]
    = "[" +:+ Py.DQ +:+ "a|^/dev/\\x2d$|^/dev/mapper/b$|" +:+ Py.DQ +:+ ", "
          +:+ Py.DQ +:+ "r|.*|" +:+ Py.DQ +:+ "]" ∧
  (∀ devices' : list string,
      (∀ x, x ∈ devices ↔ x ∈ devices') →
      _buildFilter (Py.split "," "") devices' = _buildFilter (Py.split "," "") devices).
Proof.
  split.
  { destruct (buildFilter_render (Py.split "," "") devices)
      as (us & ds & Hnd & Hin & Hs & Hp & Hf).
    exists us, ds. split; [done|]. split; [|done].
    intros u. rewrite Hin. split.
    - intros [Hne (x & Hx & ->)]. split; [done|].
      apply elem_of_app in Hx as [Hx|Hx]; [by exists x|].
      apply list_elem_of_singleton in Hx as ->. by destruct Hne.
    - intros [Hne (x & Hx & ->)]. split; [done|].
      exists x. split; [|done]. apply elem_of_app. by left. }
  split; [by vm_compute|]. split; [by vm_compute|]. split; [by vm_compute|].
  intros devices' H. apply buildFilter_set. intros x. by rewrite H.
Qed.

(** ** Output parsers *)

Lemma PV_fromlvm_len (fields : list string) :
  length fields = PV_FIELDS_LEN →
  ∃ pv, PV.fromlvm fields = Ok pv ∧ PV.name pv = nth 1 fields "".
Proof.
  intros H. do 12 (destruct fields as [|? fields]; try discriminate H).
  eexists. split; reflexivity.
Qed.

Lemma reloadpvs_line_bad line upd s :
  length (line_fields line) ≠ PV_FIELDS_LEN →
  _reloadpvs_line line upd s = (Raise (InvalidOutputLine "pvs" line), s).
Proof. intros H. unfold _reloadpvs_line. by rewrite bool_decide_true. Qed.

Lemma reloadpvs_line_good line upd s :
  length (line_fields line) = PV_FIELDS_LEN →
  ∃ pv, PV.fromlvm (line_fields line) = Ok pv ∧
        PV.name pv = nth 1 (line_fields line) "" ∧
        _reloadpvs_line line upd s =
          if bool_decide (PV.name pv = UNKNOWN) then (Ok upd, s)
          else (Ok (<[PV.name pv := Fresh pv]> upd),
                mkSys (set_pvs (_stalepv (cache s))
                         (<[PV.name pv := Fresh pv]> (_pvs (cache s))) (cache s))
                  (world s)).
Proof.
  intros H. destruct (PV_fromlvm_len _ H) as (pv & Hpv & Hname).
  exists pv. split; [done|]. split; [done|].
  unfold _reloadpvs_line. rewrite bool_decide_false by congruence.
  munfold. rewrite Hpv. by case_bool_decide.
Qed.

Lemma reloadvgs_line_bad line acc s :
  length (line_fields line) ≠ VG_FIELDS_LEN →
  _reloadvgs_line line acc s = (Raise (InvalidOutputLine "vgs" line), s).
Proof. intros H. unfold _reloadvgs_line. by rewrite bool_decide_true. Qed.

Lemma reloadvgs_line_good line acc s :
  length (line_fields line) = VG_FIELDS_LEN →
  _reloadvgs_line line acc s =
    (Ok (if bool_decide (nth 13 (line_fields line) "" = UNKNOWN) then acc
         else vgsFields_add (nth 0 (line_fields line) "") (line_fields line)
                (nth 13 (line_fields line) "") acc), s).
Proof.
  intros H. unfold _reloadvgs_line. rewrite bool_decide_false by congruence.
  by case_bool_decide.
Qed.

Lemma reloadlvs_line_bad line upd s :
  length (line_fields line) ≠ LV_FIELDS_LEN →
  _reloadlvs_line line upd s = (Raise (InvalidOutputLine "lvs" line), s).
Proof. intros H. unfold _reloadlvs_line. by rewrite bool_decide_true. Qed.

Lemma LV_fromlvm_not_invalid fields c l : LV.fromlvm fields ≠ Raise (InvalidOutputLine c l).
Proof.
  assert (∀ a e, LV.attr_of a = Raise e → e = TypeError) as Hattr.
  { intros a e. unfold LV.attr_of.
    destruct (Py.chars a) as [|? [|? [|? [|? [|? [|? [|? [|? ?]]]]]]]]; congruence. }
  unfold LV.fromlvm. repeat (destruct fields as [|? fields]; try done).
  destruct (LV.attr_of _) eqn:E; [done|]. apply Hattr in E. by subst.
Qed.

Lemma reloadlvs_line_good line upd s c l s' :
  length (line_fields line) = LV_FIELDS_LEN →
  _reloadlvs_line line upd s ≠ (Raise (InvalidOutputLine c l), s').
Proof.
  intros H. unfold _reloadlvs_line. rewrite bool_decide_false by congruence.
  munfold. destruct (LV.fromlvm (line_fields line)) as [lv|e] eqn:E.
  - by case_bool_decide.
  - intros [= -> _]. by eapply LV_fromlvm_not_invalid.
Qed.

(** A loop raises what the body raises at the first line that raises. *)
Lemma for_first_bad_pvs lines upd s :
  match first_bad PV_FIELDS_LEN lines with
  | Some line => ∃ s', for_ lines _reloadpvs_line upd s = (Raise (InvalidOutputLine "pvs" line), s')
  | None => ∃ upd' s', for_ lines _reloadpvs_line upd s = (Ok upd', s')
  end.
Proof.
  revert upd s. induction lines as [|line lines IH]; intros upd s; simpl.
  { by eexists _, _. }
  case_bool_decide as Hlen.
  - exists s. erewrite bind_Raise; [done|]. by apply reloadpvs_line_bad.
  - destruct (reloadpvs_line_good line upd s Hlen) as (pv & _ & _ & Heq).
    destruct (bool_decide (PV.name pv = UNKNOWN));
      (erewrite bind_Ok; [|exact Heq]); apply IH.
Qed.

Lemma for_first_bad_vgs lines acc s :
  match first_bad VG_FIELDS_LEN lines with
  | Some line => for_ lines _reloadvgs_line acc s = (Raise (InvalidOutputLine "vgs" line), s)
  | None => ∃ acc', for_ lines _reloadvgs_line acc s = (Ok acc', s)
  end.
Proof.
  revert acc. induction lines as [|line lines IH]; intros acc; simpl.
  { by eexists. }
  case_bool_decide as Hlen.
  - erewrite bind_Raise; [done|]. by apply reloadvgs_line_bad.
  - erewrite bind_Ok; [|by apply reloadvgs_line_good]. apply IH.
Qed.

Lemma for_invalid_lvs lines upd s c l s' :
  for_ lines _reloadlvs_line upd s = (Raise (InvalidOutputLine c l), s') →
  c = "lvs" ∧ l ∈ lines ∧ length (line_fields l) ≠ LV_FIELDS_LEN.
Proof.
  revert upd s. induction lines as [|line lines IH]; intros upd s; simpl.
  { discriminate. }
  intros H. apply bind_inv_Raise in H as [H|(upd' & s1 & _ & H)].
  - destruct (decide (length (line_fields line) = LV_FIELDS_LEN)) as [Hlen|Hlen].
    + by apply reloadlvs_line_good in H.
    + rewrite reloadlvs_line_bad in H by done. injection H as <- <- _.
      split; [done|]. split; [left|done].
  - apply IH in H as (? & ? & ?). split; [done|]. split; [by right|done].
Qed.

Lemma first_bad_Some n lines l :
  first_bad n lines = Some l → l ∈ lines ∧ length (line_fields l) ≠ n.
Proof.
  induction lines as [|line lines IH]; simpl; [done|].
  case_bool_decide.
  - intros [= <-]. split; [left|done].
  - intros H'. apply IH in H' as [? ?]. split; [by right|done].
Qed.

(** C7. Every output line is split on the separator and its fields are
    trimmed; the loop body of each of the three reloads raises
    [InvalidOutputLine] if and only if the number of fields differs from
    the expected one (11 for pvs, 14 for vgs, 8 for lvs), and the exception
    carries the command name and that very line. For a whole output, pvs
    and vgs raise it exactly for the first offending line, and whatever
    lvs raises of this kind names a line of the output whose field count
    is wrong. *)
Theorem invalid_output_line_iff (line : string) :
  line_fields line = Py.strip <$> Py.split "|" line ∧
  (PV_FIELDS_LEN = 11 ∧ VG_FIELDS_LEN = 14 ∧ LV_FIELDS_LEN = 8)%nat ∧
  (∀ upd s c l,
      (_reloadpvs_line line upd s).1 = Raise (InvalidOutputLine c l)
      ↔ length (line_fields line) ≠ 11%nat ∧ c = "pvs" ∧ l = line) ∧
  (∀ acc s c l,
      (_reloadvgs_line line acc s).1 = Raise (InvalidOutputLine c l)
      ↔ length (line_fields line) ≠ 14%nat ∧ c = "vgs" ∧ l = line) ∧
  (∀ upd s c l,
      (_reloadlvs_line line upd s).1 = Raise (InvalidOutputLine c l)
      ↔ length (line_fields line) ≠ 8%nat ∧ c = "lvs" ∧ l = line) ∧
  (∀ lines upd s c l,
      (for_ lines _reloadpvs_line upd s).1 = Raise (InvalidOutputLine c l)
      ↔ c = "pvs" ∧ first_bad 11 lines = Some l) ∧
  (∀ lines acc s c l,
      (for_ lines _reloadvgs_line acc s).1 = Raise (InvalidOutputLine c l)
      ↔ c = "vgs" ∧ first_bad 14 lines = Some l) ∧
  (∀ lines upd s c l,
      (for_ lines _reloadlvs_line upd s).1 = Raise (InvalidOutputLine c l)
      → c = "lvs" ∧ l ∈ lines ∧ length (line_fields l) ≠ 8%nat).
Proof.
  split; [done|]. split; [done|].
  split.
  { intros upd s c l.
    destruct (decide (length (line_fields line) = PV_FIELDS_LEN)) as [Hlen|Hlen].
    - destruct (reloadpvs_line_good line upd s Hlen) as (pv & _ & _ & ->).
      split; [by case_bool_decide|]. by intros [? _].
    - rewrite reloadpvs_line_bad by done. simpl. split.
      + by intros [= <- <-].
      + by intros (_ & -> & ->). }
  split.
  { intros acc s c l.
    destruct (decide (length (line_fields line) = VG_FIELDS_LEN)) as [Hlen|Hlen].
    - rewrite reloadvgs_line_good by done. split; [done|]. by intros [? _].
    - rewrite reloadvgs_line_bad by done. simpl. split.
      + by intros [= <- <-].
      + by intros (_ & -> & ->). }
  split.
  { intros upd s c l.
    destruct (decide (length (line_fields line) = LV_FIELDS_LEN)) as [Hlen|Hlen].
    - split; [|by intros [? _]].
      destruct (_reloadlvs_line line upd s) as [r s'] eqn:E. simpl. intros ->.
      by apply reloadlvs_line_good in E.
    - rewrite reloadlvs_line_bad by done. simpl. split.
      + by intros [= <- <-].
      + by intros (_ & -> & ->). }
  split.
  { intros lines upd s c l. pose proof (for_first_bad_pvs lines upd s) as H.
    change 11%nat with PV_FIELDS_LEN.
    destruct (first_bad PV_FIELDS_LEN lines) as [l'|].
    - destruct H as [s' ->]. simpl. split.
      + by intros [= <- <-].
      + by intros [-> [= ->]].
    - destruct H as (upd' & s' & ->). simpl. split; [done|]. by intros [_ ?]. }
  split.
  { intros lines acc s c l. pose proof (for_first_bad_vgs lines acc s) as H.
    change 14%nat with VG_FIELDS_LEN.
    destruct (first_bad VG_FIELDS_LEN lines) as [l'|].
    - rewrite H. simpl. split.
      + by intros [= <- <-].
      + by intros [-> [= ->]].
    - destruct H as (acc' & ->). simpl. split; [done|]. by intros [_ ?]. }
  intros lines upd s c l H.
  destruct (for_ lines _reloadlvs_line upd s) as [r s'] eqn:E. simpl in H. subst r.
  by apply for_invalid_lvs in E.
Qed.

(** ** Reload bookkeeping *)

Lemma lookup_foldl_delete {K A} `{Countable K} (l : list K) (m : gmap K A) k :
  foldl (λ m k, delete k m) m l !! k = if bool_decide (k ∈ l) then None else m !! k.
Proof.
  revert m. induction l as [|x l IH]; intros m; cbn [foldl].
  { rewrite bool_decide_false; [done|apply not_elem_of_nil]. }
  rewrite IH. destruct (decide (k = x)) as [->|Hne].
  - rewrite (bool_decide_true (x ∈ x :: l)) by left.
    rewrite lookup_delete_eq. by case_bool_decide.
  - rewrite lookup_delete_ne by done.
    assert (bool_decide (k ∈ x :: l) = bool_decide (k ∈ l)) as ->; [|done].
    apply bool_decide_ext. rewrite elem_of_cons. intuition congruence.
Qed.

Lemma lookup_remove_stale {K R} `{Countable K} (scope : list K)
    (updated m : gmap K (entry R)) k :
  remove_stale scope updated m !! k =
    if bool_decide (k ∈ scope ∧ updated !! k = None) then None else m !! k.
Proof.
  unfold remove_stale. rewrite lookup_foldl_delete.
  assert (bool_decide (k ∈ filter (λ k, updated !! k = None) scope)
          = bool_decide (k ∈ scope ∧ updated !! k = None)) as ->; [|done].
  apply bool_decide_ext. rewrite list_elem_of_filter. tauto.
Qed.

Lemma unreadable_slot_idemp {R} (name_of : R → string) o :
  unreadable_slot name_of (unreadable_slot name_of o) = unreadable_slot name_of o.
Proof. by destruct o as [[]|]. Qed.

Lemma lookup_mark_unreadable {K R} `{Countable K} (name_of : R → string)
    (scope : list K) (m : gmap K (entry R)) k :
  (mark_unreadable name_of scope m).1 !! k =
    if bool_decide (k ∈ scope) then unreadable_slot name_of (m !! k) else m !! k.
Proof.
  unfold mark_unreadable. generalize (∅ : gmap K (entry R)) as u.
  revert m. induction scope as [|x scope IH]; intros m u; cbn [foldl].
  { rewrite bool_decide_false; [done|apply not_elem_of_nil]. }
  destruct (mark_unreadable_step name_of (m, u) x) as [m1 u1] eqn:Eacc.
  unfold mark_unreadable_step in Eacc.
  rewrite IH.
  assert (m1 !! k = if decide (k = x) then unreadable_slot name_of (m !! k) else m !! k) as Hm1.
  { destruct (decide (k = x)) as [->|Hne].
    - destruct (m !! x) as [e|] eqn:Ex; [destruct (is_stale e) eqn:Es|];
        injection Eacc as <- <-; simpl; rewrite ?Es, ?lookup_insert_eq; done.
    - destruct (m !! x) as [e|] eqn:Ex; [destruct (is_stale e) eqn:Es|];
        injection Eacc as <- <-; rewrite ?lookup_insert_ne by done; done. }
  rewrite Hm1. destruct (decide (k = x)) as [->|Hne].
  - rewrite (bool_decide_true (x ∈ x :: scope)) by left.
    case_bool_decide; [apply unreadable_slot_idemp|done].
  - assert (bool_decide (k ∈ x :: scope) = bool_decide (k ∈ scope)) as ->; [|done].
    apply bool_decide_ext. rewrite elem_of_cons. intuition congruence.
Qed.

Lemma lookup_mark_unreadable_updated {K R} `{Countable K} (name_of : R → string)
    (scope : list K) (m : gmap K (entry R)) k :
  (mark_unreadable name_of scope m).2 !! k =
    if bool_decide (k ∈ scope) then
      match m !! k with
      | Some e => if is_stale e then Some (Unreadable (entry_name name_of e)) else None
      | None => None
      end
    else None.
Proof.
  unfold mark_unreadable.
  assert (∀ (m u : gmap K (entry R)) k,
    (foldl (mark_unreadable_step name_of) (m, u) scope).2 !! k =
    if bool_decide (k ∈ scope) then
      match m !! k with
      | Some e => if is_stale e then Some (Unreadable (entry_name name_of e)) else u !! k
      | None => u !! k
      end
    else u !! k) as Hgen.
  { clear m k. induction scope as [|x scope IH]; intros m u k; cbn [foldl].
    { rewrite bool_decide_false; [done|apply not_elem_of_nil]. }
    destruct (mark_unreadable_step name_of (m, u) x) as [m1 u1] eqn:Eacc.
    unfold mark_unreadable_step in Eacc.
    rewrite IH. destruct (decide (k = x)) as [->|Hne].
    - rewrite (bool_decide_true (x ∈ x :: scope)) by left.
      destruct (m !! x) as [e|] eqn:Ex.
      + destruct (is_stale e) eqn:Es; injection Eacc as <- <-.
        * rewrite !lookup_insert_eq. simpl. by case_bool_decide.
        * rewrite Ex, Es. by case_bool_decide.
      + injection Eacc as <- <-. rewrite Ex. by case_bool_decide.
    - assert (bool_decide (k ∈ x :: scope) = bool_decide (k ∈ scope)) as ->.
      { apply bool_decide_ext. rewrite elem_of_cons. intuition congruence. }
      destruct (m !! x) as [e|] eqn:Ex.
      + destruct (is_stale e) eqn:Es; injection Eacc as <- <-; [|done].
        by rewrite !lookup_insert_ne by done.
      + by injection Eacc as <- <-. }
  rewrite Hgen. rewrite lookup_empty. case_bool_decide; [|done].
  by destruct (m !! k) as [e|]; [destruct (is_stale e)|].
Qed.

Lemma set_pvs_id c : set_pvs (_stalepv c) (_pvs c) c = c.
Proof. by destruct c. Qed.

Lemma Sys_eta s : mkSys (cache s) (world s) = s.
Proof. by destruct s. Qed.

(** The loop over the lines of pvs only adds fresh records, each under its
    own name, to the cache and to the result alike; nothing else changes,
    also when a later line raises. *)
Lemma for_pvs_delta lines upd s res s' :
  for_ lines _reloadpvs_line upd s = (res, s') →
  ∃ d : gmap string (entry PV.t),
    s' = mkSys (set_pvs (_stalepv (cache s)) (d ∪ _pvs (cache s)) (cache s)) (world s) ∧
    (∀ upd', res = Ok upd' → upd' = d ∪ upd) ∧
    (∀ k e, d !! k = Some e → ∃ pv, e = Fresh pv ∧ PV.name pv = k ∧ k ≠ UNKNOWN).
Proof.
  revert upd s. induction lines as [|line lines IH]; intros upd s; simpl.
  { intros [= <- <-]. exists ∅. rewrite !(left_id_L ∅ (∪)), set_pvs_id, Sys_eta.
    split; [done|]. split; [by intros ? [= <-]|]. intros k e. by rewrite lookup_empty. }
  destruct (decide (length (line_fields line) = PV_FIELDS_LEN)) as [Hlen|Hlen].
  - destruct (reloadpvs_line_good line upd s Hlen) as (pv & _ & _ & Heq).
    case_bool_decide as Hu.
    + erewrite bind_Ok by exact Heq. apply IH.
    + erewrite bind_Ok by exact Heq. intros H.
      apply IH in H as (d & -> & Hupd & Hd). simpl.
      exists (d ∪ {[ PV.name pv := Fresh pv ]}).
      split; [|split].
      * by rewrite (insert_union_singleton_l (_pvs _)), (assoc_L (∪)).
      * intros upd' ->%Hupd. by rewrite (insert_union_singleton_l upd), (assoc_L (∪)).
      * intros k e. rewrite lookup_union_Some_raw. intros [Hk|[_ Hk]]; [by apply Hd|].
        apply lookup_singleton_Some in Hk as [<- <-]. by exists pv.
  - erewrite bind_Raise by (by apply reloadpvs_line_bad).
    intros [= <- <-]. exists ∅. rewrite !(left_id_L ∅ (∪)), set_pvs_id, Sys_eta.
    split; [done|]. split; [done|]. intros k e. by rewrite lookup_empty.
Qed.

Lemma for_ext {A B} (l : list A) (body body' : A → B → M B) acc s :
  (∀ x acc s, x ∈ l → body x acc s = body' x acc s) →
  for_ l body acc s = for_ l body' acc s.
Proof.
  revert acc s. induction l as [|x l IH]; intros acc s Hb; [done|]. simpl.
  unfold mbind, M_bind. rewrite Hb by left.
  destruct (body' x acc s) as [[acc'|e] s1]; [|done].
  apply IH. intros. apply Hb. by right.
Qed.

(** Dropping the lines on which the body does nothing does not change a
    loop. *)
Lemma for_skip {A B} (l : list A) (body : A → B → M B) (skip : A → bool) acc s :
  (∀ x acc s, skip x = true → body x acc s = (Ok acc, s)) →
  for_ l body acc s = for_ (filter (λ x, skip x = false) l) body acc s.
Proof.
  intros Hskip. revert acc s. induction l as [|x l IH]; intros acc s; [done|].
  destruct (skip x) eqn:E.
  - rewrite filter_cons_False by (rewrite E; done). simpl.
    erewrite bind_Ok by (by apply Hskip). apply IH.
  - rewrite filter_cons_True by done. simpl. unfold mbind, M_bind.
    destruct (body x acc s) as [[acc'|e] s1]; [apply IH|done].
Qed.

Lemma reloadpvs_line_unknown line upd s :
  unknown_pv_row line = true → _reloadpvs_line line upd s = (Ok upd, s).
Proof.
  unfold unknown_pv_row. intros [Hlen Hname]%bool_decide_eq_true.
  destruct (reloadpvs_line_good line upd s Hlen) as (pv & _ & Hn & ->).
  by rewrite bool_decide_true by congruence.
Qed.

Lemma reloadvgs_line_unknown line acc s :
  unknown_vg_row line = true → _reloadvgs_line line acc s = (Ok acc, s).
Proof.
  unfold unknown_vg_row. intros [Hlen Hname]%bool_decide_eq_true.
  rewrite reloadvgs_line_good by done. by rewrite bool_decide_true.
Qed.

Lemma reloadpvs_locked_skip pvName r s :
  _reloadpvs_locked pvName r s = _reloadpvs_locked pvName (drop_lines unknown_pv_row r) s.
Proof.
  unfold _reloadpvs_locked, drop_lines. simpl. destruct (negb (rc r =? 0)); [done|].
  unfold mbind at 1 3, M_bind.
  by rewrite (for_skip (out r) _ unknown_pv_row) by apply reloadpvs_line_unknown.
Qed.

Lemma reloadvgs_locked_skip vgName r s :
  _reloadvgs_locked vgName r s = _reloadvgs_locked vgName (drop_lines unknown_vg_row r) s.
Proof.
  unfold _reloadvgs_locked, drop_lines. simpl.
  apply bind_ext. intros [] s1. apply bind_cong.
  by rewrite (for_skip (out r) _ unknown_vg_row) by apply reloadvgs_line_unknown.
Qed.

(** A successful pvs reload: the parsed records [d] are the result, and
    the cache holds them and has lost the names in scope that were not
    reported. *)
Lemma reloadpvs_locked_ok pvName r s :
  rc r = 0 → first_bad PV_FIELDS_LEN (out r) = None →
  ∃ d : gmap string (entry PV.t),
    _reloadpvs_locked pvName r s =
      (Ok d,
       mkSys (set_pvs (if truthy pvName then _stalepv (cache s) else false)
                (remove_stale
                   (if bool_decide (normalize_args pvName ≠ [])
                    then normalize_args pvName else keys (d ∪ _pvs (cache s)))
                   d (d ∪ _pvs (cache s)))
                (cache s)) (world s)) ∧
    (∀ k e, d !! k = Some e → ∃ pv, e = Fresh pv ∧ PV.name pv = k ∧ k ≠ UNKNOWN).
Proof.
  intros Hrc Hbad. unfold _reloadpvs_locked. rewrite Hrc. simpl.
  pose proof (for_first_bad_pvs (out r) ∅ s) as H. rewrite Hbad in H.
  destruct H as (upd' & s' & Hfor).
  destruct (for_pvs_delta _ _ _ _ _ Hfor) as (d & -> & Hupd & Hd).
  rewrite (Hupd upd' eq_refl), (right_id_L ∅ (∪)) in Hfor.
  exists d. split; [|done].
  erewrite bind_Ok by exact Hfor. munfold. simpl. by destruct (cache s).
Qed.

Lemma set_vgs_id c : set_vgs (_stalevg c) (_freshlv c) (_vgs c) c = c.
Proof. by destruct c. Qed.

Lemma VG_fromlvm_pv_name fields pv_names vg :
  VG.fromlvm fields pv_names = Ok vg → VG.pv_name vg = pv_names.
Proof.
  unfold VG.fromlvm.
  do 15 (destruct fields as [|? fields]; try discriminate).
  destruct (VG.attr_of _); [|discriminate]. by intros [= <-].
Qed.

Lemma reloadvgs_group_eq u fields pv_names upd s :
  _reloadvgs_group (u, (fields, pv_names)) upd s =
    match VG.fromlvm fields pv_names with
    | Ok vg =>
        match Py.int (VG.pv_count vg) with
        | Some _ =>
            (Ok (<[VG.name vg := Fresh vg]> upd),
             mkSys (set_vgs (_stalevg (cache s)) (_freshlv (cache s))
                      (<[VG.name vg := Fresh vg]> (_vgs (cache s))) (cache s))
               (world s))
        | None => (Raise ValueError, s)
        end
    | Raise e => (Raise e, s)
    end.
Proof.
  unfold _reloadvgs_group, int. munfold.
  destruct (VG.fromlvm fields pv_names) as [vg|e]; [|done].
  by destruct (Py.int (VG.pv_count vg)).
Qed.

(** The second loop of the vgs reload adds one fresh record per group,
    under its own name, to the cache and to the result alike. *)
Lemma for_vgs_delta groups upd s res s' :
  for_ groups _reloadvgs_group upd s = (res, s') →
  ∃ d : gmap string (entry VG.t),
    s' = mkSys (set_vgs (_stalevg (cache s)) (_freshlv (cache s))
                  (d ∪ _vgs (cache s)) (cache s)) (world s) ∧
    (∀ upd', res = Ok upd' → upd' = d ∪ upd) ∧
    (∀ k e, d !! k = Some e →
       ∃ vg g, e = Fresh vg ∧ VG.name vg = k ∧ g ∈ groups ∧
               VG.fromlvm g.2.1 g.2.2 = Ok vg).
Proof.
  revert upd s. induction groups as [|g groups IH]; intros upd s; simpl.
  { intros [= <- <-]. exists ∅. rewrite !(left_id_L ∅ (∪)), set_vgs_id, Sys_eta.
    split; [done|]. split; [by intros ? [= <-]|]. intros k e. by rewrite lookup_empty. }
  assert (∀ e : exn, ∃ d : gmap string (entry VG.t),
    s = mkSys (set_vgs (_stalevg (cache s)) (_freshlv (cache s))
                 (d ∪ _vgs (cache s)) (cache s)) (world s) ∧
    (∀ upd', Raise e = Ok upd' → upd' = d ∪ upd) ∧
    (∀ k e, d !! k = Some e →
       ∃ vg g', e = Fresh vg ∧ VG.name vg = k ∧ g' ∈ g :: groups ∧
               VG.fromlvm g'.2.1 g'.2.2 = Ok vg)) as Hraise.
  { intros e. exists ∅. rewrite !(left_id_L ∅ (∪)), set_vgs_id, Sys_eta.
    split; [done|]. split; [done|]. intros k e'. by rewrite lookup_empty. }
  destruct g as [u [fields pv_names]]. unfold mbind, M_bind.
  rewrite reloadvgs_group_eq.
  destruct (VG.fromlvm fields pv_names) as [vg|e] eqn:Evg.
  2:{ intros [= <- <-]. apply Hraise. }
  destruct (Py.int (VG.pv_count vg)) as [n|].
  2:{ intros [= <- <-]. apply Hraise. }
  intros H. apply IH in H as (d & -> & Hupd & Hd). simpl.
  exists (d ∪ {[ VG.name vg := Fresh vg ]}).
  split; [|split].
  - by rewrite (insert_union_singleton_l (_vgs _)), (assoc_L (∪)).
  - intros upd' ->%Hupd. by rewrite (insert_union_singleton_l upd), (assoc_L (∪)).
  - intros k e. rewrite lookup_union_Some_raw. intros [Hk|[_ Hk]].
    + apply Hd in Hk as (vg' & g' & ? & ? & ? & ?). exists vg', g'.
      repeat split; try done. by right.
    + apply lookup_singleton_Some in Hk as [<- <-].
      exists vg, (u, (fields, pv_names)). repeat split; try done. left.
Qed.

Lemma vgsFields_add_unknown uuid fields pv_name (vgsFields : vgsFields_t) :
  pv_name ≠ UNKNOWN →
  Forall (λ g, UNKNOWN ∉ g.2.2) vgsFields →
  Forall (λ g, UNKNOWN ∉ g.2.2) (vgsFields_add uuid fields pv_name vgsFields).
Proof.
  intros Hne. induction 1 as [|[u [f pvs]] rest Hg Hrest IH]; simpl.
  - constructor; [|done]. simpl. intros ?%list_elem_of_singleton. congruence.
  - case_bool_decide; constructor; try done. simpl in *.
    rewrite elem_of_app, list_elem_of_singleton. intros [?|?]; [done|congruence].
Qed.

Lemma for_vgs_lines_unknown lines acc s acc' s' :
  for_ lines _reloadvgs_line acc s = (Ok acc', s') →
  Forall (λ g, UNKNOWN ∉ g.2.2) acc → Forall (λ g, UNKNOWN ∉ g.2.2) acc'.
Proof.
  revert acc. induction lines as [|line lines IH]; intros acc; simpl.
  { by intros [= <- _]. }
  destruct (decide (length (line_fields line) = VG_FIELDS_LEN)) as [Hlen|Hlen].
  - erewrite bind_Ok by (by apply reloadvgs_line_good). intros H Hacc.
    apply IH in H; [done|]. case_bool_decide; [done|].
    by apply vgsFields_add_unknown.
  - by erewrite bind_Raise by (by apply reloadvgs_line_bad).
Qed.

(** The vgs reload, whatever the return code: what it returns on success
    are fresh records none of which lists the [UNKNOWN] marker among its
    PVs. *)
Lemma reloadvgs_locked_unknown vgName r s updatedVGs s' :
  _reloadvgs_locked vgName r s = (Ok updatedVGs, s') →
  ∀ k e, updatedVGs !! k = Some e →
    ∃ vg, e = Fresh vg ∧ VG.name vg = k ∧ UNKNOWN ∉ VG.pv_name vg.
Proof.
  unfold _reloadvgs_locked. intros H.
  apply bind_inv_Ok in H as ([] & s1 & H1 & H).
  clear H1.
  apply bind_inv_Ok in H as (groups & s2 & Hlines & H).
  apply bind_inv_Ok in H as (upd & s3 & Hgroups & H).
  apply for_vgs_lines_unknown in Hlines; [|constructor].
  apply for_vgs_delta in Hgroups as (d & -> & Hupd & Hd).
  specialize (Hupd upd eq_refl). rewrite (right_id_L ∅ (∪)) in Hupd. subst upd.
  munfold. injection H as <- _. intros k e Hk.
  apply Hd in Hk as (vg & g & -> & Hname & Hg & Hvg). exists vg.
  repeat split; try done. apply VG_fromlvm_pv_name in Hvg as ->.
  by eapply Forall_forall in Hlines.
Qed.

(** C8. Rows carrying the [UNKNOWN] marker are skipped. For pvs and for vgs
    the reload of an output equals the reload of the same output without
    those rows. A successful pvs reload (return code 0, every line with its
    eleven fields) raises nothing, returns no entry under the marker and no
    record named so, creates no such slot in the PV map (an unscoped reload
    leaves none at all), and a vgs reload never lists the marker among the
    PVs of a VG. *)
Theorem unknown_rows_skipped (pvName vgName : names) (r : RunResult) (s : Sys) :
  _reloadpvs pvName = (cmd (PVS_CMD ++ normalize_args pvName) [] ≫= _reloadpvs_locked pvName) ∧
  _reloadpvs_locked pvName r s = _reloadpvs_locked pvName (drop_lines unknown_pv_row r) s ∧
  _reloadvgs_locked vgName r s = _reloadvgs_locked vgName (drop_lines unknown_vg_row r) s ∧
  (rc r = 0 → first_bad PV_FIELDS_LEN (out r) = None →
   ∃ updatedPVs s',
     _reloadpvs_locked pvName r s = (Ok updatedPVs, s') ∧
     updatedPVs !! UNKNOWN = None ∧
     (∀ k pv, updatedPVs !! k = Some (Fresh pv) → PV.name pv ≠ UNKNOWN) ∧
     (_pvs (cache s) !! UNKNOWN = None ∨ normalize_args pvName = [] →
      _pvs (cache s') !! UNKNOWN = None) ∧
     (∀ k pv, _pvs (cache s') !! k = Some (Fresh pv) → PV.name pv = UNKNOWN →
              _pvs (cache s) !! k = Some (Fresh pv))) ∧
  (∀ updatedVGs s',
     _reloadvgs_locked vgName r s = (Ok updatedVGs, s') →
     ∀ k e, updatedVGs !! k = Some e →
       ∃ vg, e = Fresh vg ∧ VG.name vg = k ∧ UNKNOWN ∉ VG.pv_name vg).
Proof.
  split; [done|]. split; [apply reloadpvs_locked_skip|].
  split; [apply reloadvgs_locked_skip|]. split.
  - intros Hrc Hbad.
    destruct (reloadpvs_locked_ok pvName r s Hrc Hbad) as (d & -> & Hd).
    eexists _, _. split; [done|]. simpl.
    assert (d !! UNKNOWN = None) as HdU.
    { destruct (d !! UNKNOWN) as [e|] eqn:E; [|done].
      by apply Hd in E as (? & _ & _ & ?). }
    split; [done|]. split.
    { intros k pv Hk. apply Hd in Hk as (pv' & Hpv & Hn & Hu). congruence. }
    split.
    + rewrite lookup_remove_stale. intros Hor. case_bool_decide as Hc; [done|].
      rewrite lookup_union_r by done. destruct Hor as [?|Hn]; [done|].
      rewrite Hn in Hc. rewrite bool_decide_false in Hc by (by intros ?).
      destruct ((d ∪ _pvs (cache s)) !! UNKNOWN) as [e|] eqn:E.
      * exfalso. apply Hc. split; [|done]. unfold keys.
        apply list_elem_of_fmap. exists (UNKNOWN, e). split; [done|].
        by apply elem_of_map_to_list.
      * by rewrite lookup_union_r in E.
    + intros k pv. rewrite lookup_remove_stale. case_bool_decide; [done|].
      intros Hk Hname. apply lookup_union_Some_raw in Hk as [Hk|[_ Hk]]; [|done].
      apply Hd in Hk as (pv' & Hpv & Hn & Hu). congruence.
  - apply reloadvgs_locked_unknown.
Qed.

(** ** Scenario S1: two rows of one VG *)

Lemma reloadvgs_lines_S1 s :
  for_ [vg0_row "/dev/mapper/pv0"; vg0_row "/dev/mapper/pv1"] _reloadvgs_line [] s
  = (Ok [("uuid-1", (line_fields (vg0_row "/dev/mapper/pv0"),
                     ["/dev/mapper/pv0"; "/dev/mapper/pv1"]))], s).
Proof.
  simpl. erewrite bind_Ok by (by apply reloadvgs_line_good).
  erewrite bind_Ok by (by apply reloadvgs_line_good). reflexivity.
Qed.

Lemma reloadvgs_failed_eq vgNames r s :
  ∃ m, _reloadvgs_failed vgNames r s =
         (Ok tt, mkSys (set_vgs (_stalevg (cache s)) (_freshlv (cache s)) m (cache s))
                   (world s)).
Proof.
  unfold _reloadvgs_failed. destruct (negb (rc r =? 0)); munfold.
  - by eexists.
  - exists (_vgs (cache s)). by rewrite set_vgs_id, Sys_eta.
Qed.

Lemma reloadvgs_locked_S1 vgName r s :
  out r = [vg0_row "/dev/mapper/pv0"; vg0_row "/dev/mapper/pv1"] →
  ∃ s', _reloadvgs_locked vgName r s = (Ok {[ "vg0" := Fresh vg0_record ]}, s') ∧
        _vgs (cache s') !! "vg0" = Some (Fresh vg0_record) ∧
        world s' = world s ∧ _pvs (cache s') = _pvs (cache s) ∧
        _lvs (cache s') = _lvs (cache s).
Proof.
  intros Hout. unfold _reloadvgs_locked. rewrite Hout.
  destruct (reloadvgs_failed_eq (normalize_args vgName) r s) as (m & E1).
  erewrite bind_Ok by exact E1.
  erewrite bind_Ok by apply reloadvgs_lines_S1.
  erewrite bind_Ok.
  2:{ cbn [for_]. erewrite bind_Ok; [reflexivity|]. rewrite reloadvgs_group_eq.
      reflexivity. }
  munfold. simpl. eexists. split; [reflexivity|]. simpl.
  split; [|done].
  rewrite lookup_remove_stale. rewrite bool_decide_false; [apply lookup_insert_eq|].
  intros [_ H]. by rewrite lookup_insert_eq in H.
Qed.

(** C6. Whenever the vgs command of a reload answers with the two rows of
    scenario S1 (same uuid, PVs pv0 and pv1), the reload returns exactly
    one VG record, stored in the cache under "vg0": writeable since the
    permission bit is w, partial state OK since the partial bit is a dash,
    the tags split at the comma, both PV names in order of appearance and
    the extent size 134217728. *)
Theorem reloadvgs_groups_rows_by_uuid (vgName : names) (s s1 : Sys) (r : RunResult) :
  (_getVGDevs (normalize_args vgName) ≫= cmd (VGS_CMD ++ normalize_args vgName)) s
    = (Ok r, s1) →
  out r = [vg0_row "/dev/mapper/pv0"; vg0_row "/dev/mapper/pv1"] →
  ∃ vg s',
    _reloadvgs vgName s = (Ok {[ "vg0" := Fresh vg ]}, s') ∧
    _vgs (cache s') !! "vg0" = Some (Fresh vg) ∧
    VG.uuid vg = "uuid-1" ∧ VG.name vg = "vg0" ∧
    VG.writeable vg = true ∧ VG.permission (VG.attr vg) = "w"%char ∧
    VG.partial_state vg = "OK" ∧ VG.partial (VG.attr vg) = "-"%char ∧
    VG.tags vg = ["tag1"; "tag2"] ∧
    VG.pv_name vg = ["/dev/mapper/pv0"; "/dev/mapper/pv1"] ∧
    VG.extent_size vg = "134217728" ∧ Py.int (VG.extent_size vg) = Some 134217728.
Proof.
  intros Hcmd Hout.
  destruct (reloadvgs_locked_S1 vgName r s1 Hout) as (s' & Hre & Hvg & _).
  exists vg0_record, s'. split.
  { unfold _reloadvgs. apply bind_inv_Ok in Hcmd as (devs & s0 & Hd & Hc).
    erewrite bind_Ok by exact Hd. erewrite bind_Ok by exact Hc. exact Hre. }
  split; [exact Hvg|]. by vm_compute.
Qed.

Lemma reloadvgs_groups_rows_by_uuid_witness :
  ∃ vg s',
    _reloadvgs NoNames S1_sys = (Ok {[ "vg0" := Fresh vg ]}, s') ∧
    _vgs (cache s') !! "vg0" = Some (Fresh vg) ∧
    VG.uuid vg = "uuid-1" ∧ VG.name vg = "vg0" ∧
    VG.writeable vg = true ∧ VG.permission (VG.attr vg) = "w"%char ∧
    VG.partial_state vg = "OK" ∧ VG.partial (VG.attr vg) = "-"%char ∧
    VG.tags vg = ["tag1"; "tag2"] ∧
    VG.pv_name vg = ["/dev/mapper/pv0"; "/dev/mapper/pv1"] ∧
    VG.extent_size vg = "134217728" ∧ Py.int (VG.extent_size vg) = Some 134217728.
Proof.
  eapply (reloadvgs_groups_rows_by_uuid NoNames S1_sys).
  - vm_compute. reflexivity.
  - reflexivity.
Defined.

(** ** The command path *)

Lemma retry_delays_backoff : retry_delays = backoff_delays READ_ONLY_RETRIES RETRY_DELAY.
Proof. reflexivity. Qed.

Lemma cmd_retry_eq retries delay full_cmd r s :
  cmd_retry retries delay full_cmd r s =
    let '(r', w') :=
      run_attempts ((λ d, (Some d, full_cmd)) <$> backoff_delays (length retries) delay)
        r (world s) in
    (Ok r', mkSys (cache s) w').
Proof.
  revert delay r s. induction retries as [|retry retries IH]; intros delay r s.
  { simpl. munfold. by rewrite Sys_eta. }
  cbn [cmd_retry length backoff_delays fmap list_fmap run_attempts].
  unfold mbind, M_bind, sleep, run. cbn [cache world].
  destruct (rc (runner _ _ full_cmd) =? 0) eqn:Erc.
  - by munfold.
  - rewrite IH. done.
Qed.

Lemma addExtraCfg_eq cmd0 cmd_rest devices s :
  _addExtraCfg (cmd0 :: cmd_rest) devices s =
    let c := cache s in
    let w := world s in
    if bool_decide (devices ≠ []) then
      (Ok (with_config (EXT_LVM w) cmd0 cmd_rest
             (_buildFilter (USER_DEV_LIST w) devices) (_read_only c)), s)
    else if _filterStale c then
      let f := _buildFilter (USER_DEV_LIST w) (getMPDevNamesIter w (enumerations w)) in
      (Ok (with_config (EXT_LVM w) cmd0 cmd_rest f (_read_only c)),
       mkSys (set_filter (Some f) false c) (enumerate_in w))
    else
      (Ok (with_config (EXT_LVM w) cmd0 cmd_rest (filter_text (_filter c)) (_read_only c)), s).
Proof.
  unfold _addExtraCfg, _getCachedFilter, enumerate_mp. munfold. cbn [cache world].
  case_bool_decide; [done|].
  by destruct (_filterStale (cache s)) eqn:E.
Qed.

(** The code of [cmd] runs the ladder of the specification. *)
Lemma cmd_ladder argv devices s : cmd argv devices s = ladder argv devices s.
Proof.
  unfold cmd, ladder. unfold mbind at 1, M_bind at 1.
  destruct (_addExtraCfg argv devices s) as [[full_cmd|e] s1]; [|done].
  unfold mbind at 1, M_bind at 1, run at 1. cbn [cache world].
  destruct (rc (runner (world s1) (spawned (world s1)) full_cmd) =? 0) eqn:E1; [done|].
  unfold mbind at 1, M_bind at 1, invalidateFilter, modify. cbn [cache world].
  unfold mbind at 1, M_bind at 1.
  destruct (_addExtraCfg argv [] _) as [[wider_cmd|e] s2]; [|done].
  case_bool_decide as Hw.
  - unfold mbind, M_bind, run, mret, M_ret, gets. cbn [cache world run_attempts app].
    destruct (rc (runner (world s2) (spawned (world s2)) wider_cmd) =? 0) eqn:E2; [done|].
    cbn [negb andb cache world]. destruct (_read_only (cache s2)).
    + rewrite cmd_retry_eq. done.
    + done.
  - unfold mbind, M_bind, mret, M_ret, gets. cbn [cache world app].
    rewrite E1. cbn [negb andb cache world]. destruct (_read_only (cache s2)).
    + by rewrite cmd_retry_eq.
    + cbn. by rewrite Sys_eta.
Qed.

(** Attempts leave the host as it is, and spawn commands among those
    they were given, at least one if there is any. *)
Lemma run_attempts_frame attempts r w :
  let w' := (run_attempts attempts r w).2 in
  runner w' = runner w ∧ getMPDevNamesIter w' = getMPDevNamesIter w ∧
  lvm_dev_whitelist w' = lvm_dev_whitelist w ∧ EXT_LVM w' = EXT_LVM w ∧
  enumerations w' = enumerations w ∧
  ∃ cmds, spawned w' = spawned w ++ cmds ∧ Forall (λ c, c ∈ attempts.*2) cmds ∧
          (attempts ≠ [] → cmds ≠ []).
Proof.
  revert r w. induction attempts as [|[delay full_cmd] attempts IH]; intros r w.
  { cbn. repeat split; try done. exists []. by rewrite (right_id_L [] (++)). }
  cbn [run_attempts].
  set (w1 := match delay with Some d => sleep_in d w | None => w end).
  assert (runner w1 = runner w ∧ getMPDevNamesIter w1 = getMPDevNamesIter w ∧
          lvm_dev_whitelist w1 = lvm_dev_whitelist w ∧ EXT_LVM w1 = EXT_LVM w ∧
          enumerations w1 = enumerations w ∧ spawned w1 = spawned w)
    as (H1 & H2 & H3 & H4 & H5 & H6) by (subst w1; by destruct delay).
  destruct (rc _ =? 0).
  - cbn. rewrite H1, H2, H3, H4, H5, H6. repeat split; try done.
    exists [full_cmd]. split; [done|]. split; [|done].
    constructor; [left|constructor].
  - specialize (IH (runner w1 (spawned w1) full_cmd) (spawn_in full_cmd w1)).
    cbn zeta in IH. destruct IH as (I1 & I2 & I3 & I4 & I5 & cmds & I6 & I7 & _).
    cbn zeta. rewrite I1, I2, I3, I4, I5, I6. cbn. rewrite H1, H2, H3, H4, H5, H6.
    repeat split; try done. exists (full_cmd :: cmds).
    split; [by rewrite <- (assoc_L (++))|]. split; [|done].
    constructor; [left|]. eapply Forall_impl; [exact I7|]. intros c Hc. by right.
Qed.

(** With a runner that fails until its [N]-th invocation, [k] of which have
    been made and have failed, a list of attempts stops at the [N]-th. *)
Lemma run_attempts_fails_until N k attempts r w :
  (k < N)%nat →
  (∀ history full_cmd,
     rc (runner w (spawned w ++ history) full_cmd) = 0
     ↔ (N ≤ S (k + length history))%nat) →
  let '(r', w') := run_attempts attempts r w in
  spawned w' = spawned w ++ take (N - k) attempts.*2 ∧
  slept w' = slept w ++ omap fst (take (N - k) attempts) ∧
  enumerations w' = enumerations w ∧
  (attempts ≠ [] → (rc r' = 0 ↔ (N ≤ k + length attempts)%nat)) ∧
  (attempts = [] → r' = r).
Proof.
  revert k r w. induction attempts as [|[delay full_cmd] attempts IH]; intros k r w Hk Hw.
  { cbn. rewrite !take_nil. cbn. rewrite !(right_id_L [] (++)). done. }
  cbn [run_attempts].
  set (w1 := match delay with Some d => sleep_in d w | None => w end).
  assert (runner w1 = runner w ∧ spawned w1 = spawned w ∧ enumerations w1 = enumerations w
          ∧ slept w1 = slept w ++ option_list delay) as (Hr1 & Hs1 & He1 & Hl1).
  { subst w1. destruct delay; cbn; [done|]. by rewrite (right_id_L [] (++)). }
  rewrite Hr1, Hs1.
  pose proof (Hw [] full_cmd) as H0. rewrite (right_id_L [] (++)) in H0. cbn in H0.
  destruct (N - k)%nat as [|n] eqn:En; [lia|].
  destruct (rc (runner w (spawned w) full_cmd) =? 0) eqn:Erc.
  - apply Z.eqb_eq in Erc. apply H0 in Erc. assert (n = 0)%nat as -> by lia.
    cbn. rewrite ?He1, ?Hs1, ?Hl1, !take_0.
    split; [done|]. split; [by destruct delay|]. split; [done|].
    split; [|done]. intros _. split; [lia|]. intros _. apply H0. lia.
  - apply Z.eqb_neq in Erc. assert (¬ (N ≤ S (k + 0))%nat) as Hlt by (by rewrite <- H0).
    specialize (IH (S k) (runner w (spawned w) full_cmd) (spawn_in full_cmd w1)).
    destruct (run_attempts attempts _ _) as [r' w'].
    destruct IH as (IHs & IHl & IHe & IHrc & IHnil); [lia| |].
    { intros history c. cbn. rewrite Hr1, Hs1, <- (assoc_L (++)).
      rewrite Hw. cbn. lia. }
    cbn in IHs, IHl, IHe. rewrite Hs1 in IHs. rewrite Hl1 in IHl. rewrite He1 in IHe.
    replace (N - S k)%nat with n in * by lia.
    cbn. rewrite IHs, IHl, IHe, <- !(assoc_L (++)).
    split; [done|]. split; [by destruct delay|]. split; [done|].
    split; [|done]. intros _. destruct attempts as [|a attempts].
    + rewrite (IHnil eq_refl). cbn. split; [done|lia].
    + rewrite IHrc by done. cbn. lia.
Qed.

Lemma omap_fst_retries (full_cmd : list string) (ds : list Q) n :
  omap fst (take n ((λ d, (Some d, full_cmd)) <$> ds)) = take n ds.
Proof.
  revert n. induction ds as [|d ds IH]; intros [|n]; cbn; try done.
  by rewrite IH.
Qed.

Lemma omap_fst_widened (wider_cmd : list string) (l : list (option Q * list string)) n :
  omap fst (take n ((None, wider_cmd) :: l)) = omap fst (take (n - 1) l).
Proof. destruct n as [|n]; cbn; [by rewrite take_0|by rewrite Nat.sub_0_r]. Qed.

Lemma length_attempts (full_cmd : list string) (ds : list Q) :
  length ((λ d, (Some d, full_cmd)) <$> ds) = length ds.
Proof. apply length_fmap. Qed.

(** The deterministic runner through the ladder. *)
Lemma cmd_fails_until cmd0 cmd_rest devices s N :
  (1 ≤ N)%nat → fails_until N (world s) →
  ∃ r s',
    cmd (cmd0 :: cmd_rest) devices s = (Ok r, s') ∧
    (rc r = 0 ↔ (N ≤ max_tries (cmd0 :: cmd_rest) devices s)%nat) ∧
    length (spawned (world s'))
      = (length (spawned (world s)) + N `min` max_tries (cmd0 :: cmd_rest) devices s)%nat ∧
    slept (world s')
      = slept (world s)
        ++ take (N - length (filter_attempts (cmd0 :: cmd_rest) devices s))
             (if _read_only (cache s) then retry_delays else []).
Proof.
  intros HN Hfail. rewrite cmd_ladder. unfold ladder, max_tries, filter_attempts.
  destruct (_addExtraCfg (cmd0 :: cmd_rest) devices s) as [res s1] eqn:E1.
  assert (∃ full_cmd, res = Ok full_cmd ∧ runner (world s1) = runner (world s) ∧
          spawned (world s1) = spawned (world s) ∧ slept (world s1) = slept (world s) ∧
          _read_only (cache s1) = _read_only (cache s))
    as (full_cmd & -> & Hr1 & Hsp1 & Hsl1 & Hro1).
  { rewrite addExtraCfg_eq in E1. cbn zeta in E1.
    case_bool_decide; [|destruct (_filterStale (cache s))];
      injection E1 as <- <-; by eexists. }
  rewrite !addExtraCfg_eq. cbn [cache world]. cbn zeta.
  rewrite !bool_decide_false by (by intros ?).
  cbn [_filterStale set_filter _read_only _filter cache world].
  unfold USER_DEV_LIST.
  cbn [EXT_LVM spawn_in lvm_dev_whitelist getMPDevNamesIter enumerations].
  rewrite Hr1, Hsp1. unfold fails_until in Hfail.
  set (r1 := runner (world s) (spawned (world s)) full_cmd).
  set (wider_cmd := with_config _ _ _ _ _).
  pose proof (Hfail [] full_cmd) as H1. rewrite (right_id_L [] (++)) in H1.
  fold r1 in H1. cbn in H1.
  destruct (rc r1 =? 0) eqn:Erc.
  { apply Z.eqb_eq in Erc. apply H1 in Erc as HN1. assert (N = 1)%nat as -> by lia.
    eexists _, _. split; [done|]. cbn [world spawned slept spawn_in].
    rewrite Hsp1, Hsl1, length_app. cbn.
    split; [|split].
    - split; [intros _|done]. case_bool_decide; cbn; lia.
    - case_bool_decide; cbn; lia.
    - replace (1 - _)%nat with 0%nat by (case_bool_decide; cbn; lia).
      by rewrite take_0, (right_id_L [] (++)). }
  apply Z.eqb_neq in Erc. assert (2 ≤ N)%nat as HN2 by (rewrite H1 in Erc; lia).
  match goal with |- context [run_attempts ?att ?r ?w] =>
    pose proof (run_attempts_fails_until N 1 att r w) as Hrun;
    destruct (run_attempts att r w) as [r' w'] end.
  destruct Hrun as (Hs & Hl & _ & Hrc & Hnil); [lia| |].
  { intros history c. cbn. rewrite Hr1, Hsp1, <- (assoc_L (++)).
    rewrite Hfail. cbn. lia. }
  cbn [world spawned slept enumerate_in spawn_in] in Hs, Hl.
  rewrite Hsp1 in Hs. rewrite Hsl1 in Hl. rewrite Hro1 in *.
  eexists _, _. split; [done|]. cbn [world].
  rewrite Hs, Hl, !length_app, length_take, length_fmap, length_app. cbn [length].
  case_bool_decide as Hw; destruct (_read_only (cache s)); cbn [app length] in *;
    rewrite ?length_attempts in *; change (length retry_delays) with 4%nat in *;
    unfold READ_ONLY_RETRIES in *.
  - split; [rewrite Hrc by done; lia|]. split; [lia|].
    f_equal. rewrite omap_fst_widened, omap_fst_retries. f_equal. lia.
  - split; [rewrite Hrc by done; lia|]. split; [lia|].
    f_equal. by rewrite omap_fst_widened, !take_nil.
  - split; [rewrite Hrc by done; lia|]. split; [lia|].
    f_equal. rewrite omap_fst_retries. done.
  - rewrite (Hnil eq_refl). split; [split; [done|lia]|]. split; [lia|].
    by rewrite !take_nil.
Qed.

Lemma flaky_world_fails_until N mp : fails_until N (flaky_world N mp).
Proof.
  intros history full_cmd. cbn [flaky_world runner spawned app].
  destruct (S (length history) <? N)%nat eqn:E; cbn [rc].
  - apply Nat.ltb_lt in E. split; [done|lia].
  - apply Nat.ltb_ge in E. done.
Qed.

(** C1, as stated, fails: in read-only mode with unchanged multipath
    devices the widened command equals the first and is not run, so a
    runner succeeding on its sixth invocation is never called a sixth
    time. *)
Lemma literal_retry_bound_fails : ¬ literal_retry_bound.
Proof.
  intros H.
  pose (s := read_only_sys 6 (λ _, ["/dev/mapper/a"])).
  destruct (cmd ["pvs"] [] s) as [res s'] eqn:E.
  assert (res = Ok (mkRun 5 [] ["failed"])) as ->.
  { change res with (res, s').1. rewrite <- E. by vm_compute. }
  apply (H s "pvs" [] [] 6%nat) in E; [|lia|apply flaky_world_fails_until].
  cbn in E. unfold READ_ONLY_RETRIES in E. destruct E as [_ E]. by specialize (E ltac:(lia)).
Qed.

(** C1, amended. [cmd] runs the ladder: the command with the specific or
    cached filter, returning on return code 0; else the filter is marked
    stale and rebuilt by one more enumeration and the widened command is run
    once if it differs; else, in read-only mode only, up to
    [READ_ONLY_RETRIES = 4] retries after sleeping 0.1, 0.2, 0.4, 0.8 seconds
    (each delay is the previous one times [RETRY_BACKUP_OFF]), returning at
    the first return code 0 and the last result otherwise. With a runner
    failing until its [N]-th invocation, [cmd] succeeds if and only if [N] is
    at most the number of filter attempts made (one, or two when the widened
    command differs) plus, in read-only mode only, the four retries; it
    spawns [min N] of that many commands and sleeps the first delays. *)
Theorem cmd_retry_ladder (cmd0 : string) (cmd_rest devices : list string) (s : Sys) :
  cmd (cmd0 :: cmd_rest) devices s = ladder (cmd0 :: cmd_rest) devices s ∧
  (∃ r s', cmd (cmd0 :: cmd_rest) devices s = (Ok r, s')) ∧
  (∀ full_cmd s1 r s',
     _addExtraCfg (cmd0 :: cmd_rest) devices s = (Ok full_cmd, s1) →
     cmd (cmd0 :: cmd_rest) devices s = (Ok r, s') →
     if rc (runner (world s1) (spawned (world s1)) full_cmd) =? 0 then
       r = runner (world s1) (spawned (world s1)) full_cmd ∧
       s' = mkSys (cache s1) (spawn_in full_cmd (world s1))
     else
       _filterStale (cache s') = false ∧
       _filter (cache s')
         = Some (_buildFilter (USER_DEV_LIST (world s))
                   (getMPDevNamesIter (world s) (enumerations (world s1)))) ∧
       enumerations (world s') = S (enumerations (world s1))) ∧
  (READ_ONLY_RETRIES = 4%nat ∧
   retry_delays = backoff_delays READ_ONLY_RETRIES RETRY_DELAY ∧
   Forall2 Qeq retry_delays [1 # 10; 1 # 5; 2 # 5; 4 # 5]) ∧
  (1 ≤ length (filter_attempts (cmd0 :: cmd_rest) devices s) ≤ 2)%nat ∧
  (∀ N, (1 ≤ N)%nat → fails_until N (world s) →
     ∃ r s',
       cmd (cmd0 :: cmd_rest) devices s = (Ok r, s') ∧
       (rc r = 0 ↔ (N ≤ max_tries (cmd0 :: cmd_rest) devices s)%nat) ∧
       length (spawned (world s'))
         = (length (spawned (world s))
            + N `min` max_tries (cmd0 :: cmd_rest) devices s)%nat ∧
       slept (world s')
         = slept (world s)
           ++ take (N - length (filter_attempts (cmd0 :: cmd_rest) devices s))
                (if _read_only (cache s) then retry_delays else [])).
Proof.
  split; [apply cmd_ladder|].
  assert (∀ devices s, ∃ full_cmd s1,
    _addExtraCfg (cmd0 :: cmd_rest) devices s = (Ok full_cmd, s1) ∧
    lvm_dev_whitelist (world s1) = lvm_dev_whitelist (world s) ∧
    getMPDevNamesIter (world s1) = getMPDevNamesIter (world s)) as Hadd.
  { intros d s0. rewrite addExtraCfg_eq. cbn zeta.
    case_bool_decide; [|destruct (_filterStale (cache s0))]; by eexists _, _. }
  split.
  { rewrite cmd_ladder. unfold ladder.
    destruct (Hadd devices s) as (full_cmd & s1 & -> & _).
    destruct (rc _ =? 0); [by eexists _, _|].
    match goal with |- context [_addExtraCfg _ [] ?s2] =>
      destruct (Hadd [] s2) as (wider_cmd & s3 & -> & _) end.
    destruct (run_attempts _ _ _). by eexists _, _. }
  split.
  { intros full_cmd s1 r s' E1. rewrite cmd_ladder. unfold ladder. rewrite E1.
    destruct (rc _ =? 0); [by intros [= <- <-]|].
    rewrite addExtraCfg_eq. cbn zeta. rewrite bool_decide_false by (by intros ?).
    cbn [cache world _filterStale set_filter].
    match goal with |- context [run_attempts ?att ?r ?w] =>
      pose proof (run_attempts_frame att r w) as (_ & _ & _ & _ & He & _);
      destruct (run_attempts att r w) as [r' w'] end.
    intros [= <- <-]. cbn in He |- *. rewrite He.
    destruct (Hadd devices s) as (f & s1' & E1' & Hu & Hmp).
    rewrite E1 in E1'. injection E1' as <- <-.
    unfold USER_DEV_LIST. by rewrite Hu, Hmp. }
  split.
  { split; [done|]. split; [done|]. repeat constructor. }
  split.
  { unfold filter_attempts. destruct (Hadd devices s) as (full_cmd & s1 & -> & _).
    match goal with |- context [_addExtraCfg _ [] ?s2] =>
      destruct (Hadd [] s2) as (wider_cmd & s3 & -> & _) end.
    case_bool_decide; cbn; lia. }
  intros N HN Hfail. by apply cmd_fails_until.
Qed.

(** Scenario S4 on a host whose multipath devices do not change: in
    read-only mode the runner fails twice and then succeeds; three commands
    are spawned and the engine sleeps 0.1 and then 0.2 seconds. *)
Lemma cmd_retry_ladder_witness :
  ∃ r s',
    cmd ["pvs"] [] (read_only_sys 3 (λ _, ["/dev/mapper/a"])) = (Ok r, s') ∧
    rc r = 0 ∧ length (spawned (world s')) = 3%nat ∧
    slept (world s') = [1 # 10; 2 # 10].
Proof.
  destruct (cmd_retry_ladder "pvs" [] [] (read_only_sys 3 (λ _, ["/dev/mapper/a"])))
    as (_ & _ & _ & _ & _ & H).
  destruct (H 3%nat ltac:(lia) (flaky_world_fails_until _ _)) as (r & s' & E & Hrc & Hsp & Hsl).
  exists r, s'. split; [exact E|].
  split; [apply Hrc; vm_compute; lia|]. split; [exact Hsp|exact Hsl].
Defined.

Lemma same_cache_data_refl c : same_cache_data c c.
Proof. exists (_filter c), (_filterStale c). by destruct c. Qed.

Lemma same_cache_data_trans c1 c2 c3 :
  same_cache_data c1 c2 → same_cache_data c2 c3 → same_cache_data c1 c3.
Proof. intros (f & b & ->) (f' & b' & ->). by exists f', b'. Qed.

Lemma same_cache_data_fields c c' :
  same_cache_data c c' →
  _cache_lvs c' = _cache_lvs c ∧ _read_only c' = _read_only c ∧
  _stalepv c' = _stalepv c ∧ _stalevg c' = _stalevg c ∧ _freshlv c' = _freshlv c ∧
  _pvs c' = _pvs c ∧ _vgs c' = _vgs c ∧ _lvs c' = _lvs c ∧ _stats c' = _stats c.
Proof. by intros (f & b & ->). Qed.

Lemma same_host_refl w : same_host w w.
Proof. done. Qed.

Lemma same_host_trans w1 w2 w3 : same_host w1 w2 → same_host w2 w3 → same_host w1 w3.
Proof. intros (?&?&?&?) (?&?&?&?). repeat split; congruence. Qed.

Lemma addExtraCfg_frame cmd0 cmd_rest devices s :
  ∃ dev_filter s1,
    _addExtraCfg (cmd0 :: cmd_rest) devices s
      = (Ok (with_config (EXT_LVM (world s)) cmd0 cmd_rest dev_filter
               (_read_only (cache s))), s1) ∧
    same_cache_data (cache s) (cache s1) ∧ same_host (world s) (world s1) ∧
    spawned (world s1) = spawned (world s) ∧ slept (world s1) = slept (world s).
Proof.
  rewrite addExtraCfg_eq. cbn zeta.
  case_bool_decide; [|destruct (_filterStale (cache s))]; eexists _, _;
    (split; [done|]); repeat split; try apply same_cache_data_refl; try done.
  by eexists _, _.
Qed.

(** [cmd] touches the cached filter only; it spawns at least one command,
    each made of the lvm binary, the sub-command, a configuration and the
    arguments, and never raises on a non-empty command. *)
Lemma cmd_frame cmd0 cmd_rest devices s :
  ∃ r s',
    cmd (cmd0 :: cmd_rest) devices s = (Ok r, s') ∧
    same_cache_data (cache s) (cache s') ∧ same_host (world s) (world s') ∧
    ∃ cmds, spawned (world s') = spawned (world s) ++ cmds ∧ cmds ≠ [] ∧
            Forall (λ c, ∃ conf, c = [EXT_LVM (world s); cmd0; "--config"; conf] ++ cmd_rest)
              cmds.
Proof.
  rewrite cmd_ladder. unfold ladder.
  destruct (addExtraCfg_frame cmd0 cmd_rest devices s)
    as (f1 & s1 & -> & Hc1 & Hh1 & Hs1 & _).
  set (full_cmd := with_config _ _ _ f1 _).
  assert (∃ conf, full_cmd = [EXT_LVM (world s); cmd0; "--config"; conf] ++ cmd_rest)
    as Hfull by (by eexists).
  destruct (rc _ =? 0).
  { eexists _, _. split; [done|]. split; [done|]. split; [done|]. cbn.
    exists [full_cmd]. rewrite Hs1. split; [done|]. split; [done|]. by constructor. }
  match goal with |- context [_addExtraCfg _ [] ?s2] =>
    destruct (addExtraCfg_frame cmd0 cmd_rest [] s2)
      as (f2 & s3 & -> & Hc2 & Hh2 & Hs2 & _) end.
  cbn [cache world] in Hc2, Hh2, Hs2 |- *.
  set (wider_cmd := with_config _ _ _ f2 _).
  assert (∃ conf, wider_cmd = [EXT_LVM (world s); cmd0; "--config"; conf] ++ cmd_rest)
    as Hwider.
  { subst wider_cmd. cbn. destruct Hh1 as (_ & _ & _ & ->). by eexists. }
  match goal with |- context [run_attempts ?att ?r ?w] =>
    pose proof (run_attempts_frame att r w) as (R1 & R2 & R3 & R4 & _ & cmds & R6 & R7 & _);
    destruct (run_attempts att r w) as [r' w'] end.
  cbn [snd] in *. eexists _, _. split; [done|]. cbn [cache world].
  split.
  { eapply same_cache_data_trans; [exact Hc1|].
    eapply same_cache_data_trans; [|exact Hc2]. by eexists _, _. }
  split.
  { eapply same_host_trans; [exact Hh1|].
    eapply same_host_trans; [|split; [exact R1|split; [exact R2|split; [exact R3|exact R4]]]].
    eapply same_host_trans; [|exact Hh2]. done. }
  exists (full_cmd :: cmds). rewrite R6, Hs2. cbn. rewrite Hs1, <- (assoc_L (++)).
  split; [done|]. split; [done|]. constructor; [done|].
  eapply Forall_impl; [exact R7|]. intros c Hc. cbn beta in Hc.
  rewrite fmap_app in Hc. apply elem_of_app in Hc as [Hc|Hc].
  - case_bool_decide; [|by apply elem_of_nil in Hc].
    apply list_elem_of_singleton in Hc as ->. done.
  - destruct (_read_only (cache s3)); [|by apply elem_of_nil in Hc].
    rewrite <- list_fmap_compose in Hc. apply list_elem_of_fmap in Hc as (d & -> & _).
    cbn [compose snd]. by case_bool_decide.
Qed.

(** A command whose first run returns 0 is run once. *)
Lemma cmd_first_ok cmd0 cmd_rest devices s r :
  (∀ conf, runner (world s) (spawned (world s))
             ([EXT_LVM (world s); cmd0; "--config"; conf] ++ cmd_rest) = r) →
  rc r = 0 →
  ∃ s', cmd (cmd0 :: cmd_rest) devices s = (Ok r, s') ∧
        same_cache_data (cache s) (cache s') ∧ same_host (world s) (world s') ∧
        slept (world s') = slept (world s).
Proof.
  intros Hrun Hrc. rewrite cmd_ladder. unfold ladder.
  destruct (addExtraCfg_frame cmd0 cmd_rest devices s)
    as (f1 & s1 & -> & Hc1 & Hh1 & Hs1 & Hl1).
  destruct Hh1 as (Hr & ? & ? & ?). rewrite Hr, Hs1. unfold with_config.
  cbn [app] in Hrun |- *. rewrite Hrun, Hrc. cbn. eexists. split; [done|]. cbn. by rewrite Hl1.
Qed.

(** ** Read API *)

Lemma getVg_hit vgName vg s :
  _vgs (cache s) !! vgName = Some (Fresh vg) →
  getVg vgName s =
    (Ok (Some (Fresh vg)),
     mkSys (set_stats (mkStats (S (_hits (_stats (cache s)))) (_misses (_stats (cache s))))
              (cache s)) (world s)).
Proof. intros H. unfold getVg, stats_hit. munfold. by rewrite H. Qed.

Lemma getLv_hit vgName lvName lv s :
  lvName ≠ "" →
  _lvs (cache s) !! (vgName, lvName) = Some (Fresh lv) →
  getLv vgName (Some lvName) s =
    (Ok (OneLv (Some (Fresh lv))),
     mkSys (set_stats (mkStats (S (_hits (_stats (cache s)))) (_misses (_stats (cache s))))
              (cache s)) (world s)).
Proof.
  intros Hne H. unfold getLv, stats_hit. cbn [str_truthy default from_option id].
  rewrite bool_decide_true by done. munfold. by rewrite H.
Qed.

Lemma getLv_all_eq vgName lvName s :
  str_truthy lvName = false →
  getLv vgName lvName s =
    (needs_reload ← gets (_lvs_needs_reload vgName);
     lvs ← (if needs_reload : bool then stats_miss;; _reloadlvs vgName NoNames
            else stats_hit;; gets _lvs);
     mret (AllLvs (fresh_lvs_of vgName lvs))) s.
Proof. intros H. unfold getLv. by rewrite H. Qed.

Lemma fresh_lvs_of_empty vgName : fresh_lvs_of vgName ∅ = [].
Proof. unfold fresh_lvs_of, values. by rewrite map_to_list_empty. Qed.

(** The lvs reload of a VG for which the command reports nothing. *)
Lemma reloadlvs_locked_empty vgName r s :
  rc r = 0 → out r = [] →
  ∃ s', _reloadlvs_locked vgName [] r s = (Ok ∅, s') ∧ world s' = world s ∧
        _vgs (cache s') = _vgs (cache s) ∧ _pvs (cache s') = _pvs (cache s) ∧
        (∀ lvName, _lvs (cache s') !! (vgName, lvName) = None).
Proof.
  intros Hrc Hout. unfold _reloadlvs_locked. rewrite Hrc, Hout. cbn [negb Z.eqb for_].
  munfold. eexists. split; [done|]. cbn -[remove_stale]. repeat split; try done.
  intros lvName. rewrite lookup_remove_stale.
  destruct (_lvs (cache s) !! (vgName, lvName)) as [e|] eqn:E; [|by case_bool_decide].
  rewrite bool_decide_true; [done|]. split; [|done].
  apply list_elem_of_fmap. exists lvName. split; [done|].
  unfold lvs_of_vg. apply list_elem_of_fmap. exists (vgName, lvName). split; [done|].
  apply list_elem_of_filter. split; [done|].
  unfold keys. apply list_elem_of_fmap. exists ((vgName, lvName), e). split; [done|].
  by apply elem_of_map_to_list.
Qed.

(** C10. Without an LV name, [getLV(vgName)] raises
    [LogicalVolumeDoesNotExistError] (for the name "vgName/None") whenever
    the lookup yields no fresh LV of that VG, the empty list being as false
    as a missing single LV, and returns the list otherwise; the lookup
    yields the fresh LVs of the VG found in the reloaded or cached map. In
    particular it raises for a VG whose lvs command succeeds and reports no
    row, the VG staying in the cache as it was. *)
Theorem getLV_empty_list_raises (vgName : string) (s : Sys) :
  (∀ s', getLv vgName None s = (Ok (AllLvs []), s') →
         getLV vgName None s
           = (Raise (LogicalVolumeDoesNotExistError (vgName +:+ "/None")), s')) ∧
  (∀ lv lvs s', getLv vgName None s = (Ok (AllLvs (lv :: lvs)), s') →
                getLV vgName None s = (Ok (AllLvs (lv :: lvs)), s')) ∧
  (∀ res s', getLv vgName None s = (Ok res, s') →
     ∃ m : gmap (string * string) (entry LV.t), res = AllLvs (fresh_lvs_of vgName m) ∧
       (_lvs_needs_reload vgName (cache s) = false → m = _lvs (cache s))) ∧
  (∀ r, _lvs_needs_reload vgName (cache s) = true →
        lvs_answers (world s) r → rc r = 0 → out r = [] →
        ∃ s', getLV vgName None s
                = (Raise (LogicalVolumeDoesNotExistError (vgName +:+ "/None")), s') ∧
              _vgs (cache s') = _vgs (cache s)).
Proof.
  split; [|split; [|split]].
  - intros s' H. unfold getLV. by erewrite bind_Ok by exact H.
  - intros lv lvs s' H. unfold getLV. by erewrite bind_Ok by exact H.
  - intros res s' H. rewrite getLv_all_eq in H by done.
    apply bind_inv_Ok in H as (b & s1 & Hb & H). munfold. injection Hb as <- <-.
    apply bind_inv_Ok in H as (m & s2 & Hm & H). munfold. injection H as <- <-.
    exists m. split; [done|]. intros Hn. rewrite Hn in Hm.
    unfold stats_hit in Hm. munfold. by injection Hm as <- _.
  - intros r Hneeds Hans Hrc Hout.
    assert (∃ s', getLv vgName None s = (Ok (AllLvs []), s') ∧
                  _vgs (cache s') = _vgs (cache s)) as (s' & Hlv & Hvgs).
    { rewrite getLv_all_eq by done.
      unfold mbind at 1, M_bind at 1, gets at 1. rewrite Hneeds.
      unfold mbind at 1 2, M_bind at 1 2, stats_miss at 1, modify at 1.
      unfold _reloadlvs. cbn [normalize_args].
      unfold mbind at 1, M_bind at 1, _getVGDevs, gets at 1.
      unfold mbind at 1, M_bind at 1.
      match goal with |- context [cmd ?a ?d ?s0] =>
        destruct (cmd_first_ok "lvs" (LVM_FLAGS ++ ["-o"; LV_FIELDS] ++ lvs_args vgName [])
                    d s0 r) as (s1 & Hcmd & Hc & Hh & _); [|done|] end.
      { intros conf. by apply Hans. }
      change (LVS_CMD ++ lvs_args vgName [])
        with ("lvs" :: LVM_FLAGS ++ ["-o"; LV_FIELDS] ++ lvs_args vgName []).
      rewrite Hcmd.
      destruct (reloadlvs_locked_empty vgName r s1 Hrc Hout) as (s2 & -> & _ & Hv & _).
      unfold mret, M_ret. rewrite fresh_lvs_of_empty.
      eexists. split; [done|]. rewrite Hv.
      apply same_cache_data_fields in Hc as (_&_&_&_&_&_&->&_). done. }
    exists s'. split; [|done]. unfold getLV. by erewrite bind_Ok by exact Hlv.
Qed.

Lemma getLV_empty_list_raises_witness :
  ∃ s', getLV "vg0" None empty_vg_sys
          = (Raise (LogicalVolumeDoesNotExistError "vg0/None"), s') ∧
        _vgs (cache s') !! "vg0" = Some (Fresh vg0_record).
Proof.
  destruct (getLV_empty_list_raises "vg0" empty_vg_sys) as (_ & _ & _ & H).
  destruct (H (mkRun 0 [] [])) as (s' & E & Hv); try done.
  exists s'. split; [exact E|]. rewrite Hv. by vm_compute.
Defined.

(** ** Public operations *)

Lemma int_Some str n s : Py.int str = Some n → int str s = (Ok n, s).
Proof. intros H. unfold int. by rewrite H. Qed.

Lemma floordiv_ok a b s : b ≠ 0 → floordiv a b s = (Ok (a / b), s).
Proof. intros H. unfold floordiv. by rewrite (proj2 (Z.eqb_neq b 0) H). Qed.

Lemma getVG_inv vgName s e s' :
  getVG vgName s = (Ok e, s') → getVg vgName s = (Ok (Some e), s').
Proof.
  unfold getVG. intros H. apply bind_inv_Ok in H as ([e'|] & s1 & Hg & H); [|done].
  munfold. by injection H as <- <-.
Qed.

Lemma getVG_of_getVg vgName s e s' :
  getVg vgName s = (Ok (Some e), s') → getVG vgName s = (Ok e, s').
Proof. intros H. unfold getVG. by erewrite bind_Ok by exact H. Qed.

Lemma getLV_of_getLv vgName lvName s e s' :
  getLv vgName lvName s = (Ok (OneLv (Some e)), s') →
  getLV vgName lvName s = (Ok (OneLv (Some e)), s').
Proof. intros H. unfold getLV. by erewrite bind_Ok by exact H. Qed.

(** The sizes in extents that [extendLV] and [reduceLV] compare, once the
    two records are at hand. *)
Lemma extents_eq vg lv es sz size_mb {A} (k : Z → Z → Z → M A) s :
  Py.int (VG.extent_size vg) = Some es → es ≠ 0 → Py.int (LV.size lv) = Some sz →
  (extent_size ← (str ← lift (getattr "extent_size" VG.extent_size (Fresh vg)); int str);
   lv_extents ← (str ← lv_attr "size" LV.size (OneLv (Some (Fresh lv)));
                 n ← int str; floordiv n extent_size);
   requested_extents ← floordiv (utils_round (size_mb * MiB) extent_size) extent_size;
   k extent_size lv_extents requested_extents) s
  = k es (sz / es) (requested_extents_of size_mb es) s.
Proof.
  intros Hes Hne Hsz. unfold lv_attr, getattr. munfold.
  rewrite (int_Some _ _ _ Hes), (int_Some _ _ _ Hsz), !floordiv_ok by done.
  done.
Qed.



Lemma set_lvs_id c : set_lvs (_freshlv c) (_lvs c) c = c.
Proof. by destruct c. Qed.

Lemma reloadlvs_line_eq line upd s :
  length (line_fields line) = LV_FIELDS_LEN →
  _reloadlvs_line line upd s =
    match LV.fromlvm (line_fields line) with
    | Ok lv =>
        if bool_decide (LV.seg_start_pe lv = "0") then
          (Ok (<[(LV.vg_name lv, LV.name lv) := Fresh lv]> upd),
           mkSys (set_lvs (_freshlv (cache s))
                    (<[(LV.vg_name lv, LV.name lv) := Fresh lv]> (_lvs (cache s)))
                    (cache s)) (world s))
        else (Ok upd, s)
    | Raise e => (Raise e, s)
    end.
Proof.
  intros H. unfold _reloadlvs_line. rewrite bool_decide_false by congruence.
  munfold. destruct (LV.fromlvm (line_fields line)) as [lv|e]; [|done].
  by case_bool_decide.
Qed.

(** The loop over the lines of lvs only adds fresh records, each under
    its VG and name, to the cache and to the result alike. *)
Lemma for_lvs_delta lines upd s res s' :
  for_ lines _reloadlvs_line upd s = (res, s') →
  ∃ d : gmap (string * string) (entry LV.t),
    s' = mkSys (set_lvs (_freshlv (cache s)) (d ∪ _lvs (cache s)) (cache s)) (world s) ∧
    (∀ upd', res = Ok upd' → upd' = d ∪ upd) ∧
    (∀ k e, d !! k = Some e → ∃ lv, e = Fresh lv ∧ k = (LV.vg_name lv, LV.name lv)).
Proof.
  revert upd s. induction lines as [|line lines IH]; intros upd s; cbn [for_].
  { intros [= <- <-]. exists ∅. rewrite !(left_id_L ∅ (∪)), set_lvs_id, Sys_eta.
    split; [done|]. split; [by intros ? [= <-]|]. intros k e. by rewrite lookup_empty. }
  assert (∀ e : exn, ∃ d : gmap (string * string) (entry LV.t),
    s = mkSys (set_lvs (_freshlv (cache s)) (d ∪ _lvs (cache s)) (cache s)) (world s) ∧
    (∀ upd', Raise e = Ok upd' → upd' = d ∪ upd) ∧
    (∀ k e, d !! k = Some e → ∃ lv, e = Fresh lv ∧ k = (LV.vg_name lv, LV.name lv)))
    as Hraise.
  { intros e. exists ∅. rewrite !(left_id_L ∅ (∪)), set_lvs_id, Sys_eta.
    split; [done|]. split; [done|]. intros k e'. by rewrite lookup_empty. }
  unfold mbind, M_bind.
  destruct (decide (length (line_fields line) = LV_FIELDS_LEN)) as [Hlen|Hlen].
  2:{ rewrite reloadlvs_line_bad by done. intros [= <- <-]. apply Hraise. }
  rewrite reloadlvs_line_eq by done.
  destruct (LV.fromlvm (line_fields line)) as [lv|e].
  2:{ intros [= <- <-]. apply Hraise. }
  case_bool_decide; [|apply IH].
  intros H'. apply IH in H' as (d & -> & Hupd & Hd). cbn [cache world].
  exists (d ∪ {[ (LV.vg_name lv, LV.name lv) := Fresh lv ]}).
  split; [|split].
  - cbn. by rewrite (insert_union_singleton_l (_lvs _)), (assoc_L (∪)).
  - intros upd' ->%Hupd. by rewrite (insert_union_singleton_l upd), (assoc_L (∪)).
  - intros k e. rewrite lookup_union_Some_raw. intros [Hk|[_ Hk]]; [by apply Hd|].
    apply lookup_singleton_Some in Hk as [<- <-]. by exists lv.
Qed.




(** [getLV] leaves the state as its lookup left it. *)
Lemma getLV_state vgName lvName s res s' :
  getLV vgName lvName s = (res, s') → ∃ res0, getLv vgName lvName s = (res0, s').
Proof.
  unfold getLV, mbind, M_bind.
  destruct (getLv vgName lvName s) as [[x|e] sx].
  - destruct (lookup_falsy x); munfold; intros [= <- <-]; by eexists.
  - intros [= <- <-]. by eexists.
Qed.

Lemma invalidate_vg_lv vgName lvName s :
  ∃ s', (_invalidatevgs (OneName vgName);; _invalidatelvs vgName (OneName lvName)) s
          = (Ok tt, s') ∧
        world s' = world s ∧
        _vgs (cache s') = <[vgName := Stale vgName]> (_vgs (cache s)) ∧
        _lvs (cache s') = <[(vgName, lvName) := Stale lvName]> (_lvs (cache s)) ∧
        _pvs (cache s') = _pvs (cache s).
Proof. unfold _invalidatevgs, _invalidatelvs. munfold. cbn. by eexists. Qed.



(** ** Invalidation after mutating operations *)

Lemma invalidatelvs_step_keeps_stale vgName (l : list (entry LV.t)) m k e :
  m !! k = Some e → is_stale e = true →
  ∃ e', foldl (_invalidatelvs_step vgName) m l !! k = Some e' ∧ is_stale e' = true.
Proof.
  revert m e. induction l as [|x l IH]; intros m e Hk He; cbn [foldl]; [eauto|].
  destruct x as [lv| |]; cbn [_invalidatelvs_step]; try by eapply IH.
  case_bool_decide; [|by eapply IH].
  destruct (decide (k = (vgName, LV.name lv))) as [->|Hne].
  - eapply IH; [apply lookup_insert_eq|done].
  - eapply IH; [by rewrite lookup_insert_ne|done].
Qed.

Lemma invalidatelvs_step_fresh vgName (l : list (entry LV.t)) m lv :
  Fresh lv ∈ l → LV.vg_name lv = vgName →
  ∃ e', foldl (_invalidatelvs_step vgName) m l !! (vgName, LV.name lv) = Some e'
        ∧ is_stale e' = true.
Proof.
  revert m. induction l as [|x l IH]; intros m Hin Hvg; [by apply elem_of_nil in Hin|].
  apply elem_of_cons in Hin as [<-|Hin]; cbn [foldl]; [|by apply IH].
  cbn [_invalidatelvs_step]. rewrite bool_decide_true by done.
  eapply invalidatelvs_step_keeps_stale; [apply lookup_insert_eq|done].
Qed.

Lemma invalidatelvs_step_other vgName (l : list (entry LV.t)) m k e :
  foldl (_invalidatelvs_step vgName) m l !! k = Some e →
  is_stale e = true ∨ m !! k = Some e.
Proof.
  revert m. induction l as [|x l IH]; intros m; cbn [foldl]; [by right|].
  intros H. apply IH in H as [?|H]; [by left|].
  destruct x as [lv| |]; cbn [_invalidatelvs_step] in H; try by right.
  case_bool_decide; [|by right].
  destruct (decide (k = (vgName, LV.name lv))) as [->|Hne].
  - rewrite lookup_insert_eq in H. injection H as <-. by left.
  - rewrite lookup_insert_ne in H by done. by right.
Qed.

(** After all the LVs of a VG have been invalidated, none of its slots is
    fresh. *)
Lemma invalidatelvs_all vgName s :
  lvs_coherent (_lvs (cache s)) →
  ∃ s', _invalidatelvs vgName NoNames s = (Ok tt, s') ∧ world s' = world s ∧
        _pvs (cache s') = _pvs (cache s) ∧ _vgs (cache s') = _vgs (cache s) ∧
        ∀ lvName e, _lvs (cache s') !! (vgName, lvName) = Some e → is_stale e = true.
Proof.
  intros Hco. unfold _invalidatelvs. munfold. cbn [normalize_args].
  rewrite bool_decide_false by (by intros ?).
  eexists. split; [done|]. cbn [cache world]. repeat split; try done.
  cbn [_lvs set_lvs]. intros lvName e H.
  apply invalidatelvs_step_other in H as H'. destruct H' as [?|Hm]; [done|].
  destruct e as [lv| |]; try done.
  pose proof (Hco _ _ Hm) as Hk. injection Hk as Hvg Hn.
  destruct (invalidatelvs_step_fresh vgName (values (_lvs (cache s))) (_lvs (cache s)) lv)
    as (e' & He' & Hst); [|done|].
  { unfold values. apply list_elem_of_fmap. exists ((vgName, lvName), Fresh lv).
    split; [done|]. by apply elem_of_map_to_list. }
  rewrite <- Hn in He'. rewrite H in He'. by injection He' as <-.
Qed.

(** What a PV reload leaves alone, and where its fresh results are. *)
Lemma reloadpvs_locked_frame pvName r s res s' :
  _reloadpvs_locked pvName r s = (res, s') →
  world s' = world s ∧ _vgs (cache s') = _vgs (cache s) ∧
  _lvs (cache s') = _lvs (cache s) ∧
  ∀ upd, res = Ok upd →
    ∀ k pv, upd !! k = Some (Fresh pv) → _pvs (cache s') !! k = Some (Fresh pv).
Proof.
  unfold _reloadpvs_locked. destruct (negb (rc r =? 0)).
  - munfold. destruct (mark_unreadable _ _ _) as [pvs' upd] eqn:E. intros [= <- <-].
    repeat split; try done. intros upd' [= <-] k pv Hk.
    pose proof (lookup_mark_unreadable_updated PV.name
      (if bool_decide (normalize_args pvName ≠ []) then normalize_args pvName
       else keys (_pvs (cache s))) (_pvs (cache s)) k) as Hu.
    rewrite E in Hu. cbn [snd] in Hu. rewrite Hk in Hu.
    case_bool_decide; [|done].
    destruct (_pvs (cache s) !! k) as [e|]; [|done]. by destruct (is_stale e).
  - unfold mbind at 1, M_bind at 1.
    destruct (for_ (out r) _reloadpvs_line ∅ s) as [[upd|e] s1] eqn:E;
      apply for_pvs_delta in E as (d & -> & Hupd & Hd).
    + munfold. intros [= <- <-]. repeat split; try done.
      intros upd' [= <-] k pv Hk. cbn [cache _pvs set_pvs].
      specialize (Hupd upd eq_refl). rewrite (right_id_L ∅ (∪)) in Hupd. subst upd.
      rewrite lookup_remove_stale, bool_decide_false by (rewrite Hk; by intros [_ ?]).
      by apply lookup_union_Some_l.
    + by intros [= <- <-].
Qed.

Lemma reloadpvs_frame pvName s res s' :
  _reloadpvs pvName s = (res, s') →
  same_host (world s) (world s') ∧
  _vgs (cache s') = _vgs (cache s) ∧ _lvs (cache s') = _lvs (cache s) ∧
  (∃ cmds, spawned (world s') = spawned (world s) ++ cmds ∧ cmds ≠ [] ∧
           Forall (λ c, nth 1 c "" = "pvs") cmds) ∧
  ∀ upd, res = Ok upd →
    ∀ k pv, upd !! k = Some (Fresh pv) → _pvs (cache s') !! k = Some (Fresh pv).
Proof.
  unfold _reloadpvs. unfold mbind at 1, M_bind at 1.
  destruct (cmd_frame "pvs" (LVM_FLAGS ++ ["-o"; PV_FIELDS] ++ normalize_args pvName) [] s)
    as (r & s1 & Hcmd & Hc & Hh & cmds & Hsp & Hne & Hall).
  change (PVS_CMD ++ normalize_args pvName)
    with ("pvs" :: LVM_FLAGS ++ ["-o"; PV_FIELDS] ++ normalize_args pvName).
  rewrite Hcmd. intros H. apply reloadpvs_locked_frame in H as (Hw & Hv & Hl & Heff).
  apply same_cache_data_fields in Hc as (_ & _ & _ & _ & _ & _ & Hc7 & Hc8 & _).
  rewrite Hw, Hv, Hl. repeat split; try done; try apply Hh.
  exists cmds. split; [done|]. split; [done|].
  eapply Forall_impl; [exact Hall|]. by intros c [conf ->].
Qed.

(** Looking up a PV whose slot is missing or stale reloads it with pvs. *)
Lemma getPv_reloads pvName s res s' :
  missing_or_stale (_pvs (cache s) !! pvName) = true →
  getPv pvName s = (res, s') →
  same_host (world s) (world s') ∧
  _vgs (cache s') = _vgs (cache s) ∧ _lvs (cache s') = _lvs (cache s) ∧
  (∃ cmds, spawned (world s') = spawned (world s) ++ cmds ∧ cmds ≠ [] ∧
           Forall (λ c, nth 1 c "" = "pvs") cmds) ∧
  ∀ pv, res = Ok (Some (Fresh pv)) → _pvs (cache s') !! pvName = Some (Fresh pv).
Proof.
  intros Hst. unfold getPv.
  unfold mbind at 1, M_bind at 1, gets at 1. rewrite Hst.
  unfold mbind at 1, M_bind at 1, stats_miss at 1, modify at 1.
  unfold mbind at 1, M_bind at 1.
  destruct (_reloadpvs (OneName pvName) _) as [[pvs|e] s1] eqn:E;
    apply reloadpvs_frame in E as (Hh & Hv & Hl & Hcmds & Heff);
    munfold; intros [= <- <-]; repeat split; try done; try apply Hh.
  intros pv [= Hpv]. by eapply Heff.
Qed.

Lemma fqpvname_absolute pv s :
  String.prefix "/" pv = true → _fqpvname pv s = (Ok pv, s).
Proof.
  intros H. destruct pv as [|a pv]; [done|]. cbn [String.prefix] in H.
  destruct (ascii_dec _ a) as [<-|]; [|done]. done.
Qed.

Lemma mapM_fqpvname_state dst s res s' :
  mapM _fqpvname dst s = (res, s') → s' = s.
Proof.
  revert res s'. induction dst as [|d dst IH]; intros res s'; cbn [mapM].
  { by intros [= _ <-]. }
  unfold mbind at 1, M_bind at 1.
  assert (∃ x, _fqpvname d s = (x, s)) as [x ->].
  { unfold _fqpvname. destruct d; [by eexists|]. destruct (Ascii.eqb _ _); by eexists. }
  destruct x as [y|e]; [|by intros [= _ <-]].
  pose proof (IH _ _ (surjective_pairing (mapM _fqpvname dst s))) as Hs1. clear IH.
  unfold mbind, M_bind. destruct (mapM _fqpvname dst s) as [[ys|e] s1];
    cbn [snd] in Hs1; subst s1; munfold; by intros [= _ <-].
Qed.

Lemma fqpvname_prefix pv s pvName s' :
  _fqpvname pv s = (Ok pvName, s') → s' = s ∧ String.prefix "/" pvName = true.
Proof.
  unfold _fqpvname. destruct pv as [|a pv]; [done|].
  destruct (Ascii.eqb a "/") eqn:E; munfold; intros [= <- <-]; (split; [done|]).
  - apply Ascii.eqb_eq in E as ->. cbn [String.prefix].
    destruct (ascii_dec _ _); [by destruct pv|done].
  - unfold Py.path_join. cbn [String.prefix].
    destruct (ascii_dec "/" a) as [<-|]; [by rewrite Ascii.eqb_refl in E|].
    by vm_compute.
Qed.

Lemma lookup_invalidate_names (vgName : string) (l : list string)
    (m : gmap (string * string) (entry LV.t)) (n : string) :
  foldl (λ lvs lvName, <[(vgName, lvName) := Stale lvName]> lvs) m l !! (vgName, n)
  = if bool_decide (n ∈ l) then Some (Stale n) else m !! (vgName, n).
Proof.
  revert m. induction l as [|x l IH]; intros m; cbn [foldl].
  { rewrite bool_decide_false; [done|apply not_elem_of_nil]. }
  rewrite IH. destruct (decide (n = x)) as [->|Hne].
  - rewrite (bool_decide_true (x ∈ x :: l)) by left.
    rewrite lookup_insert_eq. by case_bool_decide.
  - assert (bool_decide (n ∈ x :: l) = bool_decide (n ∈ l)) as ->.
    { apply bool_decide_ext. rewrite elem_of_cons. intuition congruence. }
    rewrite lookup_insert_ne by congruence. done.
Qed.

Lemma lookup_remove_names (vgName : string) (l : list string)
    (m : gmap (string * string) (entry LV.t)) (n : string) :
  foldl (λ lvs lvName, delete (vgName, lvName) lvs) m l !! (vgName, n)
  = if bool_decide (n ∈ l) then None else m !! (vgName, n).
Proof.
  revert m. induction l as [|x l IH]; intros m; cbn [foldl].
  { rewrite bool_decide_false; [done|apply not_elem_of_nil]. }
  rewrite IH. destruct (decide (n = x)) as [->|Hne].
  - rewrite (bool_decide_true (x ∈ x :: l)) by left.
    rewrite lookup_delete_eq. by case_bool_decide.
  - assert (bool_decide (n ∈ x :: l) = bool_decide (n ∈ l)) as ->.
    { apply bool_decide_ext. rewrite elem_of_cons. intuition congruence. }
    rewrite lookup_delete_ne by congruence. done.
Qed.

Lemma invalidatepvs_one pvName s :
  _invalidatepvs (OneName pvName) s
  = (Ok tt, mkSys (set_pvs (_stalepv (cache s)) (<[pvName := Stale pvName]> (_pvs (cache s)))
                     (cache s)) (world s)).
Proof. done. Qed.

Lemma invalidatevgs_one vgName s :
  _invalidatevgs (OneName vgName) s
  = (Ok tt, mkSys (set_vgs (_stalevg (cache s)) (_freshlv (cache s))
                     (<[vgName := Stale vgName]> (_vgs (cache s))) (cache s)) (world s)).
Proof. done. Qed.

(** The claim read literally fails on both paths it names: after the early
    return of [reduceLV] (lvreduce failed, the cached LV is not larger than
    requested) the VG and LV slots are still fresh, and after the skip path
    of [movePV] the PV slot holds the record just reloaded. *)
Lemma invalidation_not_unconditional :
  ¬ reduceLV_always_invalidates ∧ ¬ movePV_always_invalidates.
Proof.
  split.
  - intros H.
    destruct (H S5_sys "vg0" "lv0" 512 false (Ok tt)
                (reduceLV "vg0" "lv0" 512 false S5_sys).2) as [Hv _].
    { by vm_compute. }
    by vm_compute in Hv.
  - intros H.
    specialize (H idle_pv_sys "vg0" "/dev/mapper/pv0" [] (Ok tt)
                  (movePV "vg0" "/dev/mapper/pv0" [] idle_pv_sys).2).
    specialize (H ltac:(by vm_compute) eq_refl). by vm_compute in H.
Qed.

Lemma reduceLV_ok vgName lvName size_mb force s r s1 :
  (_getVGDevs [vgName] ≫= cmd (lvreduce_cmd vgName lvName size_mb force)) s = (Ok r, s1) →
  rc r = 0 →
  ∃ s', reduceLV vgName lvName size_mb force s = (Ok tt, s') ∧
        _vgs (cache s') !! vgName = Some (Stale vgName) ∧
        _lvs (cache s') !! (vgName, lvName) = Some (Stale lvName).
Proof.
  intros Hcmd Hrc. unfold reduceLV.
  apply bind_inv_Ok in Hcmd as (devices & s0 & Hd & Hcmd).
  erewrite bind_Ok by exact Hd. erewrite bind_Ok by exact Hcmd.
  rewrite Hrc. cbn [Z.eqb negb].
  destruct (invalidate_vg_lv vgName lvName s1) as (s' & -> & _ & Hv & Hl & _).
  exists s'. split; [done|]. rewrite Hv, Hl. by rewrite !lookup_insert_eq.
Qed.

Lemma reduceLV_failed vgName lvName size_mb force s r s1 vg lv es sz :
  (_getVGDevs [vgName] ≫= cmd (lvreduce_cmd vgName lvName size_mb force)) s = (Ok r, s1) →
  rc r ≠ 0 → lvName ≠ "" →
  _vgs (cache s) !! vgName = Some (Fresh vg) →
  _lvs (cache s) !! (vgName, lvName) = Some (Fresh lv) →
  Py.int (VG.extent_size vg) = Some es → es ≠ 0 → Py.int (LV.size lv) = Some sz →
  ∃ s', reduceLV vgName lvName size_mb force s
        = (if sz / es <=? requested_extents_of size_mb es then Ok tt
           else Raise (LogicalVolumeExtendError vgName lvName (Py.str_Z size_mb +:+ "m")),
           s') ∧
        _vgs (cache s') = _vgs (cache s) ∧ _lvs (cache s') = _lvs (cache s).
Proof.
  intros Hcmd Hrc Hname Hcv Hcl Hes Hne Hsz. unfold reduceLV.
  apply bind_inv_Ok in Hcmd as (devices & s0 & Hd & Hcmd).
  erewrite bind_Ok by exact Hd. erewrite bind_Ok by exact Hcmd.
  rewrite (proj2 (Z.eqb_neq _ _) Hrc). cbn [negb].
  unfold _getVGDevs, gets in Hd. injection Hd as <- <-.
  destruct (cmd_frame "lvreduce" (tl (lvreduce_cmd vgName lvName size_mb force))
              (_getVGDevs_go (_vgs (cache s)) [vgName] []) s)
    as (r' & s1' & Hcmd' & Hc & _).
  assert ((Ok r, s1) = (Ok r', s1')) as Heq by (rewrite <- Hcmd; exact Hcmd').
  injection Heq as <- <-.
  apply same_cache_data_fields in Hc as (_ & _ & _ & _ & _ & _ & Hv1 & Hl1 & _).
  rewrite <- Hv1 in Hcv. rewrite <- Hl1 in Hcl.
  erewrite bind_Ok by (apply getVG_of_getVg; by apply (getVg_hit _ vg)).
  erewrite bind_Ok by (apply getLV_of_getLv; by apply (getLv_hit _ _ lv)).
  rewrite (extents_eq vg lv es sz size_mb) by done.
  eexists. split; [by destruct (sz / es <=? _)|]. by cbn.
Qed.

Lemma movePV_moved vgName src_device dst_devices s pvName s1 e s2 pe dsts r s3 :
  _fqpvname src_device s = (Ok pvName, s) →
  _invalidatepvs (OneName pvName) s = (Ok tt, s1) →
  getPV pvName s1 = (Ok e, s2) →
  getattr "pe_alloc_count" PV.pe_alloc_count e = Ok pe → pe ≠ "0" →
  mapM _fqpvname dst_devices s2 = (Ok dsts, s2) →
  (_getVGDevs [vgName] ≫= cmd (pvmove_cmd pvName dsts)) s2 = (Ok r, s3) →
  ∃ s', movePV vgName src_device dst_devices s
        = (if rc r =? 0 then Ok tt
           else Raise (CouldNotMovePVData pvName vgName (err r)), s') ∧
        _pvs (cache s') !! pvName = Some (Stale pvName) ∧
        _vgs (cache s') !! vgName = Some (Stale vgName) ∧
        (lvs_coherent (_lvs (cache s)) →
         ∀ lvName e', _lvs (cache s') !! (vgName, lvName) = Some e' → is_stale e' = true).
Proof.
  intros Hfq Hinv Hpv Hpe Hne Hdst Hcmd.
  assert (lvs_coherent (_lvs (cache s)) → lvs_coherent (_lvs (cache s3))) as Hco.
  { rewrite invalidatepvs_one in Hinv. injection Hinv as <-.
    apply fqpvname_prefix in Hfq as [_ Hpre].
    unfold getPV in Hpv. erewrite bind_Ok in Hpv by (by apply fqpvname_absolute).
    apply bind_inv_Ok in Hpv as (o & s2' & Hg & Hpv).
    apply getPv_reloads in Hg as (_ & _ & Hl2 & _);
      [|cbn; by rewrite lookup_insert_eq].
    assert (s2' = s2) as -> by (destruct o; munfold; by injection Hpv).
    apply bind_inv_Ok in Hcmd as (devices & s0 & Hd & Hcmd).
    unfold _getVGDevs, gets in Hd. injection Hd as <- <-.
    destruct (cmd_frame "pvmove" (pvName :: dsts) (_getVGDevs_go (_vgs (cache s2)) [vgName] []) s2)
      as (r' & s3' & Hcmd' & Hc & _).
    assert ((Ok r, s3) = (Ok r', s3')) as Heq by (rewrite <- Hcmd; exact Hcmd').
    injection Heq as <- <-.
    apply same_cache_data_fields in Hc as (_ & _ & _ & _ & _ & _ & _ & Hl3 & _).
    by rewrite Hl3, Hl2. }
  unfold movePV. erewrite bind_Ok by exact Hfq. erewrite bind_Ok by exact Hinv.
  erewrite bind_Ok by exact Hpv. unfold lift at 1. rewrite Hpe.
  unfold mbind at 1, M_bind at 1. rewrite bool_decide_false by done.
  erewrite bind_Ok by exact Hdst.
  apply bind_inv_Ok in Hcmd as (devices & s0 & Hd & Hcmd).
  erewrite bind_Ok by exact Hd. erewrite bind_Ok by exact Hcmd.
  erewrite bind_Ok by apply invalidatepvs_one.
  match goal with |- context [(_invalidatelvs vgName NoNames ≫= ?k) ?sx] =>
    set (sa := sx) end.
  destruct (_invalidatelvs vgName NoNames sa) as [res sb] eqn:Eb.
  assert (res = Ok tt ∧ world sb = world sa ∧ _pvs (cache sb) = _pvs (cache sa) ∧
          _vgs (cache sb) = _vgs (cache sa)) as (-> & Hwb & Hpb & Hvb).
  { unfold _invalidatelvs in Eb. munfold. by injection Eb as <- <-. }
  erewrite bind_Ok by exact Eb. erewrite bind_Ok by apply invalidatevgs_one.
  eexists. split; [by destruct (rc r =? 0)|]. cbn [cache world _pvs _vgs _lvs set_vgs].
  split; [by rewrite Hpb; subst sa; cbn; rewrite lookup_insert_eq|].
  split; [by rewrite lookup_insert_eq|].
  intros Hcoh lvName e' He'.
  destruct (invalidatelvs_all vgName sa) as (sb' & Eb' & _ & _ & _ & Hall).
  { subst sa. cbn. by apply Hco. }
  rewrite Eb in Eb'. injection Eb' as <-. by eapply Hall.
Qed.

Lemma movePV_skipped vgName src_device dst_devices s pvName s1 pv s2 :
  _fqpvname src_device s = (Ok pvName, s) →
  _invalidatepvs (OneName pvName) s = (Ok tt, s1) →
  getPV pvName s1 = (Ok (Fresh pv), s2) →
  PV.pe_alloc_count pv = "0" →
  movePV vgName src_device dst_devices s = (Ok tt, s2) ∧
  _pvs (cache s2) !! pvName = Some (Fresh pv) ∧
  _vgs (cache s2) = _vgs (cache s) ∧ _lvs (cache s2) = _lvs (cache s) ∧
  ∃ cmds, spawned (world s2) = spawned (world s) ++ cmds ∧
          Forall (λ c, nth 1 c "" = "pvs") cmds.
Proof.
  intros Hfq Hinv Hpv Hpe. split.
  { unfold movePV. erewrite bind_Ok by exact Hfq. erewrite bind_Ok by exact Hinv.
    erewrite bind_Ok by exact Hpv. unfold lift at 1, getattr.
    unfold mbind at 1, M_bind at 1. by rewrite bool_decide_true. }
  rewrite invalidatepvs_one in Hinv. injection Hinv as <-.
  apply fqpvname_prefix in Hfq as [_ Hpre].
  unfold getPV in Hpv. erewrite bind_Ok in Hpv by (by apply fqpvname_absolute).
  apply bind_inv_Ok in Hpv as (o & s2' & Hg & Hpv).
  assert (s2' = s2 ∧ o = Some (Fresh pv)) as [-> ->].
  { destruct o; munfold; [|done]. injection Hpv as ? ?. by subst. }
  apply getPv_reloads in Hg as (_ & Hv & Hl & (cmds & Hsp & _ & Hall) & Heff);
    [|cbn; by rewrite lookup_insert_eq].
  split; [by apply Heff|]. split; [done|]. split; [done|]. by exists cmds.
Qed.

Lemma removeLVs_done vgName lvNames s r s1 :
  (_getVGDevs [vgName] ≫= cmd (lvremove_cmd vgName lvNames)) s = (Ok r, s1) →
  ∃ s', removeLVs vgName lvNames s
        = (if rc r =? 0 then Ok tt
           else Raise (CannotRemoveLogicalVolume vgName lvNames (err r)), s') ∧
        ∀ lvName, lvName ∈ lvNames →
          if rc r =? 0 then
            _lvs (cache s') !! (vgName, lvName) = None ∧
            _vgs (cache s') !! vgName = Some (Stale vgName)
          else _lvs (cache s') !! (vgName, lvName) = Some (Stale lvName).
Proof.
  intros Hcmd. unfold removeLVs.
  apply bind_inv_Ok in Hcmd as (devices & s0 & Hd & Hcmd).
  erewrite bind_Ok by exact Hd. erewrite bind_Ok by exact Hcmd.
  destruct (rc r =? 0).
  - unfold _removelvs, _invalidatevgs. munfold. cbn [normalize_args cache world].
    eexists. split; [done|]. intros lvName Hin. cbn [cache _lvs _vgs set_vgs set_lvs foldl].
    rewrite bool_decide_true by (intros ->; by apply elem_of_nil in Hin).
    rewrite lookup_remove_names, bool_decide_true by done.
    by rewrite lookup_insert_eq.
  - unfold _invalidatelvs. munfold. cbn [normalize_args cache world].
    eexists. split; [done|]. intros lvName Hin. cbn [cache _lvs set_lvs].
    rewrite bool_decide_true by (intros ->; by apply elem_of_nil in Hin).
    by rewrite lookup_invalidate_names, bool_decide_true.
Qed.

(** C2, amended. The affected slots are stale or gone once the command of
    the operation has run, not on every path. [reduceLV]: when lvreduce
    succeeds, the VG and LV slots are stale; when it fails, nothing is
    invalidated, and with both records cached the maps are unchanged whether
    [reduceLV] returns (the LV is not larger than requested) or raises.
    [movePV]: when pvmove is run, the PV and VG slots are stale and no slot
    of an LV of the VG is fresh, whether pvmove succeeds or [movePV] raises;
    on the skip path nothing else is spawned than the pvs reload and the PV
    slot holds the record just reloaded. [removeLVs]: on success the named
    LVs are gone and the VG slot is stale; on failure the named LVs are
    stale and [removeLVs] raises. *)
Theorem invalidation_after_command (vgName : string) (s : Sys) :
  (∀ lvName size_mb force r s1,
     (_getVGDevs [vgName] ≫= cmd (lvreduce_cmd vgName lvName size_mb force)) s
       = (Ok r, s1) →
     (rc r = 0 →
      ∃ s', reduceLV vgName lvName size_mb force s = (Ok tt, s') ∧
            _vgs (cache s') !! vgName = Some (Stale vgName) ∧
            _lvs (cache s') !! (vgName, lvName) = Some (Stale lvName)) ∧
     (rc r ≠ 0 → lvName ≠ "" →
      ∀ vg lv es sz,
        _vgs (cache s) !! vgName = Some (Fresh vg) →
        _lvs (cache s) !! (vgName, lvName) = Some (Fresh lv) →
        Py.int (VG.extent_size vg) = Some es → es ≠ 0 →
        Py.int (LV.size lv) = Some sz →
        ∃ s', reduceLV vgName lvName size_mb force s
              = (if sz / es <=? requested_extents_of size_mb es then Ok tt
                 else Raise (LogicalVolumeExtendError vgName lvName
                               (Py.str_Z size_mb +:+ "m")), s') ∧
              _vgs (cache s') = _vgs (cache s) ∧ _lvs (cache s') = _lvs (cache s))) ∧
  (∀ src_device dst_devices pvName s1,
     _fqpvname src_device s = (Ok pvName, s) →
     _invalidatepvs (OneName pvName) s = (Ok tt, s1) →
     (∀ e s2 pe dsts r s3,
        getPV pvName s1 = (Ok e, s2) →
        getattr "pe_alloc_count" PV.pe_alloc_count e = Ok pe → pe ≠ "0" →
        mapM _fqpvname dst_devices s2 = (Ok dsts, s2) →
        (_getVGDevs [vgName] ≫= cmd (pvmove_cmd pvName dsts)) s2 = (Ok r, s3) →
        ∃ s', movePV vgName src_device dst_devices s
              = (if rc r =? 0 then Ok tt
                 else Raise (CouldNotMovePVData pvName vgName (err r)), s') ∧
              _pvs (cache s') !! pvName = Some (Stale pvName) ∧
              _vgs (cache s') !! vgName = Some (Stale vgName) ∧
              (lvs_coherent (_lvs (cache s)) →
               ∀ lvName e', _lvs (cache s') !! (vgName, lvName) = Some e' →
                            is_stale e' = true)) ∧
     (∀ pv s2,
        getPV pvName s1 = (Ok (Fresh pv), s2) →
        PV.pe_alloc_count pv = "0" →
        movePV vgName src_device dst_devices s = (Ok tt, s2) ∧
        _pvs (cache s2) !! pvName = Some (Fresh pv) ∧
        _vgs (cache s2) = _vgs (cache s) ∧ _lvs (cache s2) = _lvs (cache s) ∧
        ∃ cmds, spawned (world s2) = spawned (world s) ++ cmds ∧
                Forall (λ c, nth 1 c "" = "pvs") cmds)) ∧
  (∀ lvNames r s1,
     (_getVGDevs [vgName] ≫= cmd (lvremove_cmd vgName lvNames)) s = (Ok r, s1) →
     ∃ s', removeLVs vgName lvNames s
           = (if rc r =? 0 then Ok tt
              else Raise (CannotRemoveLogicalVolume vgName lvNames (err r)), s') ∧
           ∀ lvName, lvName ∈ lvNames →
             if rc r =? 0 then
               _lvs (cache s') !! (vgName, lvName) = None ∧
               _vgs (cache s') !! vgName = Some (Stale vgName)
             else _lvs (cache s') !! (vgName, lvName) = Some (Stale lvName)).
Proof.
  split; [|split].
  - intros lvName size_mb force r s1 Hcmd. split.
    + intros Hrc. by eapply reduceLV_ok.
    + intros Hrc Hname vg lv es sz Hv Hl Hes Hne Hsz. by eapply reduceLV_failed.
  - intros src_device dst_devices pvName s1 Hfq Hinv. split.
    + intros e s2 pe dsts r s3 Hpv Hpe Hne Hdst Hcmd. by eapply movePV_moved.
    + intros pv s2 Hpv Hpe. by eapply movePV_skipped.
  - intros lvNames r s1 Hcmd. by eapply removeLVs_done.
Qed.

Lemma invalidation_after_command_witness :
  ∃ s', reduceLV "vg0" "lv0" 256 false willing_sys = (Ok tt, s') ∧
        _vgs (cache s') !! "vg0" = Some (Stale "vg0") ∧
        _lvs (cache s') !! ("vg0", "lv0") = Some (Stale "lv0").
Proof.
  destruct (invalidation_after_command "vg0" willing_sys) as (H & _ & _).
  destruct (H "lv0" 256 false (mkRun 0 [] [])
              ((_getVGDevs ["vg0"] ≫= cmd (lvreduce_cmd "vg0" "lv0" 256 false))
                 willing_sys).2) as [H1 _].
  { by vm_compute. }
  exact (H1 eq_refl).
Defined.

(** ** The read-only lock *)

(** The thread that takes a step and the point it leaves. *)
Lemma step_inv σ σ' :
  step σ σ' →
  ∃ t p', threads σ' = <[t := p']> (threads σ) ∧
    match threads σ !! t with
    | None => ∃ c, p' = Called c
    | Some (Called CallCmd) => p' = HasSem
    | Some HasSem => p' = InCmd ∧ ∀ u p, threads σ !! u = Some p → holds_exclusive p = false
    | Some InCmd => p' = Returned
    | Some (Called (CallSetReadOnly v)) =>
        p' = HasExclusive v ∧
        ∀ u p, threads σ !! u = Some p → holds_shared p = false ∧ holds_exclusive p = false
    | Some (HasExclusive _) => p' = Switched
    | Some Switched => p' = Returned
    | Some Returned => False
    end.
Proof.
  destruct 1 as [t c σ H|t σ H Hs|t σ H Hg|t σ H|t v σ H Hg|t v σ H|t σ H];
    exists t; eexists; (split; [reflexivity|]); rewrite H; eauto.
Qed.

Lemma step_returned σ σ' u :
  step σ σ' → threads σ !! u = Some Returned → threads σ' !! u = Some Returned.
Proof.
  intros (t & p' & -> & Ht)%step_inv Hu.
  destruct (decide (t = u)) as [->|Hne]; [by rewrite Hu in Ht|].
  by rewrite lookup_insert_ne.
Qed.

Lemma step_drained t value u σ σ' :
  step σ σ' → drained t value u σ → drained t value u σ'.
Proof.
  intros Hstep [[Ht Hu]|Hu]; [|right; by eapply step_returned].
  destruct Hu as [Hu|Hu]; [|right; by eapply step_returned].
  apply step_inv in Hstep as (t' & p' & Heq & Ht'). unfold drained. rewrite Heq.
  destruct (decide (t' = t)) as [->|Hnt].
  - rewrite Ht in Ht'. destruct Ht' as [_ Hg]. by destruct (Hg u InCmd Hu).
  - rewrite (lookup_insert_ne _ t' t) by done.
    destruct (decide (t' = u)) as [->|Hnu].
    + rewrite Hu in Ht'. subst p'. right. apply lookup_insert_eq.
    + left. rewrite lookup_insert_ne by done. split; [done|by left].
Qed.

Lemma rtc_drained t value u σ σ' :
  rtc step σ σ' → drained t value u σ → drained t value u σ'.
Proof. induction 1; [done|]. intros. eauto using step_drained. Qed.

Lemma initial_exclusion σ : initial σ → exclusion σ.
Proof. intros Hi t p Ht Hp. by destruct (Hi t p Ht) as [c ->]. Qed.

Lemma step_exclusion σ σ' : step σ σ' → exclusion σ → exclusion σ'.
Proof.
  intros Hstep Hex.
  destruct Hstep as [t c σ H|t σ H Hs|t σ H Hg|t σ H|t v σ H Hg|t v σ H|t σ H];
    intros t' p Ht Hp u q Hu; cbn [threads move] in Ht, Hu;
    apply lookup_insert_Some in Ht as [[<- <-]|[Hnt Ht]];
    apply lookup_insert_Some in Hu as [[<- <-]|[Hnu Hu]];
    try done; try (by apply (Hex t' p Ht Hp u q Hu)).
  - by rewrite (Hg t' p Ht) in Hp.
  - destruct (Hg u q Hu) as [-> ->]. done.
  - destruct (Hg t' p Ht) as [_ Hq]. by rewrite Hq in Hp.
  - by apply (Hex t (HasExclusive v) H eq_refl u q Hu).
  - split; [done|]. intros _.
    by destruct (Hex t' p Ht Hp t (HasExclusive v) H) as [_ ->].
Qed.

Lemma reachable_exclusion σ : reachable σ → exclusion σ.
Proof.
  intros (σ0 & Hi%initial_exclusion & Hsteps).
  induction Hsteps; eauto using step_exclusion.
Qed.

Lemma step_switch_inv σ σ' t value :
  step σ σ' → threads σ !! t = Some (HasExclusive value) →
  threads σ' !! t = Some Switched → read_only_flag σ' = value.
Proof.
  destruct 1 as [t' c σ H|t' σ H Hs|t' σ H Hg|t' σ H|t' v σ H Hg|t' v σ H|t' σ H];
    intros Ht Ht'; cbn [threads move] in Ht';
    (destruct (decide (t' = t)) as [->|Hne];
     [rewrite H in Ht|rewrite lookup_insert_ne in Ht' by done; congruence]);
    try done.
  injection Ht as ->. cbn. by case_bool_decide.
Qed.

Lemma step_flag σ σ' :
  step σ σ' → read_only_flag σ' ≠ read_only_flag σ →
  ∃ t, threads σ !! t = Some (HasExclusive (read_only_flag σ')) ∧
       threads σ' !! t = Some Switched.
Proof.
  destruct 1 as [t' c σ H|t' σ H Hs|t' σ H Hg|t' σ H|t' v σ H Hg|t' v σ H|t' σ H];
    cbn [read_only_flag move]; try done.
  intros Hne. exists t'. case_bool_decide; [|done].
  split; [done|apply lookup_insert_eq].
Qed.

(** C9. In the model of the two [with] statements: a [set_read_only] call
    that was made while a command held the shared lock has the exclusive
    lock, or has returned, only after that command has returned; while a
    thread holds the exclusive lock no command holds the shared one; the
    flag changes only in the body of a [set_read_only] holding the exclusive
    lock, hence with no command in flight; and that body leaves the flag
    equal to the value passed, assigning it only if it differs. *)
Theorem set_read_only_waits_for_commands :
  (∀ σ σ' t value u,
     rtc step σ σ' →
     threads σ !! t = Some (Called (CallSetReadOnly value)) →
     threads σ !! u = Some InCmd →
     (threads σ' !! t = Some (HasExclusive value) ∨ threads σ' !! t = Some Switched
      ∨ threads σ' !! t = Some Returned) →
     threads σ' !! u = Some Returned) ∧
  (∀ σ t p u,
     reachable σ → threads σ !! t = Some p → holds_exclusive p = true →
     threads σ !! u ≠ Some InCmd) ∧
  (∀ σ σ',
     reachable σ → step σ σ' → read_only_flag σ' ≠ read_only_flag σ →
     ∃ t, threads σ !! t = Some (HasExclusive (read_only_flag σ')) ∧
          threads σ' !! t = Some Switched ∧
          ∀ u, threads σ !! u ≠ Some InCmd) ∧
  (∀ σ σ' t value,
     step σ σ' → threads σ !! t = Some (HasExclusive value) →
     threads σ' !! t = Some Switched →
     read_only_flag σ' = value ∧
     (read_only_flag σ = value → read_only_flag σ' = read_only_flag σ)).
Proof.
  split; [|split; [|split]].
  - intros σ σ' t value u Hsteps Ht Hu Ht'.
    destruct (rtc_drained t value u σ σ' Hsteps) as [[Hc _]|Hr]; [left; eauto| |done].
    rewrite Hc in Ht'. by destruct Ht' as [|[|]].
  - intros σ t p u Hr Ht Hp Hu. apply reachable_exclusion in Hr.
    by destruct (Hr t p Ht Hp u InCmd Hu).
  - intros σ σ' Hr Hstep Hne. destruct (step_flag σ σ' Hstep Hne) as (t & Ht & Ht').
    exists t. split; [done|]. split; [done|]. intros u Hu.
    apply reachable_exclusion in Hr. by destruct (Hr t _ Ht eq_refl u InCmd Hu).
  - intros σ σ' t value Hstep Ht Ht'.
    pose proof (step_switch_inv σ σ' t value Hstep Ht Ht') as ->. split; [done|].
    by intros ->.
Qed.

Lemma set_read_only_waits_for_commands_witness :
  ∃ σ', rtc step switching σ' ∧
        threads σ' !! 2%nat = Some Returned ∧ threads σ' !! 1%nat = Some Returned ∧
        read_only_flag σ' = true.
Proof.
  assert (rtc step switching
            (move 2 Returned
               (mkConc (<[2%nat := Switched]>
                          (threads (move 2 (HasExclusive true) (move 1 Returned switching))))
                  true))) as Hsteps.
  { eapply rtc_l; [by apply (step_cmd_return 1)|].
    eapply rtc_l.
    { apply (step_exclusive 2 true); [done|].
      intros u p Hu. cbn in Hu.
      apply lookup_insert_Some in Hu as [[_ <-]|[Hne Hu]]; [done|].
      apply lookup_insert_Some in Hu as [[? _]|[_ Hu]]; [done|].
      by apply lookup_singleton_Some in Hu as [_ <-]. }
    eapply rtc_l; [by apply (step_switch 2 true)|].
    eapply rtc_l; [by apply (step_set_return 2)|]. apply rtc_refl. }
  eexists. split; [exact Hsteps|]. split; [done|].
  split; [|done].
  destruct set_read_only_waits_for_commands as [H _].
  apply (H switching _ 2%nat true 1%nat Hsteps); [done|done|].
  right. right. done.
Defined.
(** * Further properties *)

(** ** Strings *)

Lemma append_cons a (s t : string) : String a s +:+ t = String a (s +:+ t).
Proof. done. Qed.

Lemma append_nil_r (s : string) : s +:+ "" = s.
Proof. induction s as [|a s IH]; [done|]. by rewrite append_cons, IH. Qed.

Lemma append_assoc (s1 s2 s3 : string) : (s1 +:+ s2) +:+ s3 = s1 +:+ (s2 +:+ s3).
Proof. induction s1 as [|a s1 IH]; [done|]. by rewrite !append_cons, IH. Qed.

Lemma chars_app (s1 s2 : string) : Py.chars (s1 +:+ s2) = Py.chars s1 ++ Py.chars s2.
Proof.
  induction s1 as [|a s1 IH]; [done|]. rewrite append_cons. cbn. by rewrite IH.
Qed.

Lemma rev_app_app (s t : string) : String.rev_app s t = String.rev s +:+ t.
Proof.
  unfold String.rev. revert t. induction s as [|a s IH]; intros t; [done|]. cbn.
  by rewrite (IH (String a t)), (IH (String a "")), append_assoc.
Qed.

Lemma rev_cons a (s : string) : String.rev (String a s) = String.rev s +:+ String a "".
Proof. unfold String.rev at 1. cbn. apply rev_app_app. Qed.

Lemma chars_rev (s : string) : Py.chars (String.rev s) = reverse (Py.chars s).
Proof.
  induction s as [|a s IH]; [done|].
  rewrite rev_cons, chars_app, IH. cbn [Py.chars]. by rewrite reverse_cons.
Qed.

Lemma prefix_nil (s : string) : String.prefix "" s = true.
Proof. by destruct s. Qed.

Lemma prefix_app (s1 s2 : string) : String.prefix s1 (s1 +:+ s2) = true.
Proof.
  induction s1 as [|a s1 IH]; [apply prefix_nil|]. rewrite append_cons. cbn.
  by destruct (ascii_dec a a).
Qed.

Lemma split_go_ne sep cur s : Py.split_go sep cur s ≠ [].
Proof. revert cur. induction s as [|a s IH]; intros cur; cbn; [done|]. by destruct (Ascii.eqb a sep). Qed.

Lemma join_cons sep x l : l ≠ [] → Py.join sep (x :: l) = x +:+ sep +:+ Py.join sep l.
Proof. by destruct l. Qed.

(** Joining the fields of a split gives the string back. *)
Lemma join_split_go sep cur s :
  Py.join (String sep "") (Py.split_go sep cur s) = String.rev cur +:+ s.
Proof.
  revert cur. induction s as [|a s IH]; intros cur; cbn [Py.split_go].
  { cbn. by rewrite append_nil_r. }
  destruct (Ascii.eqb a sep) eqn:E.
  - apply Ascii.eqb_eq in E as ->.
    rewrite join_cons by apply split_go_ne. by rewrite IH.
  - by rewrite IH, rev_cons, append_assoc.
Qed.

Lemma split_go_no_sep sep cur s :
  sep ∉ Py.chars cur →
  Forall (λ f, sep ∉ Py.chars f) (Py.split_go sep cur s).
Proof.
  revert cur. induction s as [|a s IH]; intros cur Hcur; cbn [Py.split_go].
  { constructor; [|constructor]. rewrite chars_rev. by rewrite elem_of_reverse. }
  destruct (Ascii.eqb a sep) eqn:E.
  - constructor; [rewrite chars_rev; by rewrite elem_of_reverse|].
    apply IH. cbn. apply not_elem_of_nil.
  - apply IH. cbn. rewrite not_elem_of_cons. split; [|done].
    intros ->. by rewrite Ascii.eqb_refl in E.
Qed.

(** X@. [_tags2Tuple] and the comma join are inverse to each other: joining
    the tags gives the string back, no tag holds a comma, and the tuple is
    empty for the empty string only. *)
Theorem tags2Tuple_round_trip (sTags : string) :
  Py.join "," (_tags2Tuple sTags) = sTags ∧
  Forall (λ tag, ","%char ∉ Py.chars tag) (_tags2Tuple sTags) ∧
  (_tags2Tuple sTags = [] ↔ sTags = "").
Proof.
  unfold _tags2Tuple. case_bool_decide as H.
  - subst. split; [done|]. split; [constructor|done].
  - split; [apply (join_split_go ","%char "")|].
    split; [apply split_go_no_sep, not_elem_of_nil|].
    split; [|done]. intros E. by apply split_go_ne in E.
Qed.

Lemma replace_char_cons c new a s :
  Py.replace (String c "") new (String a s) =
    if decide (c = a) then new +:+ Py.replace (String c "") new s
    else String a (Py.replace (String c "") new s).
Proof.
  unfold Py.replace. cbn [Py.replace_go String.prefix String.length Nat.pred].
  destruct (ascii_dec c a) as [->|Hne].
  - rewrite prefix_nil. by rewrite decide_True.
  - by rewrite decide_False.
Qed.

Lemma replace_char_app c new (s1 s2 : string) :
  Py.replace (String c "") new (s1 +:+ s2)
  = Py.replace (String c "") new s1 +:+ Py.replace (String c "") new s2.
Proof.
  induction s1 as [|a s1 IH]; [done|].
  rewrite append_cons, !replace_char_cons, IH.
  destruct (decide (c = a)); [by rewrite append_assoc|done].
Qed.

Lemma chars_replace_char c new s :
  c ∉ Py.chars new → c ∉ Py.chars (Py.replace (String c "") new s).
Proof.
  intros Hnew. induction s as [|a s IH]; [apply not_elem_of_nil|].
  rewrite replace_char_cons. destruct (decide (c = a)) as [->|Hne].
  - rewrite chars_app, not_elem_of_app. done.
  - cbn [Py.chars]. rewrite not_elem_of_cons. done.
Qed.

Lemma chars_lstrip a s : a ∈ Py.chars (Py.lstrip s) → a ∈ Py.chars s.
Proof.
  induction s as [|b s IH]; [done|]. cbn [Py.lstrip].
  destruct (Py.isspace b); [|done]. intros H. cbn [Py.chars]. right. by apply IH.
Qed.

Lemma chars_rstrip a s : a ∈ Py.chars (Py.rstrip s) → a ∈ Py.chars s.
Proof.
  induction s as [|b s IH]; [done|]. cbn [Py.rstrip Py.chars].
  destruct (Py.rstrip s) as [|b' r] eqn:E.
  - destruct (Py.isspace b); [by intros ?%elem_of_nil|].
    cbn [Py.chars]. intros [->|?%elem_of_nil]%elem_of_cons; [left|done].
  - cbn [Py.chars]. intros [->|H]%elem_of_cons; [left|right]. by apply IH.
Qed.

Lemma rstrip_cons a s :
  Py.rstrip (String a s) =
    match Py.rstrip s with
    | "" => if Py.isspace a then "" else String a ""
    | r => String a r
    end.
Proof. done. Qed.

Lemma rstrip_rstrip s : Py.rstrip (Py.rstrip s) = Py.rstrip s.
Proof.
  induction s as [|b s IH]; [done|]. rewrite rstrip_cons.
  destruct (Py.rstrip s) as [|b' r] eqn:E.
  - destruct (Py.isspace b) eqn:Eb; [done|]. rewrite rstrip_cons. cbn [Py.rstrip].
    by rewrite Eb.
  - rewrite rstrip_cons. by rewrite IH.
Qed.

Lemma lstrip_head s :
  Py.lstrip s = "" ∨ ∃ a r, Py.lstrip s = String a r ∧ Py.isspace a = false.
Proof.
  induction s as [|b s IH]; [by left|]. cbn [Py.lstrip].
  destruct (Py.isspace b) eqn:Eb; [done|]. right. by eexists _, _.
Qed.

Lemma rstrip_head a r :
  Py.isspace a = false → ∃ r', Py.rstrip (String a r) = String a r'.
Proof.
  intros Ha. cbn [Py.rstrip]. destruct (Py.rstrip r); [rewrite Ha|]; by eexists.
Qed.

Lemma strip_strip s : Py.strip (Py.strip s) = Py.strip s.
Proof.
  unfold Py.strip. destruct (lstrip_head s) as [->|(a & r & -> & Ha)]; [done|].
  destruct (rstrip_head a r Ha) as [r' E]. rewrite E.
  cbn [Py.lstrip]. rewrite Ha, <- E. apply rstrip_rstrip.
Qed.

(** X@. The configuration handed to [--config] is one line, whatever the
    filter and the locking type are: it holds no line feed, and no white
    space at either end. *)
Theorem buildConfig_one_line (dev_filter locking_type : string) :
  ("010"%char ∉ Py.chars (_buildConfig dev_filter locking_type)) ∧
  Py.strip (_buildConfig dev_filter locking_type) = _buildConfig dev_filter locking_type.
Proof.
  unfold _buildConfig. split; [|apply strip_strip].
  intros H. unfold Py.strip in H. apply chars_rstrip, chars_lstrip in H.
  revert H. apply chars_replace_char. cbn.
  rewrite not_elem_of_cons. split; [done|apply not_elem_of_nil].
Qed.

Lemma split_go_no sep cur s :
  sep ∉ Py.chars s → Py.split_go sep cur s = [String.rev cur +:+ s].
Proof.
  revert cur. induction s as [|a s IH]; intros cur Hs; cbn [Py.split_go].
  { by rewrite append_nil_r. }
  cbn [Py.chars] in Hs. apply not_elem_of_cons in Hs as [Hne Hs].
  destruct (Ascii.eqb a sep) eqn:E; [by apply Ascii.eqb_eq in E|].
  by rewrite IH, rev_cons, append_assoc.
Qed.

Lemma last_cons {A} (x : A) l d : l ≠ [] → List.last (x :: l) d = List.last l d.
Proof. by destruct l. Qed.

Lemma last_split_go sep cur s g :
  sep ∉ Py.chars g → List.last (Py.split_go sep cur (s +:+ String sep g)) "" = g.
Proof.
  intros Hg. revert cur. induction s as [|a s IH]; intros cur.
  - change ("" +:+ String sep g) with (String sep g). cbn [Py.split_go].
    rewrite Ascii.eqb_refl, last_cons by apply split_go_ne.
    by rewrite split_go_no.
  - rewrite append_cons. cbn [Py.split_go]. destruct (Ascii.eqb a sep); [|apply IH].
    rewrite last_cons by apply split_go_ne. apply IH.
Qed.

(** [os.path.basename] of a directory, a slash and a name without
    slash. *)
Lemma basename_join dir name :
  "/"%char ∉ Py.chars name → Py.basename (dir +:+ "/" +:+ name) = name.
Proof. intros H. unfold Py.basename, Py.split. by apply last_split_go. Qed.

(** X@. A multipath guid and the device name of its PV determine each
    other: [_fqpvname] puts a guid under [/dev/mapper], leaves the resulting
    name as it is when applied again, and [PV.fromlvm] reads the guid back
    from a row of pvs that carries this name. *)
Theorem fqpvname_guid_round_trip (guid : string) (fields : list string) (s : Sys) :
  guid ≠ "" → "/"%char ∉ Py.chars guid → length fields = PV_FIELDS_LEN →
  ∃ name pv,
    _fqpvname guid s = (Ok name, s) ∧ name = "/dev/mapper/" +:+ guid ∧
    _fqpvname name s = (Ok name, s) ∧
    PV.fromlvm (<[1%nat := name]> fields) = Ok pv ∧
    PV.name pv = name ∧ PV.guid pv = guid.
Proof.
  intros Hne Hslash Hlen. exists ("/dev/mapper/" +:+ guid).
  do 12 (destruct fields as [|? fields]; try discriminate Hlen).
  eexists. split.
  { destruct guid as [|a g]; [done|]. cbn [Py.chars] in Hslash.
    apply not_elem_of_cons in Hslash as [Ha _].
    unfold _fqpvname. destruct (Ascii.eqb a "/") eqn:E.
    { apply Ascii.eqb_eq in E. congruence. }
    unfold Py.path_join. cbn [String.prefix].
    destruct (ascii_dec "/" a) as [Heq|_]; [by destruct Ha|].
    change (String.length PV_PREFIX =? 0)%nat with false.
    change (String.prefix "/" (String.rev PV_PREFIX)) with false.
    cbn match. by rewrite <- append_assoc. }
  split; [done|]. split; [done|]. split; [done|]. split; [done|].
  cbn [PV.guid]. apply (basename_join "/dev/mapper"). done.
Qed.

Lemma fqpvname_guid_round_trip_witness :
  ∃ pv, PV.fromlvm ["uuid-pv0"; "/dev/mapper/36001405a"; "107374182400"; "vg0"; "uuid-1";
                    "1048576"; "800"; "0"; "2"; "107374182400"; "2"] = Ok pv ∧
        PV.guid pv = "36001405a".
Proof.
  destruct (fqpvname_guid_round_trip "36001405a"
              ["uuid-pv0"; ""; "107374182400"; "vg0"; "uuid-1";
               "1048576"; "800"; "0"; "2"; "107374182400"; "2"] S1_sys)
    as (name & pv & _ & -> & _ & Hpv & _ & Hguid).
  - done.
  - vm_compute. intros H. repeat (apply elem_of_cons in H as [H|H]; [discriminate H|]).
    by apply elem_of_nil in H.
  - done.
  - exists pv. split; [exact Hpv|exact Hguid].
Defined.

Lemma prefix_inv (p m : string) : String.prefix p m = true → ∃ rest, m = p +:+ rest.
Proof.
  revert m. induction p as [|a p IH]; intros m; [by exists m|].
  destruct m as [|b m]; [done|]. cbn [String.prefix].
  destruct (ascii_dec a b) as [->|]; [|done].
  intros (rest & ->)%IH. by exists rest.
Qed.

Lemma chars_inj (s1 s2 : string) : Py.chars s1 = Py.chars s2 → s1 = s2.
Proof.
  revert s2. induction s1 as [|a s1 IH]; intros [|b s2]; try done.
  cbn [Py.chars]. intros [= -> H]. f_equal. by apply IH.
Qed.

Lemma append_inv_r (s1 s2 t : string) : s1 +:+ t = s2 +:+ t → s1 = s2.
Proof.
  intros H. apply chars_inj. apply (f_equal Py.chars) in H.
  rewrite !chars_app in H. by apply app_inv_tail in H.
Qed.

Lemma append_inv_l (s t1 t2 : string) : s +:+ t1 = s +:+ t2 → t1 = t2.
Proof. induction s as [|a s IH]; [done|]. rewrite !append_cons. intros [= H]. by apply IH. Qed.

(** Doubling the dashes loses nothing. *)
Lemma replace_dash_inj (s1 s2 : string) :
  Py.replace "-" "--" s1 = Py.replace "-" "--" s2 → s1 = s2.
Proof.
  revert s2. induction s1 as [|a1 s1 IH]; intros [|a2 s2]; try done.
  - rewrite replace_char_cons. by destruct (decide _).
  - rewrite replace_char_cons. by destruct (decide _).
  - rewrite !replace_char_cons.
    destruct (decide ("-"%char = a1)) as [<-|H1], (decide ("-"%char = a2)) as [<-|H2].
    + intros H%append_inv_l. f_equal. by apply IH.
    + intros [= <- _]. done.
    + intros [= -> _]. done.
    + intros [= -> H]. f_equal. by apply IH.
Qed.

(** X@. [_removeVgMapping] asks for the removal of the mappings that start
    with the name of the VG, its dashes doubled, and one dash, and of no
    other: every mapping of an LV of the VG is among them, two VGs never have
    the same prefix, and, the test being a prefix test, the mappings of a VG
    whose name is this name followed by a dash and more are among them
    too. *)
Theorem removeVgMapping_selects (vgName : string) (mappings : list string) :
  (∀ mapping, mapping ∈ _removeVgMapping vgName mappings ↔
     mapping ∈ mappings ∧ ∃ rest, mapping = Py.replace "-" "--" vgName +:+ "-" +:+ rest) ∧
  (∀ lvName, getLvDmName vgName lvName ∈ mappings →
     getLvDmName vgName lvName ∈ _removeVgMapping vgName mappings) ∧
  (∀ vgName', getLvDmName vgName' "" = getLvDmName vgName "" → vgName' = vgName) ∧
  (∀ more lvName, getLvDmName (vgName +:+ "-" +:+ more) lvName ∈ mappings →
     getLvDmName (vgName +:+ "-" +:+ more) lvName ∈ _removeVgMapping vgName mappings).
Proof.
  assert (∀ mapping, mapping ∈ _removeVgMapping vgName mappings ↔
     mapping ∈ mappings ∧ ∃ rest, mapping = Py.replace "-" "--" vgName +:+ "-" +:+ rest)
    as Hsel.
  { intros m. unfold _removeVgMapping. cbn zeta. rewrite list_elem_of_filter.
    unfold getLvDmName. rewrite append_nil_r. split.
    - intros [(rest & ->)%prefix_inv Hm]. split; [done|]. exists rest.
      by rewrite append_assoc.
    - intros [Hm (rest & ->)]. split; [|done]. rewrite <- append_assoc. apply prefix_app. }
  split; [exact Hsel|]. split; [|split].
  - intros lvName H. apply Hsel. split; [done|]. by exists lvName.
  - unfold getLvDmName. intros vg' H. apply append_inv_r in H. by apply replace_dash_inj.
  - intros more lvName H. apply Hsel. split; [done|].
    unfold getLvDmName. rewrite !replace_char_app.
    exists ("-" +:+ Py.replace "-" "--" more +:+ "-" +:+ lvName).
    rewrite !append_assoc. done.
Qed.

(** ** Devices of the VGs a command names *)

Lemma getVGDevs_go_nil vgs vgNames devices :
  (∃ name, name ∈ vgNames ∧ ∀ vg, vgs !! name ≠ Some (Fresh vg)) →
  _getVGDevs_go vgs vgNames devices = [].
Proof.
  intros (name & Hin & Hname). revert devices.
  induction vgNames as [|n vgNames IH]; intros devices; [by apply elem_of_nil in Hin|].
  cbn [_getVGDevs_go]. apply elem_of_cons in Hin as [<-|Hin].
  - destruct (vgs !! name) as [[vg| |]|] eqn:E; try done. by destruct (Hname vg).
  - destruct (vgs !! n) as [[vg| |]|]; try done. by apply IH.
Qed.

Lemma getVGDevs_go_all vgs vgNames devices :
  (∀ name, name ∈ vgNames → ∃ vg, vgs !! name = Some (Fresh vg)) →
  ∃ parts, Forall2 (λ name pvs, ∃ vg, vgs !! name = Some (Fresh vg) ∧ VG.pv_name vg = pvs)
             vgNames parts ∧
           _getVGDevs_go vgs vgNames devices = devices ++ concat parts.
Proof.
  revert devices. induction vgNames as [|n vgNames IH]; intros devices Hall.
  { exists []. split; [constructor|]. cbn. by rewrite (right_id_L [] (++)). }
  destruct (Hall n) as [vg Hvg]; [left|]. cbn [_getVGDevs_go]. rewrite Hvg.
  destruct (IH (devices ++ VG.pv_name vg)) as (parts & Hparts & ->).
  { intros name Hname. apply Hall. by right. }
  exists (VG.pv_name vg :: parts). split; [constructor; [by exists vg|done]|].
  cbn [concat]. by rewrite (assoc_L (++)).
Qed.

(** X@. [_getVGDevs] gives the PVs of the VGs named, in order, when the cache
    holds a fresh record for every one of them, and no device at all as soon
    as one of them is missing, stale or unreadable; it never changes the
    state. With no device, a command falls back on the cached filter. *)
Theorem getVGDevs_all_or_nothing (vgNames : list string) (s : Sys) :
  ∃ devices,
    _getVGDevs vgNames s = (Ok devices, s) ∧
    ((∀ name, name ∈ vgNames → ∃ vg, _vgs (cache s) !! name = Some (Fresh vg)) →
     ∃ parts,
       Forall2 (λ name pvs, ∃ vg, _vgs (cache s) !! name = Some (Fresh vg) ∧
                                  VG.pv_name vg = pvs) vgNames parts ∧
       devices = concat parts) ∧
    ((∃ name, name ∈ vgNames ∧ ∀ vg, _vgs (cache s) !! name ≠ Some (Fresh vg)) →
     devices = [] ∧
     ∀ cmd0 cmd_rest,
       _addExtraCfg (cmd0 :: cmd_rest) devices s =
         (dev_filter ← _getCachedFilter;
          mret (with_config (EXT_LVM (world s)) cmd0 cmd_rest dev_filter
                  (_read_only (cache s)))) s).
Proof.
  eexists. split; [reflexivity|]. cbn beta. split.
  - intros Hall. destruct (getVGDevs_go_all _ _ [] Hall) as (parts & Hparts & ->).
    by exists parts.
  - intros Hsome. rewrite getVGDevs_go_nil by done. split; [done|].
    intros cmd0 cmd_rest. unfold _addExtraCfg. rewrite bool_decide_false by (by intros ?).
    munfold. unfold _getCachedFilter. munfold.
    destruct (_filterStale (cache s)); reflexivity.
Qed.

(** ** What a reload makes of the cache *)

(** A name is in the scope of a reload when the reload names it, or names
    nothing. *)
Lemma elem_of_keys {K A} `{Countable K} (m : gmap K A) k : k ∈ keys m ↔ is_Some (m !! k).
Proof.
  unfold keys. rewrite list_elem_of_fmap. split.
  - intros ([k' a] & -> & Hin). apply elem_of_map_to_list in Hin. by eexists.
  - intros [a Ha]. exists (k, a). split; [done|]. by apply elem_of_map_to_list.
Qed.

Lemma reloadvgs_lines_state lines acc s res s' :
  for_ lines _reloadvgs_line acc s = (res, s') → s' = s.
Proof.
  revert acc. induction lines as [|line lines IH]; intros acc; cbn [for_].
  { by intros [= _ <-]. }
  destruct (decide (length (line_fields line) = VG_FIELDS_LEN)) as [Hlen|Hlen].
  - erewrite bind_Ok by (by apply reloadvgs_line_good). apply IH.
  - erewrite bind_Raise by (by apply reloadvgs_line_bad). by intros [= _ <-].
Qed.

(** The vgs reload touches the VG map, its stale flag and the set of VGs
    with fresh LVs, and nothing else. *)
Lemma reloadvgs_locked_touches vgName r s res s' :
  _reloadvgs_locked vgName r s = (res, s') →
  ∃ st fl m, s' = mkSys (set_vgs st fl m (cache s)) (world s).
Proof.
  unfold _reloadvgs_locked.
  destruct (reloadvgs_failed_eq (normalize_args vgName) r s) as (m & E1).
  erewrite bind_Ok by exact E1.
  unfold mbind at 1, M_bind at 1.
  destruct (for_ (out r) _reloadvgs_line [] _) as [[groups|e] s1] eqn:E2;
    apply reloadvgs_lines_state in E2 as ->.
  2:{ intros [= <- <-]. by eexists _, _, _. }
  unfold mbind at 1, M_bind at 1.
  destruct (for_ groups _reloadvgs_group ∅ _) as [[upd|e] s2] eqn:E3;
    apply for_vgs_delta in E3 as (d & -> & _ & _).
  2:{ intros [= <- <-]. cbn. by eexists _, _, _. }
  munfold. intros [= <- <-]. cbn. by eexists _, _, _.
Qed.

(** The vgs reload, when it returns: the records it returns are fresh and
    sit in the cache; a name in its scope that it does not return is gone
    from the cache, whatever was there and whatever the return code of the
    command; the other slots are as they were. *)
Lemma reloadvgs_locked_eff vgName r s upd s' :
  _reloadvgs_locked vgName r s = (Ok upd, s') →
  (∀ k e, upd !! k = Some e → ∃ vg, e = Fresh vg ∧ VG.name vg = k) ∧
  (∀ k, _vgs (cache s') !! k =
          match upd !! k with
          | Some e => Some e
          | None =>
              if bool_decide (normalize_args vgName = [] ∨ k ∈ normalize_args vgName)
              then None else _vgs (cache s) !! k
          end) ∧
  _stalevg (cache s') = (if truthy vgName then _stalevg (cache s) else false).
Proof.
  intros H. split.
  { intros k e Hk. destruct (reloadvgs_locked_unknown _ _ _ _ _ H k e Hk) as (vg & ? & ? & _).
    by exists vg. }
  revert H. unfold _reloadvgs_locked.
  set (vgNames := normalize_args vgName).
  assert (∃ m, _reloadvgs_failed vgNames r s =
                 (Ok tt, mkSys (set_vgs (_stalevg (cache s)) (_freshlv (cache s)) m (cache s))
                           (world s)) ∧
               ∀ k, k ∉ vgNames → vgNames ≠ [] → m !! k = _vgs (cache s) !! k) as (m & E1 & Hm).
  { unfold _reloadvgs_failed. destruct (negb (rc r =? 0)); munfold.
    - eexists. split; [done|]. intros k Hk Hne.
      rewrite (bool_decide_true (vgNames ≠ [])) by done.
      by rewrite lookup_mark_unreadable, bool_decide_false.
    - exists (_vgs (cache s)). by rewrite set_vgs_id, Sys_eta. }
  erewrite bind_Ok by exact E1. intros H.
  apply bind_inv_Ok in H as (groups & s1 & E2 & H).
  apply reloadvgs_lines_state in E2 as ->.
  apply bind_inv_Ok in H as (upd' & s2 & E3 & H).
  apply for_vgs_delta in E3 as (d & -> & Hupd & _).
  specialize (Hupd upd' eq_refl). rewrite (right_id_L ∅ (∪)) in Hupd. subst upd'.
  munfold. injection H as <- <-. cbn [cache _vgs _stalevg set_vgs]. split; [|done].
  intros k. rewrite lookup_remove_stale.
  destruct (d !! k) as [e|] eqn:Ed.
  { rewrite bool_decide_false by (by intros [_ ?]). by apply lookup_union_Some_l. }
  rewrite lookup_union_r by done.
  destruct (decide (vgNames = [])) as [Hnil|Hne].
  - rewrite (bool_decide_false (vgNames ≠ [])) by (by intros ?).
    rewrite (bool_decide_true (_ ∨ _)) by (by left).
    case_bool_decide as Hk; [done|].
    destruct (m !! k) as [e|] eqn:Em; [|done]. destruct Hk. split; [|done].
    apply elem_of_keys. rewrite lookup_union_r by done. by eexists.
  - rewrite (bool_decide_true (vgNames ≠ [])) by done.
    destruct (decide (k ∈ vgNames)) as [Hin|Hin].
    + rewrite bool_decide_true by done. by rewrite bool_decide_true by (by right).
    + rewrite bool_decide_false by (by intros [? _]).
      rewrite bool_decide_false by (intros [?|?]; done). by apply Hm.
Qed.

(** ** What the accessors raise *)

Lemma for_raise_inv {A B} (l : list A) (body : A → B → M B) acc s e s' :
  for_ l body acc s = (Raise e, s') →
  ∃ x acc0 s0, x ∈ l ∧ body x acc0 s0 = (Raise e, s').
Proof.
  revert acc s. induction l as [|x l IH]; intros acc s; cbn [for_]; [done|].
  intros H. apply bind_inv_Raise in H as [H|(acc1 & s1 & _ & H)].
  - exists x, acc, s. split; [left|done].
  - apply IH in H as (y & acc0 & s0 & Hy & H). exists y, acc0, s0. split; [by right|done].
Qed.

Lemma reloadpvs_line_raises line upd s e s' :
  _reloadpvs_line line upd s = (Raise e, s') → e = InvalidOutputLine "pvs" line.
Proof.
  destruct (decide (length (line_fields line) = PV_FIELDS_LEN)) as [Hlen|Hlen].
  - destruct (reloadpvs_line_good line upd s Hlen) as (pv & _ & _ & ->).
    by case_bool_decide.
  - rewrite reloadpvs_line_bad by done. by intros [= <- _].
Qed.

Lemma VG_fromlvm_raises fields pv_names e :
  VG.fromlvm fields pv_names = Raise e → e = TypeError.
Proof.
  unfold VG.fromlvm. do 15 (destruct fields as [|? fields]; try by intros [= <-]).
  unfold VG.attr_of.
  destruct (Py.chars _) as [|? [|? [|? [|? [|? [|? ?]]]]]]; by intros [= <-].
Qed.

Lemma LV_fromlvm_raises fields e : LV.fromlvm fields = Raise e → e = TypeError.
Proof.
  unfold LV.fromlvm. do 9 (destruct fields as [|? fields]; try by intros [= <-]).
  unfold LV.attr_of.
  destruct (Py.chars _) as [|? [|? [|? [|? [|? [|? [|? [|? ?]]]]]]]]; by intros [= <-].
Qed.

Lemma reloadvgs_group_raises g upd s e s' :
  _reloadvgs_group g upd s = (Raise e, s') → e = TypeError ∨ e = ValueError.
Proof.
  destruct g as [u [fields pv_names]]. rewrite reloadvgs_group_eq.
  destruct (VG.fromlvm fields pv_names) as [vg|e0] eqn:E.
  - destruct (Py.int _); [done|]. intros [= <- _]. by right.
  - intros [= <- _]. left. by eapply VG_fromlvm_raises.
Qed.

Lemma reloadlvs_line_raises line upd s e s' :
  _reloadlvs_line line upd s = (Raise e, s') →
  e = InvalidOutputLine "lvs" line ∨ e = TypeError.
Proof.
  destruct (decide (length (line_fields line) = LV_FIELDS_LEN)) as [Hlen|Hlen].
  - rewrite reloadlvs_line_eq by done.
    destruct (LV.fromlvm _) as [lv|e0] eqn:E.
    + by case_bool_decide.
    + intros [= <- _]. right. by eapply LV_fromlvm_raises.
  - rewrite reloadlvs_line_bad by done. intros [= <- _]. by left.
Qed.

Lemma reloadpvs_raises pvName s e s' :
  _reloadpvs pvName s = (Raise e, s') → ∃ line, e = InvalidOutputLine "pvs" line.
Proof.
  unfold _reloadpvs. intros H. apply bind_inv_Raise in H as [H|(r & s1 & _ & H)].
  { destruct (cmd_frame "pvs" (LVM_FLAGS ++ ["-o"; PV_FIELDS] ++ normalize_args pvName) [] s)
      as (r & s1 & Hcmd & _).
    change (PVS_CMD ++ normalize_args pvName)
      with ("pvs" :: LVM_FLAGS ++ ["-o"; PV_FIELDS] ++ normalize_args pvName) in H.
    congruence. }
  unfold _reloadpvs_locked in H. destruct (negb (rc r =? 0)).
  - munfold. by destruct (mark_unreadable _ _ _).
  - apply bind_inv_Raise in H as [H|(upd & s2 & _ & H)]; [|by munfold].
    apply for_raise_inv in H as (line & acc0 & s0 & _ & H).
    exists line. by eapply reloadpvs_line_raises.
Qed.

Lemma reloadvgs_inv vgName s res s' :
  _reloadvgs vgName s = (res, s') →
  ∃ r s1, same_cache_data (cache s) (cache s1) ∧ same_host (world s) (world s1) ∧
          (∃ cmds, spawned (world s1) = spawned (world s) ++ cmds ∧ cmds ≠ [] ∧
                   Forall (λ c, nth 1 c "" = "vgs") cmds) ∧
          _reloadvgs_locked vgName r s1 = (res, s').
Proof.
  unfold _reloadvgs, _getVGDevs. unfold mbind at 1, M_bind at 1, gets at 1.
  unfold mbind at 1, M_bind at 1.
  match goal with |- context [cmd (VGS_CMD ++ ?a) ?d s] =>
    destruct (cmd_frame "vgs" (LVM_FLAGS ++ ["-o"; VG_FIELDS] ++ a) d s)
      as (r & s1 & Hcmd & Hc & Hh & cmds & Hsp & Hne & Hall);
    change (VGS_CMD ++ a) with ("vgs" :: LVM_FLAGS ++ ["-o"; VG_FIELDS] ++ a) end.
  rewrite Hcmd. intros H. exists r, s1. split; [done|]. split; [done|]. split; [|done].
  exists cmds. split; [done|]. split; [done|].
  eapply Forall_impl; [exact Hall|]. by intros c [conf ->].
Qed.

Lemma reloadvgs_raises vgName s e s' :
  _reloadvgs vgName s = (Raise e, s') →
  (∃ line, e = InvalidOutputLine "vgs" line) ∨ e = TypeError ∨ e = ValueError.
Proof.
  intros H. apply reloadvgs_inv in H as (r & s1 & _ & _ & _ & H).
  unfold _reloadvgs_locked in H.
  destruct (reloadvgs_failed_eq (normalize_args vgName) r s1) as (m & E1).
  erewrite bind_Ok in H by exact E1.
  apply bind_inv_Raise in H as [H|(groups & s2 & _ & H)].
  { apply for_raise_inv in H as (line & acc0 & s0 & _ & H). left. exists line.
    destruct (decide (length (line_fields line) = VG_FIELDS_LEN)) as [Hlen|Hlen].
    - by rewrite reloadvgs_line_good in H.
    - rewrite reloadvgs_line_bad in H by done. by injection H as <- _. }
  apply bind_inv_Raise in H as [H|(upd & s3 & _ & H)]; [|by munfold].
  apply for_raise_inv in H as (g & acc0 & s0 & _ & H). right.
  by eapply reloadvgs_group_raises.
Qed.

Lemma reloadlvs_inv vgName lvNames s res s' :
  _reloadlvs vgName lvNames s = (res, s') →
  ∃ r s1, same_cache_data (cache s) (cache s1) ∧ same_host (world s) (world s1) ∧
          (∃ cmds, spawned (world s1) = spawned (world s) ++ cmds ∧ cmds ≠ [] ∧
                   Forall (λ c, nth 1 c "" = "lvs") cmds) ∧
          _reloadlvs_locked vgName (normalize_args lvNames) r s1 = (res, s').
Proof.
  unfold _reloadlvs, _getVGDevs. unfold mbind at 1, M_bind at 1, gets at 1.
  unfold mbind at 1, M_bind at 1.
  match goal with |- context [cmd (LVS_CMD ++ ?a) ?d s] =>
    destruct (cmd_frame "lvs" (LVM_FLAGS ++ ["-o"; LV_FIELDS] ++ a) d s)
      as (r & s1 & Hcmd & Hc & Hh & cmds & Hsp & Hne & Hall);
    change (LVS_CMD ++ a) with ("lvs" :: LVM_FLAGS ++ ["-o"; LV_FIELDS] ++ a) end.
  rewrite Hcmd. intros H. exists r, s1. split; [done|]. split; [done|]. split; [|done].
  exists cmds. split; [done|]. split; [done|].
  eapply Forall_impl; [exact Hall|]. by intros c [conf ->].
Qed.

Lemma reloadlvs_raises vgName lvNames s e s' :
  _reloadlvs vgName lvNames s = (Raise e, s') →
  (∃ line, e = InvalidOutputLine "lvs" line) ∨ e = TypeError.
Proof.
  intros H. apply reloadlvs_inv in H as (r & s1 & _ & _ & _ & H).
  unfold _reloadlvs_locked in H. destruct (negb (rc r =? 0)).
  - munfold. by destruct (mark_unreadable _ _ _).
  - apply bind_inv_Raise in H as [H|(upd & s2 & _ & H)]; [|by munfold].
    apply for_raise_inv in H as (line & acc0 & s0 & _ & H).
    apply reloadlvs_line_raises in H as [->| ->]; [left; by eexists|by right].
Qed.

(** X@. What the three public accessors can raise, and nothing else: [getPV]
    raises [IndexError] for the empty name, [InaccessiblePhysDev] and the
    invalid line of pvs; [getVG] raises [VolumeGroupDoesNotExist], the
    invalid line of vgs, [TypeError] for an attr string that is too short
    and [ValueError] for a pv_count that is no number; [getLV] raises
    [LogicalVolumeDoesNotExistError], the invalid line of lvs and
    [TypeError]. *)
Theorem accessors_raise_only :
  (∀ pvName s e s',
     getPV pvName s = (Raise e, s') →
     (e = IndexError ∧ pvName = "") ∨ e = InaccessiblePhysDev pvName ∨
     ∃ line, e = InvalidOutputLine "pvs" line) ∧
  (∀ vgName s e s',
     getVG vgName s = (Raise e, s') →
     e = VolumeGroupDoesNotExist vgName ∨ (∃ line, e = InvalidOutputLine "vgs" line) ∨
     e = TypeError ∨ e = ValueError) ∧
  (∀ vgName lvName s e s',
     getLV vgName lvName s = (Raise e, s') →
     e = LogicalVolumeDoesNotExistError (vgName +:+ "/" +:+ str_opt lvName) ∨
     (∃ line, e = InvalidOutputLine "lvs" line) ∨ e = TypeError).
Proof.
  split; [|split].
  - intros pvName s e s' H. unfold getPV in H.
    apply bind_inv_Raise in H as [H|(fq & s1 & _ & H)].
    { left. destruct pvName as [|a p]; [by injection H as <-|].
      unfold _fqpvname in H. by destruct (Ascii.eqb a "/"). }
    apply bind_inv_Raise in H as [H|(pv & s2 & _ & H)].
    + right. right. unfold getPv in H.
      apply bind_inv_Raise in H as [H|(pv & s2 & _ & H)]; [done|].
      destruct (missing_or_stale pv); [|by munfold].
      apply bind_inv_Raise in H as [H|([] & s3 & _ & H)]; [done|].
      apply bind_inv_Raise in H as [H|(pvs & s4 & _ & H)]; [|done].
      by apply reloadpvs_raises in H.
    + right. left. destruct pv; [done|]. by injection H as <-.
  - intros vgName s e s' H. unfold getVG in H.
    apply bind_inv_Raise in H as [H|(vg & s2 & _ & H)].
    + right. unfold getVg in H.
      apply bind_inv_Raise in H as [H|(vg & s2 & _ & H)]; [done|].
      destruct (missing_or_stale vg); [|by munfold].
      apply bind_inv_Raise in H as [H|([] & s3 & _ & H)]; [done|].
      apply bind_inv_Raise in H as [H|(vgs & s4 & _ & H)]; [|done].
      by apply reloadvgs_raises in H.
    + left. destruct vg; [done|]. by injection H as <-.
  - intros vgName lvName s e s' H. unfold getLV in H.
    apply bind_inv_Raise in H as [H|(lv & s2 & _ & H)].
    + right. unfold getLv in H. destruct (str_truthy lvName).
      * apply bind_inv_Raise in H as [H|(lv & s2 & _ & H)]; [done|].
        destruct (missing_or_stale lv); [|by munfold].
        apply bind_inv_Raise in H as [H|([] & s3 & _ & H)]; [done|].
        apply bind_inv_Raise in H as [H|(lvs & s4 & _ & H)]; [|done].
        by apply reloadlvs_raises in H.
      * apply bind_inv_Raise in H as [H|(nr & s2 & _ & H)]; [done|].
        apply bind_inv_Raise in H as [H|(lvs & s3 & _ & H)]; [|done].
        destruct nr; [|by munfold].
        apply bind_inv_Raise in H as [H|([] & s4 & _ & H)]; [done|].
        by apply reloadlvs_raises in H.
    + left. destruct (lookup_falsy lv); [|done]. by injection H as <-.
Qed.

(** ** Volume groups: what a reload leaves, what [getVG] returns *)

Lemma reloadvgs_eff vgName s upd s' :
  _reloadvgs vgName s = (Ok upd, s') →
  (∀ k e, upd !! k = Some e → ∃ vg, e = Fresh vg ∧ VG.name vg = k) ∧
  (∀ k, _vgs (cache s') !! k =
          match upd !! k with
          | Some e => Some e
          | None =>
              if bool_decide (normalize_args vgName = [] ∨ k ∈ normalize_args vgName)
              then None else _vgs (cache s) !! k
          end) ∧
  _stalevg (cache s') = (if truthy vgName then _stalevg (cache s) else false).
Proof.
  intros H. apply reloadvgs_inv in H as (r & s1 & Hc & _ & _ & H).
  apply reloadvgs_locked_eff in H as (H1 & H2 & H3).
  apply same_cache_data_fields in Hc as (_ & _ & _ & Hsv & _ & _ & Hvgs & _).
  rewrite <- Hvgs, <- Hsv. done.
Qed.

(** X@. A vgs reload that returns leaves no stale and no unreadable slot in
    its scope, whatever the return code of the command was: the names it
    was asked about (all names, when it was asked about none) hold what the
    command reported, as fresh records, or are gone from the cache; the slots
    out of its scope keep what they held unless the command reported them. A
    reload of everything leaves exactly the reported records. *)
Theorem reloadvgs_leaves_fresh_or_nothing (vgName : names) (s s' : Sys)
    (updatedVGs : gmap string (entry VG.t)) :
  _reloadvgs vgName s = (Ok updatedVGs, s') →
  (∀ k e, updatedVGs !! k = Some e → ∃ vg, e = Fresh vg ∧ VG.name vg = k) ∧
  (∀ k, normalize_args vgName = [] ∨ k ∈ normalize_args vgName →
        _vgs (cache s') !! k = updatedVGs !! k) ∧
  (∀ k, normalize_args vgName ≠ [] → k ∉ normalize_args vgName →
        _vgs (cache s') !! k
        = match updatedVGs !! k with Some e => Some e | None => _vgs (cache s) !! k end) ∧
  (normalize_args vgName = [] → _vgs (cache s') = updatedVGs) ∧
  _stalevg (cache s') = (if truthy vgName then _stalevg (cache s) else false).
Proof.
  intros H. apply reloadvgs_eff in H as (H1 & H2 & H3).
  split; [done|]. split; [|split; [|split; [|done]]].
  - intros k Hk. rewrite H2, bool_decide_true by done. by destruct (updatedVGs !! k).
  - intros k Hne Hk. rewrite H2, bool_decide_false; [done|]. by intros [?|?].
  - intros Hnil. apply map_eq. intros k. rewrite H2, bool_decide_true by (by left).
    by destruct (updatedVGs !! k).
Qed.

Lemma getVg_miss vgName s :
  missing_or_stale (_vgs (cache s) !! vgName) = true →
  getVg vgName s =
    (vgs ← _reloadvgs (OneName vgName); mret (vgs !! vgName))
      (mkSys (set_stats (mkStats (_hits (_stats (cache s))) (S (_misses (_stats (cache s)))))
                (cache s)) (world s)).
Proof. intros H. unfold getVg. munfold. by rewrite H. Qed.

(** X@. [getVG] returns fresh records only: when it returns, its result is a
    parsed VG, never the stale or the unreadable marker, so that reading an
    attribute of it cannot fail; the record is in the cache under the name
    asked for, and asking again at once returns the same record from the
    cache, counting a hit and running no command. When it raises
    [VolumeGroupDoesNotExist] the cache holds nothing under that name. *)
Theorem getVG_fresh_and_cached (vgName : string) (s : Sys) :
  (∀ res s', getVG vgName s = (Ok res, s') →
     ∃ vg, res = Fresh vg ∧
           (∀ A attrName (f : VG.t → A), getattr attrName f res = Ok (f vg)) ∧
           _vgs (cache s') !! vgName = Some (Fresh vg) ∧
           getVG vgName s' =
             (Ok (Fresh vg),
              mkSys (set_stats (mkStats (S (_hits (_stats (cache s'))))
                                  (_misses (_stats (cache s')))) (cache s'))
                (world s'))) ∧
  (∀ s', getVG vgName s = (Raise (VolumeGroupDoesNotExist vgName), s') →
     _vgs (cache s') !! vgName = None).
Proof.
  assert (∀ vg s0, _vgs (cache s0) !! vgName = Some (Fresh vg) →
    getVG vgName s0 =
      (Ok (Fresh vg),
       mkSys (set_stats (mkStats (S (_hits (_stats (cache s0))))
                           (_misses (_stats (cache s0)))) (cache s0)) (world s0))) as Hhit.
  { intros vg s0 H. unfold getVG. erewrite bind_Ok by (by apply getVg_hit). done. }
  destruct (missing_or_stale (_vgs (cache s) !! vgName)) eqn:Hst.
  - split.
    + intros res s' H. apply getVG_inv in H. rewrite getVg_miss in H by done.
      apply bind_inv_Ok in H as (upd & s1 & Hre & H). munfold. injection H as Hres <-.
      apply reloadvgs_eff in Hre as (Hfresh & Hslot & _).
      destruct (Hfresh _ _ Hres) as (vg & -> & _). exists vg.
      split; [done|]. split; [done|].
      assert (_vgs (cache s1) !! vgName = Some (Fresh vg)) as Hc.
      { by rewrite Hslot, Hres. }
      split; [done|]. by apply Hhit.
    + intros s' H. unfold getVG in H.
      apply bind_inv_Raise in H as [H|(o & s1 & Hg & H)].
      { rewrite getVg_miss in H by done.
        apply bind_inv_Raise in H as [H|(upd & s1 & _ & H)]; [|done].
        apply reloadvgs_raises in H as [[line H]|[H|H]]; done. }
      destruct o; [done|]. munfold. injection H as <-.
      rewrite getVg_miss in Hg by done.
      apply bind_inv_Ok in Hg as (upd & s2 & Hre & Hg). munfold. injection Hg as Hres <-.
      apply reloadvgs_eff in Hre as (_ & Hslot & _).
      rewrite Hslot, Hres. cbn [normalize_args].
      rewrite bool_decide_true; [done|]. right. left.
  - destruct (_vgs (cache s) !! vgName) as [[vg| |]|] eqn:Hc; try done.
    split.
    + intros res s'. rewrite (Hhit vg s Hc). intros [= <- <-]. exists vg.
      split; [done|]. split; [done|]. split; [done|]. by apply Hhit.
    + intros s'. by rewrite (Hhit vg s Hc).
Qed.

(** ** Physical volumes: what a reload leaves *)

Lemma reloadpvs_inv pvName s res s' :
  _reloadpvs pvName s = (res, s') →
  ∃ r s1, cmd (PVS_CMD ++ normalize_args pvName) [] s = (Ok r, s1) ∧
          same_cache_data (cache s) (cache s1) ∧ same_host (world s) (world s1) ∧
          (∃ cmds, spawned (world s1) = spawned (world s) ++ cmds ∧ cmds ≠ [] ∧
                   Forall (λ c, nth 1 c "" = "pvs") cmds) ∧
          _reloadpvs_locked pvName r s1 = (res, s').
Proof.
  unfold _reloadpvs. unfold mbind at 1, M_bind at 1.
  destruct (cmd_frame "pvs" (LVM_FLAGS ++ ["-o"; PV_FIELDS] ++ normalize_args pvName) [] s)
    as (r & s1 & Hcmd & Hc & Hh & cmds & Hsp & Hne & Hall).
  change (PVS_CMD ++ normalize_args pvName)
    with ("pvs" :: LVM_FLAGS ++ ["-o"; PV_FIELDS] ++ normalize_args pvName).
  rewrite Hcmd. intros H. exists r, s1. split; [done|].
  split; [done|]. split; [done|]. split; [|done].
  exists cmds. split; [done|]. split; [done|].
  eapply Forall_impl; [exact Hall|]. by intros c [conf ->].
Qed.

Lemma reloadpvs_locked_failed pvName r s :
  rc r ≠ 0 →
  ∃ upd pvs',
    _reloadpvs_locked pvName r s
      = (Ok upd, mkSys (set_pvs (_stalepv (cache s)) pvs' (cache s)) (world s)) ∧
    (∀ k, pvs' !! k =
            if bool_decide (normalize_args pvName = [] ∨ k ∈ normalize_args pvName)
            then unreadable_slot PV.name (_pvs (cache s) !! k)
            else _pvs (cache s) !! k) ∧
    (∀ k, upd !! k =
            if bool_decide (normalize_args pvName = [] ∨ k ∈ normalize_args pvName)
            then match _pvs (cache s) !! k with
                 | Some e => if is_stale e then Some (Unreadable (entry_name PV.name e))
                             else None
                 | None => None
                 end
            else None).
Proof.
  intros Hrc. unfold _reloadpvs_locked. rewrite (proj2 (Z.eqb_neq _ _) Hrc). cbn [negb].
  munfold.
  set (scope := if bool_decide (normalize_args pvName ≠ []) then normalize_args pvName
                else keys (_pvs (cache s))).
  pose proof (lookup_mark_unreadable PV.name scope (_pvs (cache s))) as H1.
  pose proof (lookup_mark_unreadable_updated PV.name scope (_pvs (cache s))) as H2.
  destruct (mark_unreadable PV.name scope (_pvs (cache s))) as [pvs' upd].
  cbn [fst snd] in H1, H2. exists upd, pvs'. split; [done|].
  assert (∀ k, k ∈ scope ↔
    (normalize_args pvName = [] ∨ k ∈ normalize_args pvName) ∧
    (normalize_args pvName = [] → is_Some (_pvs (cache s) !! k))) as Hscope.
  { intros k. subst scope. case_bool_decide as Hn.
    - split; [intros ?; split; [by right|done]|]. by intros [[?|?] _].
    - rewrite elem_of_keys, Hn. split.
      + intros ?. split; [by left|done].
      + intros [_ H]. by apply H. }
  split; intros k; [rewrite H1|rewrite H2].
  - case_bool_decide as Hk.
    + apply Hscope in Hk as [Hk _]. by rewrite bool_decide_true.
    + case_bool_decide as Hk'; [|done].
      destruct (_pvs (cache s) !! k) as [e|] eqn:E; [|done].
      destruct Hk. apply Hscope. split; [done|]. by rewrite E.
  - case_bool_decide as Hk.
    + apply Hscope in Hk as [Hk _]. by rewrite bool_decide_true.
    + case_bool_decide as Hk'; [|done].
      destruct (_pvs (cache s) !! k) as [e|] eqn:E; [|done].
      destruct Hk. apply Hscope. split; [done|]. by rewrite E.
Qed.

Lemma reloadpvs_locked_eff pvName r s upd s' :
  rc r = 0 → _reloadpvs_locked pvName r s = (Ok upd, s') →
  world s' = world s ∧
  (∀ k e, upd !! k = Some e → ∃ pv, e = Fresh pv ∧ PV.name pv = k ∧ k ≠ UNKNOWN) ∧
  (∀ k, _pvs (cache s') !! k =
          match upd !! k with
          | Some e => Some e
          | None =>
              if bool_decide (normalize_args pvName = [] ∨ k ∈ normalize_args pvName)
              then None else _pvs (cache s) !! k
          end) ∧
  _stalepv (cache s') = (if truthy pvName then _stalepv (cache s) else false).
Proof.
  intros Hrc. unfold _reloadpvs_locked. rewrite Hrc. cbn [Z.eqb negb]. intros H.
  apply bind_inv_Ok in H as (upd' & s1 & Hfor & H).
  apply for_pvs_delta in Hfor as (d & -> & Hupd & Hd).
  specialize (Hupd upd' eq_refl). rewrite (right_id_L ∅ (∪)) in Hupd. subst upd'.
  munfold. injection H as <- <-. cbn [cache world _pvs _stalepv set_pvs].
  split; [done|]. split; [done|]. split; [|done].
  intros k. rewrite lookup_remove_stale.
  destruct (d !! k) as [e|] eqn:Ed.
  { rewrite bool_decide_false by (by intros [_ ?]). by apply lookup_union_Some_l. }
  rewrite lookup_union_r by done.
  destruct (decide (normalize_args pvName = [])) as [Hnil|Hne].
  - rewrite (bool_decide_false (normalize_args pvName ≠ [])) by (by intros ?).
    rewrite (bool_decide_true (_ ∨ _)) by (by left).
    case_bool_decide as Hk; [done|].
    destruct (_pvs (cache s) !! k) as [e|] eqn:Em; [|done]. destruct Hk. split; [|done].
    apply elem_of_keys. rewrite lookup_union_r by done. by eexists.
  - rewrite (bool_decide_true (normalize_args pvName ≠ [])) by done.
    destruct (decide (k ∈ normalize_args pvName)) as [Hin|Hin].
    + rewrite bool_decide_true by done. by rewrite bool_decide_true by (by right).
    + rewrite bool_decide_false by (by intros [? _]).
      by rewrite bool_decide_false by (intros [?|?]; done).
Qed.

(** X@. What a pvs reload makes of the PV map, [r] being what the command
    returned. If the command failed, nothing is dropped and no fresh record
    is touched: the stale slots in scope become unreadable markers of the
    same name, and these markers are what the reload returns. If it
    succeeded, the reload returns the reported PVs as fresh records, each
    under its name; the slots in scope hold these records or are gone; the
    slots out of scope keep what they held unless reported. The stale flag
    is dropped only by a successful reload of everything. *)
Theorem reloadpvs_outcome (pvName : names) (s s1 : Sys) (r : RunResult) :
  cmd (PVS_CMD ++ normalize_args pvName) [] s = (Ok r, s1) →
  let in_scope k := normalize_args pvName = [] ∨ k ∈ normalize_args pvName in
  (rc r ≠ 0 →
   ∃ upd s',
     _reloadpvs pvName s = (Ok upd, s') ∧
     (∀ k, _pvs (cache s') !! k =
             if bool_decide (in_scope k)
             then unreadable_slot PV.name (_pvs (cache s) !! k)
             else _pvs (cache s) !! k) ∧
     (∀ k pv, _pvs (cache s) !! k = Some (Fresh pv) →
              _pvs (cache s') !! k = Some (Fresh pv) ∧ upd !! k = None) ∧
     (∀ k e, upd !! k = Some e →
             ∃ e0, _pvs (cache s) !! k = Some e0 ∧ is_stale e0 = true ∧
                   e = Unreadable (entry_name PV.name e0) ∧ in_scope k) ∧
     _stalepv (cache s') = _stalepv (cache s)) ∧
  (rc r = 0 →
   ∀ upd s',
     _reloadpvs pvName s = (Ok upd, s') →
     (∀ k e, upd !! k = Some e → ∃ pv, e = Fresh pv ∧ PV.name pv = k ∧ k ≠ UNKNOWN) ∧
     (∀ k, _pvs (cache s') !! k =
             match upd !! k with
             | Some e => Some e
             | None => if bool_decide (in_scope k) then None else _pvs (cache s) !! k
             end) ∧
     (normalize_args pvName = [] → _pvs (cache s') = upd) ∧
     _stalepv (cache s') = (if truthy pvName then _stalepv (cache s) else false)).
Proof.
  intros Hcmd in_scope.
  assert (_reloadpvs pvName s = _reloadpvs_locked pvName r s1) as Heq.
  { unfold _reloadpvs. by erewrite bind_Ok by exact Hcmd. }
  assert (_pvs (cache s1) = _pvs (cache s) ∧ _stalepv (cache s1) = _stalepv (cache s))
    as [Hp Hst].
  { destruct (cmd_frame "pvs" (LVM_FLAGS ++ ["-o"; PV_FIELDS] ++ normalize_args pvName) [] s)
      as (r' & s1' & Hcmd' & Hc & _).
    change ("pvs" :: LVM_FLAGS ++ ["-o"; PV_FIELDS] ++ normalize_args pvName)
      with (PVS_CMD ++ normalize_args pvName) in Hcmd'.
    rewrite Hcmd in Hcmd'. injection Hcmd' as <- <-.
    by apply same_cache_data_fields in Hc as (_ & _ & Hst & _ & _ & Hpvs & _). }
  rewrite Heq. split.
  - intros Hrc. destruct (reloadpvs_locked_failed pvName r s1 Hrc) as (upd & pvs' & -> & H1 & H2).
    eexists _, _. split; [done|]. cbn [cache _pvs _stalepv set_pvs].
    rewrite <- Hp, <- Hst. split; [done|]. split; [|split; [|done]].
    + intros k pv Hk. rewrite H1, H2, Hk. cbn. by case_bool_decide.
    + intros k e. rewrite H2. case_bool_decide as Hk; [|done].
      destruct (_pvs (cache s1) !! k) as [e0|]; [|done].
      destruct (is_stale e0) eqn:Es; [|done]. intros [= <-]. by exists e0.
  - intros Hrc upd s' H. apply reloadpvs_locked_eff in H as (_ & H1 & H2 & H3); [|done].
    rewrite <- Hp, <- Hst. split; [done|]. split; [done|]. split; [|done].
    intros Hnil. apply map_eq. intros k. rewrite H2, bool_decide_true by (by left).
    by destruct (upd !! k).
Qed.

(** ** A reload that fails *)

Lemma run_attempts_result attempts r w :
  (run_attempts attempts r w).1 = r ∨
  ∃ history full_cmd, (run_attempts attempts r w).1 = runner w history full_cmd.
Proof.
  revert r w. induction attempts as [|[delay full_cmd] attempts IH]; intros r w.
  { by left. }
  cbn [run_attempts].
  set (w1 := match delay with Some d => sleep_in d w | None => w end).
  assert (runner w1 = runner w) as Hr by (subst w1; by destruct delay).
  destruct (rc _ =? 0).
  - right. cbn [fst]. rewrite Hr. by eexists _, _.
  - right. destruct (IH (runner w1 (spawned w1) full_cmd) (spawn_in full_cmd w1))
      as [->|(h & c & ->)].
    + rewrite Hr. by eexists _, _.
    + cbn [spawn_in runner]. rewrite Hr. by eexists _, _.
Qed.

(** On a host where every command fails, so does [cmd]. *)
Lemma cmd_every_fails cmd0 cmd_rest devices s :
  every_command_fails (world s) →
  ∃ r s', cmd (cmd0 :: cmd_rest) devices s = (Ok r, s') ∧ rc r ≠ 0 ∧ out r = [] ∧
          same_cache_data (cache s) (cache s') ∧ every_command_fails (world s').
Proof.
  intros Hfail.
  destruct (cmd_frame cmd0 cmd_rest devices s) as (r & s' & Hcmd & Hc & Hh & _).
  exists r, s'. split; [done|].
  assert (every_command_fails (world s')) as Hfail'.
  { intros h c. destruct Hh as (-> & _). apply Hfail. }
  assert (∃ h c, r = runner (world s) h c) as (h & c & ->); [|by destruct (Hfail h c)].
  rewrite cmd_ladder in Hcmd. unfold ladder in Hcmd.
  destruct (addExtraCfg_frame cmd0 cmd_rest devices s) as (f1 & s1 & E1 & _ & Hh1 & _).
  rewrite E1 in Hcmd. destruct Hh1 as (Hr1 & _).
  destruct (rc _ =? 0) eqn:Erc.
  { injection Hcmd as <- _. rewrite Hr1. by eexists _, _. }
  match type of Hcmd with context [_addExtraCfg _ [] ?s2] =>
    destruct (addExtraCfg_frame cmd0 cmd_rest [] s2) as (f2 & s3 & E2 & _ & Hh2 & _) end.
  rewrite E2 in Hcmd. destruct Hh2 as (Hr2 & _). cbn [world spawn_in runner] in Hr2.
  match type of Hcmd with context [run_attempts ?att ?r0 ?w] =>
    pose proof (run_attempts_result att r0 w) as Hres;
    destruct (run_attempts att r0 w) as [r' w'] end.
  injection Hcmd as <- _. cbn [fst] in Hres. destruct Hres as [->|(h & c & ->)].
  - rewrite Hr1. by eexists _, _.
  - rewrite Hr2, Hr1. by eexists _, _.
Qed.

Lemma elem_of_lvs_of_vg (vgName lvName : string)
    (lvs : gmap (string * string) (entry LV.t)) :
  lvName ∈ lvs_of_vg vgName lvs ↔ is_Some (lvs !! (vgName, lvName)).
Proof.
  unfold lvs_of_vg. rewrite list_elem_of_fmap. split.
  - intros ([v l] & -> & [Hv Hk]%list_elem_of_filter). cbn in Hv. subst v.
    by apply elem_of_keys.
  - intros H. exists (vgName, lvName). split; [done|].
    apply list_elem_of_filter. split; [done|]. by apply elem_of_keys.
Qed.

Lemma reloadlvs_locked_failed (vgName : string) (lvNames : list string) r s :
  rc r ≠ 0 →
  ∃ upd lvs',
    _reloadlvs_locked vgName lvNames r s
      = (Ok upd, mkSys (set_lvs (_freshlv (cache s)) lvs' (cache s)) (world s)) ∧
    (∀ lvName, lvNames = [] ∨ lvName ∈ lvNames →
       lvs' !! (vgName, lvName) = unreadable_slot LV.name (_lvs (cache s) !! (vgName, lvName)) ∧
       upd !! (vgName, lvName) =
         match _lvs (cache s) !! (vgName, lvName) with
         | Some e => if is_stale e then Some (Unreadable (entry_name LV.name e)) else None
         | None => None
         end).
Proof.
  intros Hrc. unfold _reloadlvs_locked. rewrite (proj2 (Z.eqb_neq _ _) Hrc). cbn [negb].
  munfold.
  set (scope := if bool_decide (lvNames ≠ []) then lvNames
                else lvs_of_vg vgName (_lvs (cache s))).
  pose proof (lookup_mark_unreadable LV.name ((λ lvName, (vgName, lvName)) <$> scope)
                (_lvs (cache s))) as H1.
  pose proof (lookup_mark_unreadable_updated LV.name ((λ lvName, (vgName, lvName)) <$> scope)
                (_lvs (cache s))) as H2.
  destruct (mark_unreadable LV.name _ (_lvs (cache s))) as [lvs' upd].
  cbn [fst snd] in H1, H2. exists upd, lvs'. split; [done|].
  intros lvName Hin. rewrite H1, H2.
  destruct (_lvs (cache s) !! (vgName, lvName)) as [e|] eqn:E.
  2:{ by repeat case_bool_decide. }
  assert ((vgName, lvName) ∈ (λ lvName, (vgName, lvName)) <$> scope) as Hk.
  { apply list_elem_of_fmap. exists lvName. split; [done|]. subst scope.
    case_bool_decide as Hn; [by destruct Hin|].
    apply elem_of_lvs_of_vg. by rewrite E. }
  by rewrite !bool_decide_true by done.
Qed.

Lemma reloadvgs_locked_nothing vgName r s :
  out r = [] →
  ∃ s', _reloadvgs_locked vgName r s = (Ok ∅, s').
Proof.
  intros Hout. unfold _reloadvgs_locked. rewrite Hout.
  destruct (reloadvgs_failed_eq (normalize_args vgName) r s) as (m & E1).
  erewrite bind_Ok by exact E1. cbn [for_]. munfold. by eexists.
Qed.

Lemma getPv_miss pvName s :
  missing_or_stale (_pvs (cache s) !! pvName) = true →
  getPv pvName s =
    (pvs ← _reloadpvs (OneName pvName); mret (pvs !! pvName))
      (mkSys (set_stats (mkStats (_hits (_stats (cache s))) (S (_misses (_stats (cache s)))))
                (cache s)) (world s)).
Proof. intros H. unfold getPv. munfold. by rewrite H. Qed.

Lemma getLv_miss vgName lvName s :
  lvName ≠ "" →
  missing_or_stale (_lvs (cache s) !! (vgName, lvName)) = true →
  getLv vgName (Some lvName) s =
    (lvs ← _reloadlvs vgName NoNames; mret (OneLv (lvs !! (vgName, lvName))))
      (mkSys (set_stats (mkStats (_hits (_stats (cache s))) (S (_misses (_stats (cache s)))))
                (cache s)) (world s)).
Proof.
  intros Hne H. unfold getLv. cbn [str_truthy default from_option id].
  rewrite bool_decide_true by done. munfold. by rewrite H.
Qed.

(** X@. What the callers see when a stale entry cannot be reloaded because
    every command fails. [getPV] and [getLV] do not raise: they return the
    unreadable marker, which is also what the cache holds from then on, and
    reading any attribute of the marker raises [AttributeError] with the text
    "Failed reload: " and the name. [getVG] behaves otherwise: the name is
    dropped from the cache and [VolumeGroupDoesNotExist] is raised. A PV or an
    LV that the cache does not hold at all is reported as inaccessible,
    respectively as not existing. *)
Theorem failed_reload_seen_by_callers (s : Sys) :
  every_command_fails (world s) →
  (∀ pvName e,
     String.prefix "/" pvName = true →
     _pvs (cache s) !! pvName = Some e → is_stale e = true →
     ∃ s', getPV pvName s = (Ok (Unreadable (entry_name PV.name e)), s') ∧
           _pvs (cache s') !! pvName = Some (Unreadable (entry_name PV.name e)) ∧
           ∀ A attrName (f : PV.t → A),
             getattr attrName f (Unreadable (entry_name PV.name e))
             = Raise (AttributeError ("Failed reload: " +:+ entry_name PV.name e))) ∧
  (∀ vgName lvName e,
     lvName ≠ "" →
     _lvs (cache s) !! (vgName, lvName) = Some e → is_stale e = true →
     ∃ s', getLV vgName (Some lvName) s
             = (Ok (OneLv (Some (Unreadable (entry_name LV.name e)))), s') ∧
           _lvs (cache s') !! (vgName, lvName) = Some (Unreadable (entry_name LV.name e)) ∧
           ∀ A attrName (f : LV.t → A),
             lv_attr attrName f (OneLv (Some (Unreadable (entry_name LV.name e)))) s'
             = (Raise (AttributeError ("Failed reload: " +:+ entry_name LV.name e)), s')) ∧
  (∀ vgName,
     missing_or_stale (_vgs (cache s) !! vgName) = true →
     ∃ s', getVG vgName s = (Raise (VolumeGroupDoesNotExist vgName), s') ∧
           _vgs (cache s') !! vgName = None) ∧
  (∀ pvName,
     String.prefix "/" pvName = true → _pvs (cache s) !! pvName = None →
     ∃ s', getPV pvName s = (Raise (InaccessiblePhysDev pvName), s')) ∧
  (∀ vgName lvName,
     lvName ≠ "" → _lvs (cache s) !! (vgName, lvName) = None →
     ∃ s', getLV vgName (Some lvName) s
             = (Raise (LogicalVolumeDoesNotExistError (vgName +:+ "/" +:+ lvName)), s')).
Proof.
  intros Hfail.
  set (miss := mkSys (set_stats (mkStats (_hits (_stats (cache s)))
                                   (S (_misses (_stats (cache s))))) (cache s)) (world s)).
  assert (∀ pvName, String.prefix "/" pvName = true →
    missing_or_stale (_pvs (cache s) !! pvName) = true →
    ∃ (upd pvs' : gmap string (entry PV.t)) s1,
      getPV pvName s
        = (match upd !! pvName with
           | Some pv => Ok pv | None => Raise (InaccessiblePhysDev pvName) end,
           mkSys (set_pvs (_stalepv (cache s1)) pvs' (cache s1)) (world s1)) ∧
      pvs' !! pvName = unreadable_slot PV.name (_pvs (cache s) !! pvName) ∧
      upd !! pvName = match _pvs (cache s) !! pvName with
                      | Some e => if is_stale e then Some (Unreadable (entry_name PV.name e))
                                  else None
                      | None => None
                      end) as Hpv.
  { intros pvName Habs Hst. unfold getPV.
    erewrite bind_Ok by (by apply fqpvname_absolute).
    unfold mbind at 1, M_bind at 1. rewrite getPv_miss by done. fold miss.
    destruct (cmd_every_fails "pvs" (LVM_FLAGS ++ ["-o"; PV_FIELDS] ++ [pvName]) [] miss Hfail)
      as (r & s1 & Hcmd & Hrc & _ & Hc & _).
    destruct (reloadpvs_locked_failed (OneName pvName) r s1 Hrc) as (upd & pvs' & Hre & H1 & H2).
    assert (_reloadpvs (OneName pvName) miss
            = (Ok upd, mkSys (set_pvs (_stalepv (cache s1)) pvs' (cache s1)) (world s1))) as E.
    { unfold _reloadpvs. erewrite bind_Ok by exact Hcmd. exact Hre. }
    exists upd, pvs', s1.
    apply same_cache_data_fields in Hc as (_ & _ & _ & _ & _ & Hpvs & _).
    cbn [miss cache _pvs set_stats] in Hpvs.
    specialize (H1 pvName). specialize (H2 pvName). cbn [normalize_args] in H1, H2.
    rewrite bool_decide_true in H1 by (right; left).
    rewrite bool_decide_true in H2 by (right; left).
    rewrite <- Hpvs. split; [|done].
    unfold mbind at 1, M_bind at 1. rewrite E. munfold. by destruct (upd !! pvName). }
  assert (∀ vgName lvName, lvName ≠ "" →
    missing_or_stale (_lvs (cache s) !! (vgName, lvName)) = true →
    ∃ (upd lvs' : gmap (string * string) (entry LV.t)) s1,
      getLv vgName (Some lvName) s
        = (Ok (OneLv (upd !! (vgName, lvName))),
           mkSys (set_lvs (_freshlv (cache s1)) lvs' (cache s1)) (world s1)) ∧
      lvs' !! (vgName, lvName)
        = unreadable_slot LV.name (_lvs (cache s) !! (vgName, lvName)) ∧
      upd !! (vgName, lvName)
        = match _lvs (cache s) !! (vgName, lvName) with
          | Some e => if is_stale e then Some (Unreadable (entry_name LV.name e)) else None
          | None => None
          end) as Hlv.
  { intros vgName lvName Hne Hst. rewrite getLv_miss by done. fold miss.
    destruct (cmd_every_fails "lvs" (LVM_FLAGS ++ ["-o"; LV_FIELDS] ++ [vgName])
                (_getVGDevs_go (_vgs (cache miss)) [vgName] []) miss Hfail)
      as (r & s1 & Hcmd & Hrc & _ & Hc & _).
    destruct (reloadlvs_locked_failed vgName [] r s1 Hrc) as (upd & lvs' & Hre & H12).
    assert (_reloadlvs vgName NoNames miss
            = (Ok upd, mkSys (set_lvs (_freshlv (cache s1)) lvs' (cache s1)) (world s1))) as E.
    { unfold _reloadlvs, _getVGDevs. unfold mbind at 1, M_bind at 1, gets at 1.
      cbn [normalize_args]. erewrite bind_Ok by exact Hcmd. exact Hre. }
    exists upd, lvs', s1.
    apply same_cache_data_fields in Hc as (_ & _ & _ & _ & _ & _ & _ & Hlvs & _).
    cbn [miss cache _lvs set_stats] in Hlvs.
    destruct (H12 lvName) as [H1 H2]; [by left|]. rewrite <- Hlvs. split; [|done].
    unfold mbind at 1, M_bind at 1. rewrite E. by munfold. }
  split; [|split; [|split; [|split]]].
  - intros pvName e Habs He Hes.
    destruct (Hpv pvName Habs) as (upd & pvs' & s1 & Hget & H1 & H2).
    { rewrite He. exact Hes. }
    rewrite He in H1, H2. cbn in H1. rewrite Hes in H1, H2. rewrite H2 in Hget.
    eexists. split; [exact Hget|]. split; [exact H1|]. done.
  - intros vgName lvName e Hne He Hes.
    destruct (Hlv vgName lvName Hne) as (upd & lvs' & s1 & Hget & H1 & H2).
    { rewrite He. exact Hes. }
    rewrite He in H1, H2. cbn in H1. rewrite Hes in H1, H2. rewrite H2 in Hget.
    eexists. split; [unfold getLV; erewrite bind_Ok by exact Hget; done|].
    split; [exact H1|done].
  - intros vgName Hst. unfold getVG. unfold mbind at 1, M_bind at 1.
    rewrite getVg_miss by done. fold miss.
    destruct (cmd_every_fails "vgs" (LVM_FLAGS ++ ["-o"; VG_FIELDS] ++ [vgName])
                (_getVGDevs_go (_vgs (cache miss)) [vgName] []) miss Hfail)
      as (r & s1 & Hcmd & _ & Hout & _).
    destruct (reloadvgs_locked_nothing (OneName vgName) r s1 Hout) as (s' & Hre).
    assert (_reloadvgs (OneName vgName) miss = (Ok ∅, s')) as E.
    { unfold _reloadvgs, _getVGDevs. unfold mbind at 1, M_bind at 1, gets at 1.
      cbn [normalize_args]. erewrite bind_Ok by exact Hcmd. exact Hre. }
    exists s'. split.
    + unfold mbind at 1, M_bind at 1. rewrite E. by munfold.
    + apply reloadvgs_locked_eff in Hre as (_ & Hslot & _).
      rewrite Hslot, lookup_empty. cbn [normalize_args].
      rewrite bool_decide_true; [done|]. right. left.
  - intros pvName Habs He.
    destruct (Hpv pvName Habs) as (upd & pvs' & s1 & Hget & H1 & H2).
    { by rewrite He. }
    rewrite He in H2. rewrite H2 in Hget. by eexists.
  - intros vgName lvName Hne He.
    destruct (Hlv vgName lvName Hne) as (upd & lvs' & s1 & Hget & H1 & H2).
    { by rewrite He. }
    rewrite He in H2. rewrite H2 in Hget. eexists.
    unfold getLV. erewrite bind_Ok by exact Hget. done.
Qed.

Lemma reloadvgs_leaves_fresh_or_nothing_witness :
  ∃ s', _reloadvgs (OneName "vg0") lost_sys = (Ok ∅, s') ∧
        _vgs (cache s') !! "vg0" = None.
Proof.
  pose (s' := (_reloadvgs (OneName "vg0") lost_sys).2).
  assert (_reloadvgs (OneName "vg0") lost_sys = (Ok ∅, s')) as H by (by vm_compute).
  exists s'. split; [exact H|].
  destruct (reloadvgs_leaves_fresh_or_nothing (OneName "vg0") lost_sys s' ∅ H)
    as (_ & Hin & _).
  rewrite Hin; [done|]. right. left.
Defined.

Lemma reloadpvs_outcome_witness :
  ∃ pv s', _reloadpvs NoNames idle_pv_sys = (Ok {[ "/dev/mapper/pv0" := Fresh pv ]}, s') ∧
           _pvs (cache s') = {[ "/dev/mapper/pv0" := Fresh pv ]} ∧
           _stalepv (cache s') = false.
Proof.
  pose (r := (cmd (PVS_CMD ++ normalize_args NoNames) [] idle_pv_sys).1).
  pose (s1 := (cmd (PVS_CMD ++ normalize_args NoNames) [] idle_pv_sys).2).
  pose (res := (_reloadpvs NoNames idle_pv_sys).1).
  pose (s' := (_reloadpvs NoNames idle_pv_sys).2).
  pose (pv := PV.mk "uuid-pv0" "/dev/mapper/pv0" "107374182400" "vg0" "uuid-1"
                "1048576" "800" "0" "2" "107374182400" "2" "pv0").
  assert (cmd (PVS_CMD ++ normalize_args NoNames) [] idle_pv_sys
          = (Ok (mkRun 0 ["uuid-pv0|/dev/mapper/pv0|107374182400|vg0|uuid-1|"
                           +:+ "1048576|800|0|2|107374182400|2"] []), s1)) as Hcmd
    by (by vm_compute).
  assert (_reloadpvs NoNames idle_pv_sys = (Ok {[ "/dev/mapper/pv0" := Fresh pv ]}, s')) as H
    by (by vm_compute).
  exists pv, s'. split; [exact H|].
  destruct (reloadpvs_outcome NoNames idle_pv_sys s1 _ Hcmd) as [_ Hok].
  destruct (Hok eq_refl _ _ H) as (_ & _ & Hall & Hst).
  split; [by apply Hall|exact Hst].
Defined.

Lemma failed_reload_seen_by_callers_witness :
  ∃ s', getPV "/dev/mapper/pv0" lost_sys = (Ok (Unreadable "/dev/mapper/pv0"), s') ∧
        _pvs (cache s') !! "/dev/mapper/pv0" = Some (Unreadable "/dev/mapper/pv0").
Proof.
  destruct (failed_reload_seen_by_callers lost_sys) as (Hpv & _);
    [intros history full_cmd; by split|].
  destruct (Hpv "/dev/mapper/pv0" (Stale "/dev/mapper/pv0")) as (s' & H1 & H2 & _);
    [done..|].
  by exists s'.
Defined.

(** ** Bootstrap *)

Lemma loadAllLvs_lines lines acc s res s' :
  for_ lines _loadAllLvs_line acc s = (res, s') →
  s' = s ∧
  (∀ acc', res = Ok acc' →
     ∀ k e, acc' !! k = Some e →
       acc !! k = Some e ∨
       ∃ lv, e = Fresh lv ∧ k = (LV.vg_name lv, LV.name lv) ∧ LV.seg_start_pe lv = "0") ∧
  (∀ e, res = Raise e → (∃ line, e = InvalidOutputLine "lvs" line) ∨ e = TypeError).
Proof.
  revert acc s. induction lines as [|line lines IH]; intros acc s; cbn [for_].
  { intros [= <- <-]. split; [done|]. split; [|done]. intros acc' [= <-] k e Hk. by left. }
  unfold mbind, M_bind.
  assert (_loadAllLvs_line line acc s =
    if bool_decide (length (line_fields line) ≠ LV_FIELDS_LEN)
    then (Raise (InvalidOutputLine "lvs" line), s)
    else match LV.fromlvm (line_fields line) with
         | Ok lv => (Ok (if bool_decide (LV.seg_start_pe lv = "0")
                         then <[(LV.vg_name lv, LV.name lv) := Fresh lv]> acc else acc), s)
         | Raise e => (Raise e, s)
         end) as ->.
  { unfold _loadAllLvs_line. case_bool_decide; [done|]. munfold.
    destruct (LV.fromlvm _) as [lv|e]; [|done]. by case_bool_decide. }
  case_bool_decide as Hlen.
  { intros [= <- <-]. split; [done|]. split; [done|]. intros e [= <-]. left. by eexists. }
  destruct (LV.fromlvm _) as [lv|e0] eqn:E.
  2:{ intros [= <- <-]. split; [done|]. split; [done|]. intros e [= <-]. right.
      by eapply LV_fromlvm_raises. }
  intros H. apply IH in H as (-> & Hok & Hraise). split; [done|]. split; [|done].
  intros acc' Hres k e Hk. destruct (Hok acc' Hres k e Hk) as [Hacc|Hnew]; [|by right].
  case_bool_decide as Hseg; [|by left].
  apply lookup_insert_Some in Hacc as [[<- <-]|[_ Hacc]]; [|by left].
  right. by exists lv.
Qed.

Lemma loadAllLvs_eff (s : Sys)
    (res : result (gmap (string * string) (entry LV.t))) (s' : Sys) :
  _loadAllLvs s = (res, s') →
  ∃ r s1,
    cmd LVS_CMD [] s = (Ok r, s1) ∧
    same_host (world s) (world s') ∧ _stalevg (cache s') = _stalevg (cache s) ∧
    _pvs (cache s') = _pvs (cache s) ∧ _vgs (cache s') = _vgs (cache s) ∧
    if rc r =? 0 then
      match res with
      | Ok lvs =>
          lvs = _lvs (cache s') ∧
          (∀ k e, lvs !! k = Some e →
             ∃ lv, e = Fresh lv ∧ k = (LV.vg_name lv, LV.name lv) ∧
                   LV.seg_start_pe lv = "0") ∧
          (∀ vgName, vgName ∈ _freshlv (cache s') ↔
                     ∃ lvName, is_Some (lvs !! (vgName, lvName)))
      | Raise e =>
          ((∃ line, e = InvalidOutputLine "lvs" line) ∨ e = TypeError) ∧
          _lvs (cache s') = _lvs (cache s) ∧ _freshlv (cache s') = _freshlv (cache s)
      end
    else
      res = Ok (_lvs (cache s)) ∧
      _lvs (cache s') = _lvs (cache s) ∧ _freshlv (cache s') = _freshlv (cache s).
Proof.
  unfold _loadAllLvs. unfold mbind at 1, M_bind at 1.
  destruct (cmd_frame "lvs" (LVM_FLAGS ++ ["-o"; LV_FIELDS]) [] s)
    as (r & s1 & Hcmd & Hc & Hh & _).
  change ("lvs" :: LVM_FLAGS ++ ["-o"; LV_FIELDS]) with LVS_CMD in Hcmd. rewrite Hcmd.
  intros H. exists r, s1. split; [done|]. revert H.
  apply same_cache_data_fields in Hc as (_ & _ & _ & Hsv & Hfl & Hpvs & Hvgs & Hlvs & _).
  rewrite <- Hpvs, <- Hvgs, <- Hlvs, <- Hfl, <- Hsv. clear Hcmd Hpvs Hvgs Hlvs Hfl Hsv.
  destruct (rc r =? 0).
  - unfold mbind at 1 2, M_bind at 1 2.
    destruct (for_ (out r) _loadAllLvs_line ∅ s1) as [[new_lvs|e] s2] eqn:Hfor;
      apply loadAllLvs_lines in Hfor as (-> & Hok & Hraise).
    + munfold. intros [= <- <-]. cbn [cache _pvs _vgs _lvs _freshlv set_lvs].
      split; [done|]. split; [done|]. split; [done|]. split; [done|]. split; [done|]. split.
      * intros k e Hk. destruct (Hok _ eq_refl k e Hk) as [Hk'|Hk']; [|done].
        by rewrite lookup_empty in Hk'.
      * intros vgName. rewrite elem_of_list_to_set, list_elem_of_fmap. split.
        -- intros ([v l] & -> & Hk). exists l. by apply elem_of_keys.
        -- intros [lvName Hk]. exists (vgName, lvName). split; [done|]. by apply elem_of_keys.
    + intros [= <- <-]. split; [done|]. split; [done|]. split; [done|]. split; [done|].
      split; [by apply Hraise|done].
  - munfold. by intros [= <- <-].
Qed.

(** X@. [_loadAllLvs] replaces the LV map as a whole, or leaves it alone. If
    the lvs command succeeds and every line parses, the map becomes exactly
    the reported first segments, all fresh and each under its VG and name, so
    that stale and unreadable markers and LVs no longer reported are gone, and
    a VG counts as having fresh LVs if and only if the map holds an LV of it
    (a VG without LVs does not). If the command fails, or a line is invalid,
    the LV map and the set of VGs with fresh LVs stay as they were, unlike in
    a reload, which stores the rows that precede an invalid line. *)
Theorem loadAllLvs_replaces_or_keeps (s : Sys)
    (res : result (gmap (string * string) (entry LV.t))) (s' : Sys) :
  _loadAllLvs s = (res, s') →
  ∃ r s1,
    cmd LVS_CMD [] s = (Ok r, s1) ∧
    _pvs (cache s') = _pvs (cache s) ∧ _vgs (cache s') = _vgs (cache s) ∧
    if rc r =? 0 then
      match res with
      | Ok lvs =>
          lvs = _lvs (cache s') ∧
          (∀ k e, lvs !! k = Some e →
             ∃ lv, e = Fresh lv ∧ k = (LV.vg_name lv, LV.name lv) ∧
                   LV.seg_start_pe lv = "0") ∧
          (∀ vgName, vgName ∈ _freshlv (cache s') ↔
                     ∃ lvName, is_Some (lvs !! (vgName, lvName)))
      | Raise e =>
          ((∃ line, e = InvalidOutputLine "lvs" line) ∨ e = TypeError) ∧
          _lvs (cache s') = _lvs (cache s) ∧ _freshlv (cache s') = _freshlv (cache s)
      end
    else
      res = Ok (_lvs (cache s)) ∧
      _lvs (cache s') = _lvs (cache s) ∧ _freshlv (cache s') = _freshlv (cache s).
Proof.
  intros H. destruct (loadAllLvs_eff s res s' H) as (r & s1 & Hcmd & _ & _ & Hp & Hv & Hrest).
  by exists r, s1.
Qed.

(** X@. After [LVMCache.bootstrap()] of a new cache returns, the cache holds
    fresh records only, each under its own key: a PV and a VG under its name,
    an LV under the name of its VG and its own; there is no stale and no
    unreadable marker, also when some of the three commands failed, and the
    VGs are no longer flagged stale. *)
Theorem bootstrap_of_new_cache (cache_lvs : bool) (w : World) (s' : Sys) :
  LVMCache_bootstrap (mkSys (LVMCache_init cache_lvs) w) = (Ok tt, s') →
  (∀ k e, _pvs (cache s') !! k = Some e → ∃ pv, e = Fresh pv ∧ PV.name pv = k) ∧
  (∀ k e, _vgs (cache s') !! k = Some e → ∃ vg, e = Fresh vg ∧ VG.name vg = k) ∧
  (∀ k e, _lvs (cache s') !! k = Some e →
          ∃ lv, e = Fresh lv ∧ k = (LV.vg_name lv, LV.name lv)) ∧
  _stalevg (cache s') = false ∧ same_host w (world s').
Proof.
  set (s0 := mkSys (LVMCache_init cache_lvs) w). unfold LVMCache_bootstrap. intros H.
  apply bind_inv_Ok in H as (upd1 & sA & H1 & H).
  apply bind_inv_Ok in H as (upd2 & sB & H2 & H).
  apply bind_inv_Ok in H as (lvs & sC & H3 & H). munfold. injection H as <-.
  (* pvs *)
  apply reloadpvs_inv in H1 as (r1 & s1 & _ & Hc1 & Hh1 & _ & H1).
  apply same_cache_data_fields in Hc1 as (_ & _ & _ & _ & _ & Hp1 & _ & Hl1 & _).
  assert ((∀ k e, _pvs (cache sA) !! k = Some e → ∃ pv, e = Fresh pv ∧ PV.name pv = k) ∧
          _lvs (cache sA) = ∅ ∧ same_host w (world sA)) as (HpA & HlA & HhA).
  { pose proof (reloadpvs_locked_frame _ _ _ _ _ H1) as (Hw & _ & Hl & _).
    rewrite Hl, Hw, Hl1. split; [|done].
    destruct (decide (rc r1 = 0)) as [Hrc|Hrc].
    - apply reloadpvs_locked_eff in H1 as (_ & Hfresh & Hslot & _); [|done].
      intros k e. rewrite Hslot. destruct (upd1 !! k) as [e'|] eqn:E.
      + intros [= <-]. destruct (Hfresh _ _ E) as (pv & ? & ? & _). by exists pv.
      + by rewrite bool_decide_true by (by left).
    - destruct (reloadpvs_locked_failed NoNames r1 s1 Hrc) as (upd & pvs' & E & Hslot & _).
      rewrite E in H1. injection H1 as _ <-. cbn [cache _pvs set_pvs].
      intros k e. rewrite Hslot, Hp1. cbn [s0 cache LVMCache_init _pvs].
      rewrite lookup_empty. by case_bool_decide. }
  (* vgs *)
  pose proof (reloadvgs_eff _ _ _ _ H2) as (Hfresh2 & Hslot2 & Hst2).
  apply reloadvgs_inv in H2 as (r2 & s2 & Hc2 & Hh2 & _ & H2).
  apply reloadvgs_locked_touches in H2 as (st & fl & m & ->).
  apply same_cache_data_fields in Hc2 as (_ & _ & _ & _ & _ & Hp2 & _ & Hl2 & _).
  (* lvs *)
  apply loadAllLvs_eff in H3 as (r3 & s3 & _ & Hh3 & Hsv3 & Hp3 & Hv3 & H3).
  cbn [cache world _pvs _vgs _lvs _stalevg set_vgs] in *.
  split; [|split; [|split; [|split]]].
  - rewrite Hp3, Hp2. exact HpA.
  - rewrite Hv3. intros k e. rewrite Hslot2. destruct (upd2 !! k) as [e'|] eqn:E.
    + intros [= <-]. by apply Hfresh2.
    + by rewrite bool_decide_true by (by left).
  - destruct (rc r3 =? 0).
    + destruct H3 as (<- & Hfresh3 & _). intros k e Hk.
      destruct (Hfresh3 _ _ Hk) as (lv & ? & ? & _). by exists lv.
    + destruct H3 as (_ & -> & _). rewrite Hl2, HlA. intros k e. by rewrite lookup_empty.
  - by rewrite Hsv3.
  - eapply same_host_trans; [exact HhA|]. eapply same_host_trans; [exact Hh2|exact Hh3].
Qed.

(** ** Invalidation of a VG and of what belongs to it *)

(** A loop over the values of a dict that overwrites the slot of each
    selected fresh record with a stale marker, the records sitting under their
    own keys. *)
Lemma foldl_invalidate {K R} `{Countable K} (key_of : R → K) (name_of : R → string)
    (sel : R → bool) (step : gmap K (entry R) → entry R → gmap K (entry R))
    (m0 : gmap K (entry R)) :
  (∀ m e, step m e = match e with
                     | Fresh r => if sel r then <[key_of r := Stale (name_of r)]> m else m
                     | _ => m
                     end) →
  (∀ k r, m0 !! k = Some (Fresh r) → sel r = true → key_of r = k) →
  ∀ k, foldl step m0 (values m0) !! k = invalidated_slot name_of sel (m0 !! k).
Proof.
  intros Hstep Hco.
  assert (∀ l, (∀ r, Fresh r ∈ l → sel r = true → m0 !! key_of r = Some (Fresh r)) →
    ∀ k, match m0 !! k with
         | Some (Fresh r) =>
             (sel r = true ∧ Fresh r ∈ l →
              foldl step m0 l !! k = Some (Stale (name_of r))) ∧
             (¬ (sel r = true ∧ Fresh r ∈ l) → foldl step m0 l !! k = Some (Fresh r))
         | o => foldl step m0 l !! k = o
         end) as Hgen.
  { induction l as [|x l IH] using rev_ind; intros Hl k.
    { cbn [foldl]. destruct (m0 !! k) as [[r| |]|] eqn:E; try done.
      split; [|done]. by intros [_ ?%elem_of_nil]. }
    rewrite foldl_app. cbn [foldl]. rewrite Hstep.
    assert (∀ r, Fresh r ∈ l → sel r = true → m0 !! key_of r = Some (Fresh r)) as Hl'.
    { intros r Hr. apply Hl. apply elem_of_app. by left. }
    specialize (IH Hl' k).
    destruct x as [r'| |].
    2,3: destruct (m0 !! k) as [[r| |]|] eqn:E; try done;
         destruct IH as [IH1 IH2]; split;
         [intros [? [?|?%list_elem_of_singleton]%elem_of_app]; [by apply IH1|done]
         |intros Hn; apply IH2; intros [? ?]; apply Hn; split; [done|];
          apply elem_of_app; by left].
    destruct (sel r') eqn:Esel.
    - assert (m0 !! key_of r' = Some (Fresh r')) as Hr'.
      { apply Hl; [|done]. apply elem_of_app. right. by apply list_elem_of_singleton. }
      destruct (decide (k = key_of r')) as [->|Hne].
      + rewrite Hr', lookup_insert_eq. split; [done|]. intros Hn. destruct Hn.
        split; [done|]. apply elem_of_app. right. by apply list_elem_of_singleton.
      + rewrite lookup_insert_ne by done.
        destruct (m0 !! k) as [[r| |]|] eqn:E; try done.
        destruct IH as [IH1 IH2]. split.
        * intros [? [?|Hx%list_elem_of_singleton]%elem_of_app]; [by apply IH1|].
          injection Hx as ->. apply Hco in E; [|done]. congruence.
        * intros Hn. apply IH2. intros [? ?]. apply Hn. split; [done|].
          apply elem_of_app. by left.
    - destruct (m0 !! k) as [[r| |]|] eqn:E; try done.
      destruct IH as [IH1 IH2]. split.
      + intros [? [?|Hx%list_elem_of_singleton]%elem_of_app]; [by apply IH1|].
        injection Hx as ->. congruence.
      + intros Hn. apply IH2. intros [? ?]. apply Hn. split; [done|].
        apply elem_of_app. by left. }
  intros k. specialize (Hgen (values m0)).
  assert (∀ r, Fresh r ∈ values m0 → sel r = true → m0 !! key_of r = Some (Fresh r))
    as Hvals.
  { intros r Hr Hsel. unfold values in Hr.
    apply list_elem_of_fmap in Hr as ([k' e] & He & Hin).
    cbn in He. subst e. apply elem_of_map_to_list in Hin.
    by rewrite (Hco _ _ Hin Hsel). }
  specialize (Hgen Hvals k). unfold invalidated_slot.
  destruct (m0 !! k) as [[r| |]|] eqn:E; try done.
  destruct Hgen as [H1 H2].
  assert (Fresh r ∈ values m0) as Hin.
  { unfold values. apply list_elem_of_fmap. exists (k, Fresh r). split; [done|].
    by apply elem_of_map_to_list. }
  destruct (sel r) eqn:Esel; [by apply H1|]. apply H2. by intros [? _].
Qed.

(** X@. [invalidateVG] on a cache whose fresh records sit under their own
    keys: the slot of the VG holds the stale marker, whether or not the cache
    knew the VG, and the other VGs are untouched; with [invalidateLVs] every
    fresh LV of the VG is replaced by a stale marker of its name, and with
    [invalidatePVs] every fresh PV of the VG likewise; markers already there,
    and the LVs and PVs of other VGs, stay as they are, and no slot is added
    to or removed from the LV and PV maps. *)
Theorem invalidateVG_marks (vgName : string) (invalidateLVs invalidatePVs : bool) (s : Sys) :
  lvs_coherent (_lvs (cache s)) → pvs_coherent (_pvs (cache s)) →
  ∃ s',
    invalidateVG vgName invalidateLVs invalidatePVs s = (Ok tt, s') ∧
    world s' = world s ∧
    _vgs (cache s') = <[vgName := Stale vgName]> (_vgs (cache s)) ∧
    (∀ k, _lvs (cache s') !! k =
            if invalidateLVs
            then invalidated_slot LV.name (λ lv, bool_decide (LV.vg_name lv = vgName))
                   (_lvs (cache s) !! k)
            else _lvs (cache s) !! k) ∧
    (∀ k, _pvs (cache s') !! k =
            if invalidatePVs
            then invalidated_slot PV.name (λ pv, bool_decide (PV.vg_name pv = vgName))
                   (_pvs (cache s) !! k)
            else _pvs (cache s) !! k).
Proof.
  intros Hlvs Hpvs. unfold invalidateVG, _invalidatevgs, _invalidatelvs, _invalidatevgpvs.
  cbn [normalize_args]. rewrite bool_decide_false by (by intros ?).
  destruct invalidateLVs, invalidatePVs; munfold; cbn; eexists; (split; [done|]);
    (split; [done|]); (split; [done|]); split; intros k;
    cbn [cache _lvs _pvs _vgs set_pvs set_lvs set_vgs]; try done.
  all: try (apply (foldl_invalidate (λ lv, (vgName, LV.name lv)) LV.name
                     (λ lv, bool_decide (LV.vg_name lv = vgName))); [done|];
            intros k' lv Hk Hs%bool_decide_eq_true; rewrite (Hlvs _ _ Hk); congruence).
  all: try (apply (foldl_invalidate PV.name PV.name
                     (λ pv, bool_decide (PV.vg_name pv = vgName))); [done|];
            intros k' pv Hk _; by apply Hpvs).
Qed.

(** ** Cache statistics *)

Lemma reloadpvs_locked_touches pvName r s res s' :
  _reloadpvs_locked pvName r s = (res, s') →
  ∃ st m, s' = mkSys (set_pvs st m (cache s)) (world s).
Proof.
  unfold _reloadpvs_locked. destruct (negb (rc r =? 0)).
  - munfold. destruct (mark_unreadable _ _ _) as [pvs' upd]. intros [= <- <-].
    by eexists _, _.
  - unfold mbind at 1, M_bind at 1.
    destruct (for_ (out r) _reloadpvs_line ∅ s) as [[upd|e] s1] eqn:E;
      apply for_pvs_delta in E as (d & -> & _ & _).
    + munfold. intros [= <- <-]. cbn. by eexists _, _.
    + intros [= <- <-]. by eexists _, _.
Qed.

Lemma reloadlvs_locked_touches vgName lvNames r s res s' :
  _reloadlvs_locked vgName lvNames r s = (res, s') →
  ∃ fl m, s' = mkSys (set_lvs fl m (cache s)) (world s).
Proof.
  unfold _reloadlvs_locked. destruct (negb (rc r =? 0)).
  - munfold. destruct (mark_unreadable _ _ _) as [lvs' upd]. intros [= <- <-].
    by eexists _, _.
  - unfold mbind at 1, M_bind at 1.
    destruct (for_ (out r) _reloadlvs_line ∅ s) as [[upd|e] s1] eqn:E;
      apply for_lvs_delta in E as (d & -> & _ & _).
    + munfold. intros [= <- <-]. cbn. by eexists _, _.
    + intros [= <- <-]. by eexists _, _.
Qed.

(** A reload runs at least one command and leaves the statistics alone. *)
Lemma reloadpvs_stats pvName s res s' :
  _reloadpvs pvName s = (res, s') →
  _stats (cache s') = _stats (cache s) ∧
  ∃ cmds, spawned (world s') = spawned (world s) ++ cmds ∧ cmds ≠ [].
Proof.
  intros H. apply reloadpvs_inv in H as (r & s1 & _ & Hc & _ & (cmds & Hsp & Hne & _) & H).
  apply reloadpvs_locked_touches in H as (st & m & ->).
  apply same_cache_data_fields in Hc as (_ & _ & _ & _ & _ & _ & _ & _ & Hst).
  split; [done|]. by exists cmds.
Qed.

Lemma reloadvgs_stats vgName s res s' :
  _reloadvgs vgName s = (res, s') →
  _stats (cache s') = _stats (cache s) ∧
  ∃ cmds, spawned (world s') = spawned (world s) ++ cmds ∧ cmds ≠ [].
Proof.
  intros H. apply reloadvgs_inv in H as (r & s1 & Hc & _ & (cmds & Hsp & Hne & _) & H).
  apply reloadvgs_locked_touches in H as (st & fl & m & ->).
  apply same_cache_data_fields in Hc as (_ & _ & _ & _ & _ & _ & _ & _ & Hst).
  split; [done|]. by exists cmds.
Qed.

Lemma reloadlvs_stats vgName lvNames s res s' :
  _reloadlvs vgName lvNames s = (res, s') →
  _stats (cache s') = _stats (cache s) ∧
  ∃ cmds, spawned (world s') = spawned (world s) ++ cmds ∧ cmds ≠ [].
Proof.
  intros H. apply reloadlvs_inv in H as (r & s1 & Hc & _ & (cmds & Hsp & Hne & _) & H).
  apply reloadlvs_locked_touches in H as (fl & m & ->).
  apply same_cache_data_fields in Hc as (_ & _ & _ & _ & _ & _ & _ & _ & Hst).
  split; [done|]. by exists cmds.
Qed.

(** X@. Every lookup in the cache counts exactly once in the statistics,
    however it ends: [getPv], [getVg] and [getLv] (for one LV or for all the
    LVs of a VG) either count one hit, and then run no command and leave
    everything else as it is, or count one miss, and then run at least one
    command. *)
Theorem lookups_count_once :
  let counted (s s' : Sys) :=
    (_hits (_stats (cache s')) = S (_hits (_stats (cache s))) ∧
     _misses (_stats (cache s')) = _misses (_stats (cache s)) ∧
     s' = mkSys (set_stats (_stats (cache s')) (cache s)) (world s)) ∨
    (_hits (_stats (cache s')) = _hits (_stats (cache s)) ∧
     _misses (_stats (cache s')) = S (_misses (_stats (cache s))) ∧
     ∃ cmds, spawned (world s') = spawned (world s) ++ cmds ∧ cmds ≠ []) in
  (∀ pvName s res s', getPv pvName s = (res, s') → counted s s') ∧
  (∀ vgName s res s', getVg vgName s = (res, s') → counted s s') ∧
  (∀ vgName lvName s res s', getLv vgName lvName s = (res, s') → counted s s').
Proof.
  intros counted.
  assert (∀ {A B} (m : M A) (k : A → result B) s res s',
    (∀ s0 res s', m s0 = (res, s') →
       _stats (cache s') = _stats (cache s0) ∧
       ∃ cmds, spawned (world s') = spawned (world s0) ++ cmds ∧ cmds ≠ []) →
    (stats_miss;; x ← m; lift (k x)) s = (res, s') → counted s s') as Hmiss.
  { intros A B m k s res s' Hm. unfold stats_miss, modify.
    unfold mbind at 1, M_bind at 1. unfold mbind at 1, M_bind at 1.
    match goal with |- context [m ?s0] =>
      destruct (m s0) as [[x|e] s1] eqn:E; apply Hm in E as (Hst & Hcmds) end;
      cbn [cache world set_stats _stats] in Hst, Hcmds; unfold lift;
      intros [= <- <-]; right; rewrite Hst; done. }
  assert (∀ {B} (b : result B) s res s',
    (stats_hit;; lift b) s = (res, s') → counted s s') as Hhit.
  { intros B b s res s'. unfold stats_hit. munfold. intros [= <- <-]. by left. }
  split; [|split].
  - intros pvName s res s'. unfold getPv. unfold mbind at 1, M_bind at 1, gets at 1.
    destruct (missing_or_stale _).
    + apply (Hmiss _ _ (_reloadpvs (OneName pvName)) (λ pvs, Ok (pvs !! pvName))).
      intros ? ? ?. apply reloadpvs_stats.
    + apply (Hhit _ (Ok (_pvs (cache s) !! pvName))).
  - intros vgName s res s'. unfold getVg. unfold mbind at 1, M_bind at 1, gets at 1.
    destruct (missing_or_stale _).
    + apply (Hmiss _ _ (_reloadvgs (OneName vgName)) (λ vgs, Ok (vgs !! vgName))).
      intros ? ? ?. apply reloadvgs_stats.
    + apply (Hhit _ (Ok (_vgs (cache s) !! vgName))).
  - intros vgName lvName s res s'. unfold getLv. destruct (str_truthy lvName).
    + unfold mbind at 1, M_bind at 1, gets at 1. destruct (missing_or_stale _).
      * apply (Hmiss _ _ (_reloadlvs vgName NoNames)
                 (λ lvs, Ok (OneLv (lvs !! (vgName, default "" lvName))))).
        intros ? ? ?. apply reloadlvs_stats.
      * apply (Hhit _ (Ok (OneLv (_lvs (cache s) !! (vgName, default "" lvName))))).
    + unfold mbind at 1, M_bind at 1, gets at 1. destruct (_lvs_needs_reload _ _).
      * intros H. apply (Hmiss _ _ (_reloadlvs vgName NoNames)
                 (λ lvs, Ok (AllLvs (fresh_lvs_of vgName lvs))) s res s').
        { intros ? ? ?. apply reloadlvs_stats. }
        rewrite <- H. unfold mbind, M_bind, stats_miss, modify, lift, mret, M_ret.
        by destruct (_reloadlvs _ _ _) as [[]].
      * intros H. apply (Hhit _ (Ok (AllLvs (fresh_lvs_of vgName (_lvs (cache s))))) s res s').
        rewrite <- H. by munfold.
Qed.

(** ** Forgetting everything *)

(** A command that has to use the cached filter while the filter is stale
    enumerates the multipath devices again. *)
Lemma cmd_enumerates cmd0 cmd_rest s r s' :
  _filterStale (cache s) = true →
  cmd (cmd0 :: cmd_rest) [] s = (Ok r, s') →
  (enumerations (world s) < enumerations (world s'))%nat.
Proof.
  intros Hst. rewrite cmd_ladder. unfold ladder.
  rewrite addExtraCfg_eq. cbn zeta. rewrite bool_decide_false by (by intros ?).
  rewrite Hst. cbn [cache world].
  destruct (rc _ =? 0).
  { intros [= _ <-]. cbn. lia. }
  rewrite addExtraCfg_eq. cbn zeta. rewrite bool_decide_false by (by intros ?).
  cbn [cache world _filterStale set_filter].
  match goal with |- context [run_attempts ?att ?r0 ?w] =>
    pose proof (run_attempts_frame att r0 w) as (_ & _ & _ & _ & He & _);
    destruct (run_attempts att r0 w) as [r' w'] end.
  intros [= _ <-]. cbn [snd world] in He |- *. rewrite He. cbn. lia.
Qed.

Lemma reloadpvs_enumerates pvName s res s' :
  _filterStale (cache s) = true →
  _reloadpvs pvName s = (res, s') →
  (enumerations (world s) < enumerations (world s'))%nat.
Proof.
  intros Hst H. apply reloadpvs_inv in H as (r & s1 & Hcmd & _ & _ & _ & H).
  apply reloadpvs_locked_touches in H as (st & m & ->).
  change (PVS_CMD ++ normalize_args pvName)
    with ("pvs" :: LVM_FLAGS ++ ["-o"; PV_FIELDS] ++ normalize_args pvName) in Hcmd.
  by apply cmd_enumerates in Hcmd.
Qed.

Lemma getVGDevs_go_empty vgNames : _getVGDevs_go ∅ vgNames [] = [].
Proof. destruct vgNames as [|n l]; [done|]. cbn [_getVGDevs_go]. by rewrite lookup_empty. Qed.

Lemma reloadvgs_enumerates vgName s res s' :
  _filterStale (cache s) = true → _vgs (cache s) = ∅ →
  _reloadvgs vgName s = (res, s') →
  (enumerations (world s) < enumerations (world s'))%nat.
Proof.
  intros Hst Hv. unfold _reloadvgs, _getVGDevs. unfold mbind at 1, M_bind at 1, gets at 1.
  rewrite Hv, getVGDevs_go_empty. unfold mbind at 1, M_bind at 1.
  destruct (cmd_frame "vgs" (LVM_FLAGS ++ ["-o"; VG_FIELDS] ++ normalize_args vgName) [] s)
    as (r & s1 & Hcmd & _).
  change (VGS_CMD ++ normalize_args vgName)
    with ("vgs" :: LVM_FLAGS ++ ["-o"; VG_FIELDS] ++ normalize_args vgName).
  rewrite Hcmd. intros H. apply reloadvgs_locked_touches in H as (st & fl & m & ->).
  by apply cmd_enumerates in Hcmd.
Qed.

Lemma reloadlvs_enumerates vgName lvNames s res s' :
  _filterStale (cache s) = true → _vgs (cache s) = ∅ →
  _reloadlvs vgName lvNames s = (res, s') →
  (enumerations (world s) < enumerations (world s'))%nat.
Proof.
  intros Hst Hv. unfold _reloadlvs, _getVGDevs. unfold mbind at 1, M_bind at 1, gets at 1.
  rewrite Hv, getVGDevs_go_empty. unfold mbind at 1, M_bind at 1.
  match goal with |- context [cmd (LVS_CMD ++ ?a) [] s] =>
    destruct (cmd_frame "lvs" (LVM_FLAGS ++ ["-o"; LV_FIELDS] ++ a) [] s)
      as (r & s1 & Hcmd & _);
    change (LVS_CMD ++ a) with ("lvs" :: LVM_FLAGS ++ ["-o"; LV_FIELDS] ++ a) end.
  rewrite Hcmd. intros H. apply reloadlvs_locked_touches in H as (fl & m & ->).
  by apply cmd_enumerates in Hcmd.
Qed.

(** X@. [invalidateCache] makes the cache forget everything but its mode, its
    statistics and the text of the last filter: the three maps are empty, the
    stale flags are set, no VG counts as having fresh LVs, and the filter is
    marked stale. Whatever is looked up next, through [getPV], [getVG] or
    [getLV], is therefore a miss, and the command it runs enumerates the
    multipath devices again to rebuild the filter. *)
Theorem invalidateCache_forgets (s : Sys) :
  ∃ s0,
    invalidateCache s = (Ok tt, s0) ∧ world s0 = world s ∧
    _pvs (cache s0) = ∅ ∧ _vgs (cache s0) = ∅ ∧ _lvs (cache s0) = ∅ ∧
    _freshlv (cache s0) = ∅ ∧ _stalepv (cache s0) = true ∧ _stalevg (cache s0) = true ∧
    _filterStale (cache s0) = true ∧ _filter (cache s0) = _filter (cache s) ∧
    _read_only (cache s0) = _read_only (cache s) ∧ _stats (cache s0) = _stats (cache s) ∧
    _cache_lvs (cache s0) = _cache_lvs (cache s) ∧
    let missed (s' : Sys) :=
      _hits (_stats (cache s')) = _hits (_stats (cache s)) ∧
      _misses (_stats (cache s')) = S (_misses (_stats (cache s))) ∧
      (enumerations (world s) < enumerations (world s'))%nat in
    (∀ pvName res s', pvName ≠ "" → getPV pvName s0 = (res, s') → missed s') ∧
    (∀ vgName res s', getVG vgName s0 = (res, s') → missed s') ∧
    (∀ vgName lvName res s', getLV vgName lvName s0 = (res, s') → missed s').
Proof.
  eexists. split; [reflexivity|]. cbn [cache world].
  set (c0 := set_lvs _ _ _).
  set (s0 := mkSys c0 (world s)).
  set (miss := mkSys (set_stats (mkStats (_hits (_stats (cache s0)))
                                   (S (_misses (_stats (cache s0))))) (cache s0))
                 (world s0)).
  do 12 (split; [done|]).
  pose (missed := λ s' : Sys,
      _hits (_stats (cache s')) = _hits (_stats (cache s)) ∧
      _misses (_stats (cache s')) = S (_misses (_stats (cache s))) ∧
      (enumerations (world s) < enumerations (world s'))%nat).
  change ((∀ pvName res s', pvName ≠ "" → getPV pvName s0 = (res, s') → missed s') ∧
          (∀ vgName res s', getVG vgName s0 = (res, s') → missed s') ∧
          (∀ vgName lvName res s', getLV vgName lvName s0 = (res, s') → missed s')).
  assert (∀ {A} (m : M A) res s',
    (∀ res s', m miss = (res, s') →
       _stats (cache s') = _stats (cache miss) ∧
       (enumerations (world miss) < enumerations (world s'))%nat) →
    m miss = (res, s') → missed s') as Hm.
  { intros A m res s' Hm H. apply Hm in H as [Hst He]. unfold missed. by rewrite Hst. }
  split; [|split].
  - intros pvName res s' Hne. unfold getPV.
    assert (∃ fq, _fqpvname pvName s0 = (Ok fq, s0)) as [fq Hfq].
    { destruct pvName as [|a p]; [done|]. unfold _fqpvname.
      destruct (Ascii.eqb a "/"); by eexists. }
    erewrite bind_Ok by exact Hfq.
    unfold mbind at 1, M_bind at 1. rewrite getPv_miss by done. fold miss.
    unfold mbind at 1, M_bind at 1.
    destruct (_reloadpvs (OneName fq) miss) as [[pvs|e] s1] eqn:E.
    + assert (missed s1) as Hs1.
      { eapply (Hm _ (_reloadpvs (OneName fq))); [|exact E]. intros res' s'' H. split.
        - by apply reloadpvs_stats in H as [? _].
        - by apply reloadpvs_enumerates in H. }
      munfold. destruct (pvs !! fq); by intros [= <- <-].
    + intros [= <- <-]. eapply (Hm _ (_reloadpvs (OneName fq))); [|exact E].
      intros res' s'' H. split.
      * by apply reloadpvs_stats in H as [? _].
      * by apply reloadpvs_enumerates in H.
  - intros vgName res s'. unfold getVG.
    unfold mbind at 1, M_bind at 1. rewrite getVg_miss by done. fold miss.
    unfold mbind at 1, M_bind at 1.
    destruct (_reloadvgs (OneName vgName) miss) as [[vgs|e] s1] eqn:E.
    + assert (missed s1) as Hs1.
      { eapply (Hm _ (_reloadvgs (OneName vgName))); [|exact E]. intros res' s'' H. split.
        - by apply reloadvgs_stats in H as [? _].
        - by apply reloadvgs_enumerates in H. }
      munfold. destruct (vgs !! vgName); by intros [= <- <-].
    + intros [= <- <-]. eapply (Hm _ (_reloadvgs (OneName vgName))); [|exact E].
      intros res' s'' H. split.
      * by apply reloadvgs_stats in H as [? _].
      * by apply reloadvgs_enumerates in H.
  - intros vgName lvName res s' H. apply getLV_state in H as [res0 H].
    assert (∃ k : gmap (string * string) (entry LV.t) → lv_lookup,
      getLv vgName lvName s0 = (lvs ← _reloadlvs vgName NoNames; mret (k lvs)) miss)
      as [k Hk].
    { unfold getLv. destruct (str_truthy lvName) eqn:Et.
      - eexists (λ lvs, OneLv (lvs !! (vgName, default "" lvName))). by munfold.
      - eexists (λ lvs, AllLvs (fresh_lvs_of vgName lvs)).
        unfold mbind at 1, M_bind at 1, gets at 1.
        assert (_lvs_needs_reload vgName (cache s0) = true) as ->.
        { unfold _lvs_needs_reload. destruct (negb _); [done|].
          by rewrite bool_decide_true by set_solver. }
        by munfold. }
    rewrite Hk in H. unfold mbind at 1, M_bind at 1 in H.
    destruct (_reloadlvs vgName NoNames miss) as [[lvs|e] s1] eqn:E.
    + munfold. injection H as _ <-.
      eapply (Hm _ (_reloadlvs vgName NoNames)); [|exact E]. intros res' s'' H. split.
      * by apply reloadlvs_stats in H as [? _].
      * by apply reloadlvs_enumerates in H.
    + injection H as _ <-.
      eapply (Hm _ (_reloadlvs vgName NoNames)); [|exact E]. intros res' s'' H. split.
      * by apply reloadlvs_stats in H as [? _].
      * by apply reloadlvs_enumerates in H.
Qed.

(** ** The PVs of a VG *)

(** What [getVG] returns is a fresh record that the cache holds under the
    name asked for. *)
Lemma getVG_fresh vgName s res s' :
  getVG vgName s = (Ok res, s') →
  ∃ vg, res = Fresh vg ∧ _vgs (cache s') !! vgName = Some (Fresh vg).
Proof.
  intros H. apply getVG_inv in H.
  destruct (missing_or_stale (_vgs (cache s) !! vgName)) eqn:Hst.
  - rewrite getVg_miss in H by done.
    apply bind_inv_Ok in H as (upd & s1 & Hre & H). munfold. injection H as Hres <-.
    apply reloadvgs_eff in Hre as (Hfresh & Hslot & _).
    destruct (Hfresh _ _ Hres) as (vg & -> & _). exists vg. split; [done|].
    by rewrite Hslot, Hres.
  - destruct (_vgs (cache s) !! vgName) as [[vg| |]|] eqn:Hc; try done.
    rewrite (getVg_hit _ _ _ Hc) in H. injection H as <- <-. by exists vg.
Qed.

(** X@. [listPVNames] and [_getVGDevs] agree: when [listPVNames] returns,
    the cache holds a fresh record of the VG, and the names returned are the
    devices that a command about this VG is then given for its filter. If the
    cache held the fresh record already, nothing is run and nothing changes,
    not even the statistics. *)
Theorem listPVNames_agrees_with_getVGDevs (vgName : string) (s s' : Sys)
    (pvNames : list string) :
  listPVNames vgName s = (Ok pvNames, s') →
  (∃ vg, _vgs (cache s') !! vgName = Some (Fresh vg) ∧ VG.pv_name vg = pvNames) ∧
  _getVGDevs [vgName] s' = (Ok pvNames, s') ∧
  (∀ vg, _vgs (cache s) !! vgName = Some (Fresh vg) → s' = s).
Proof.
  unfold listPVNames. unfold mbind at 1, M_bind at 1, gets at 1. intros H.
  assert (∃ vg, _vgs (cache s') !! vgName = Some (Fresh vg) ∧ VG.pv_name vg = pvNames ∧
                (∀ vg0, _vgs (cache s) !! vgName = Some (Fresh vg0) → s' = s))
    as (vg & Hvg & Hpv & Hsame).
  { destruct (_vgs (cache s) !! vgName) as [[vg| |]|] eqn:Hc.
    1:{ munfold. injection H as <- <-. by exists vg. }
    all: apply bind_inv_Ok in H as (e & s1 & Hget & H);
         apply getVG_fresh in Hget as (vg & -> & Hvg);
         munfold; cbn in H; injection H as <- <-; by exists vg. }
  split; [by exists vg|]. split; [|done].
  unfold _getVGDevs, gets. cbn [_getVGDevs_go]. by rewrite Hvg, Hpv.
Qed.

Lemma getPvs_foldl (cached : gmap string (entry PV.t)) l stalepvs pvs :
  foldl (getPvs_step cached) (stalepvs, pvs) l =
    (stalepvs ++ filter (λ n, missing_or_stale (cached !! n) = true) l,
     pvs ++ omap (λ n, match cached !! n with
                       | Some e => if is_stale e then None else Some e
                       | None => None
                       end) l).
Proof.
  revert stalepvs pvs. induction l as [|n l IH]; intros stalepvs pvs; cbn [foldl].
  { cbn. by rewrite !(right_id_L [] (++)). }
  cbn [getPvs_step omap list_omap]. destruct (cached !! n) as [e|] eqn:E.
  - destruct (is_stale e) eqn:Es; rewrite IH.
    + rewrite filter_cons_True by (by rewrite E). by rewrite <- (assoc_L (++)).
    + rewrite filter_cons_False by (rewrite E; cbn; by rewrite Es).
      by rewrite <- (assoc_L (++)).
  - rewrite IH. rewrite filter_cons_True by (by rewrite E). by rewrite <- (assoc_L (++)).
Qed.

(** X@. [getPvs] of a VG that the cache holds fresh: the PVs that are
    missing or stale in the cache, and only these, are asked for, in one pvs
    command (with its retries), all the PVs of the VG being listed in the
    order of the VG record. When none is missing or stale, no command is run,
    the entries of the cache are returned in that order, and the lookup of
    the VG and the lookup of the PVs count one hit each. *)
Theorem getPvs_reloads_only_stale (vgName : string) (vg : VG.t) (s : Sys) :
  _vgs (cache s) !! vgName = Some (Fresh vg) →
  let stalepvs :=
    filter (λ n, missing_or_stale (_pvs (cache s) !! n) = true) (VG.pv_name vg) in
  (stalepvs = [] →
   ∃ pvs,
     getPvs vgName s =
       (Ok pvs,
        mkSys (set_stats (mkStats (S (S (_hits (_stats (cache s)))))
                            (_misses (_stats (cache s)))) (cache s)) (world s)) ∧
     Forall2 (λ n e, _pvs (cache s) !! n = Some e ∧ is_stale e = false)
       (VG.pv_name vg) pvs) ∧
  (stalepvs ≠ [] →
   ∀ res s', getPvs vgName s = (res, s') →
     _hits (_stats (cache s')) = S (_hits (_stats (cache s))) ∧
     _misses (_stats (cache s')) = S (_misses (_stats (cache s))) ∧
     ∃ cmds, spawned (world s') = spawned (world s) ++ cmds ∧ cmds ≠ [] ∧
             Forall (λ c, ∃ conf, c = [EXT_LVM (world s); "pvs"; "--config"; conf]
                                      ++ LVM_FLAGS ++ ["-o"; PV_FIELDS] ++ stalepvs) cmds).
Proof.
  intros Hvg stalepvs. unfold getPvs.
  erewrite bind_Ok by (by apply getVg_hit).
  erewrite bind_Ok by reflexivity. erewrite bind_Ok by reflexivity.
  cbn [cache world _pvs set_stats].
  rewrite getPvs_foldl. cbn [app]. fold stalepvs. split.
  - intros Hnil. rewrite Hnil, bool_decide_false by (by intros ?).
    eexists. split; [unfold stats_hit; munfold; cbn; reflexivity|].
    assert (Forall (λ n, missing_or_stale (_pvs (cache s) !! n) = false) (VG.pv_name vg))
      as Hall.
    { apply Forall_forall. intros n Hn.
      destruct (missing_or_stale (_pvs (cache s) !! n)) eqn:E; [|done].
      assert (n ∈ stalepvs) as Hin by (by apply list_elem_of_filter).
      rewrite Hnil in Hin. by apply elem_of_nil in Hin. }
    clear Hnil. induction Hall as [|n l Hn Hl IH]; [constructor|].
    cbn [omap list_omap]. destruct (_pvs (cache s) !! n) as [e|] eqn:E; [|done].
    cbn in Hn. rewrite Hn. by constructor.
  - intros Hne res s'. rewrite bool_decide_true by done.
    unfold stats_miss, modify. unfold mbind at 1, M_bind at 1.
    unfold mbind at 1, M_bind at 1.
    match goal with |- context [_reloadpvs _ ?s0] => set (miss := s0) end.
    destruct (cmd_frame "pvs" (LVM_FLAGS ++ ["-o"; PV_FIELDS] ++ stalepvs) [] miss)
      as (r & s1 & Hcmd & Hc & Hh & cmds & Hsp & Hcne & Hall).
    assert (_reloadpvs (Names stalepvs) miss = _reloadpvs_locked (Names stalepvs) r s1) as ->.
    { unfold _reloadpvs. cbn [normalize_args].
      change (PVS_CMD ++ stalepvs) with ("pvs" :: LVM_FLAGS ++ ["-o"; PV_FIELDS] ++ stalepvs).
      by erewrite bind_Ok by exact Hcmd. }
    apply same_cache_data_fields in Hc as (_ & _ & _ & _ & _ & _ & _ & _ & Hst).
    destruct (_reloadpvs_locked _ r s1) as [[upd|e] s2] eqn:E;
      apply reloadpvs_locked_touches in E as (st & m & ->); munfold;
      intros [= <- <-]; cbn [cache world _stats set_pvs]; rewrite Hst;
      (split; [done|]); (split; [done|]); by exists cmds.
Qed.

(** ** Helper functions of the public interface *)

(** X@. [lvsByTag] returns LVs of the VG asked for that carry the tag, and
    only such; like [getLV] it raises [LogicalVolumeDoesNotExistError] when
    the VG has no LV at all, whereas a VG that has LVs none of which carries
    the tag gives the empty list. *)
Theorem lvsByTag_only_tagged (vgName tag : string) (s : Sys) :
  (∀ lvs s', lvsByTag vgName tag s = (Ok lvs, s') →
     Forall (λ lv, tag ∈ LV.tags lv ∧ LV.vg_name lv = vgName) lvs) ∧
  (∀ s', getLv vgName None s = (Ok (AllLvs []), s') →
     lvsByTag vgName tag s
       = (Raise (LogicalVolumeDoesNotExistError (vgName +:+ "/None")), s')) ∧
  (∀ lv lvs s', getLv vgName None s = (Ok (AllLvs (lv :: lvs)), s') →
     lvsByTag vgName tag s = (Ok (filter (λ lv, tag ∈ LV.tags lv) (lv :: lvs)), s')).
Proof.
  split; [|split].
  - intros lvs s' H. unfold lvsByTag in H.
    apply bind_inv_Ok in H as (res & s1 & Hget & H).
    unfold getLV in Hget. apply bind_inv_Ok in Hget as (res0 & s2 & Hlv & Hget).
    rewrite getLv_all_eq in Hlv by done.
    apply bind_inv_Ok in Hlv as (nr & s3 & _ & Hlv).
    apply bind_inv_Ok in Hlv as (m & s4 & _ & Hlv). munfold. injection Hlv as <- _.
    cbn [lookup_falsy] in Hget. case_bool_decide; [done|]. injection Hget as <- _.
    injection H as <- _. apply Forall_forall. intros lv [Htag Hin]%list_elem_of_filter.
    split; [done|]. unfold fresh_lvs_of in Hin.
    apply list_elem_of_omap in Hin as (e & _ & He).
    destruct e as [lv'| |]; try done. case_bool_decide; [|done]. by injection He as <-.
  - intros s' H. unfold lvsByTag. erewrite bind_Raise; [done|].
    unfold getLV. erewrite bind_Ok by exact H. reflexivity.
  - intros lv lvs s' H. unfold lvsByTag, getLV. erewrite bind_Ok.
    2:{ erewrite bind_Ok by exact H. reflexivity. }
    done.
Qed.

Lemma split_go_app sep cur (s rest : string) :
  sep ∉ Py.chars s →
  Py.split_go sep cur (s +:+ String sep rest)
  = (String.rev cur +:+ s) :: Py.split_go sep "" rest.
Proof.
  revert cur. induction s as [|a s IH]; intros cur Hs.
  - change ("" +:+ String sep rest) with (String sep rest). cbn [Py.split_go].
    by rewrite Ascii.eqb_refl, append_nil_r.
  - cbn [Py.chars] in Hs. apply not_elem_of_cons in Hs as [Hne Hs].
    rewrite append_cons. cbn [Py.split_go].
    destruct (Ascii.eqb a sep) eqn:E; [by apply Ascii.eqb_eq in E|].
    by rewrite IH, rev_cons, append_assoc.
Qed.

Lemma rstrip_chars_cons cs a s :
  rstrip_chars cs (String a s) =
    match rstrip_chars cs s with
    | "" => if bool_decide (a ∈ cs) then "" else String a ""
    | r => String a r
    end.
Proof. done. Qed.

Lemma rstrip_chars_none cs s :
  Forall (λ a, a ∉ cs) (Py.chars s) → rstrip_chars cs s = s.
Proof.
  induction s as [|a s IH]; [done|]. cbn [Py.chars]. intros [Ha Hs]%Forall_cons.
  rewrite rstrip_chars_cons, IH by done.
  destruct s; [by rewrite bool_decide_false|done].
Qed.

Lemma rstrip_chars_snoc cs a s :
  a ∈ cs → rstrip_chars cs (s +:+ String a "") = rstrip_chars cs s.
Proof.
  intros Ha. induction s as [|b s IH].
  - change ("" +:+ String a "") with (String a ""). cbn. by rewrite bool_decide_true.
  - by rewrite append_cons, !rstrip_chars_cons, IH.
Qed.

Lemma rstrip_chars_app cs (s t : string) :
  t ≠ "" → rstrip_chars cs t = t → rstrip_chars cs (s +:+ t) = s +:+ t.
Proof.
  intros Hne Ht. induction s as [|a s IH]; [done|].
  rewrite append_cons, rstrip_chars_cons, IH.
  destruct (s +:+ t) eqn:E; [|done]. by destruct s, t.
Qed.

Lemma lstrip_chars_keep cs a s : a ∉ cs → lstrip_chars cs (String a s) = String a s.
Proof. intros H. cbn. by rewrite bool_decide_false. Qed.

(** X@. [getFirstExt] reads back the device and the first extent from the
    devices field as lvs prints it, the device followed by the extent in
    parentheses: for a fresh LV of the cache whose field is "dev(ext)", where
    neither part holds a blank or a parenthesis, it returns the two parts,
    counting one hit and running no command. *)
Theorem getFirstExt_parses (vg lv dev ext : string) (rec : LV.t) (s : Sys) :
  lv ≠ "" →
  _lvs (cache s) !! (vg, lv) = Some (Fresh rec) →
  LV.devices rec = dev +:+ "(" +:+ ext +:+ ")" →
  Forall (λ a, a ∉ [" "; ")"; "("]%char) (Py.chars dev) →
  Forall (λ a, a ∉ [" "; ")"; "("]%char) (Py.chars ext) →
  getFirstExt vg (Some lv) s =
    (Ok [dev; ext],
     mkSys (set_stats (mkStats (S (_hits (_stats (cache s)))) (_misses (_stats (cache s))))
              (cache s)) (world s)).
Proof.
  intros Hne Hlv Hdev Hd He. unfold getFirstExt, getLV.
  erewrite bind_Ok.
  2:{ erewrite bind_Ok by (by apply getLv_hit). reflexivity. }
  erewrite bind_Ok by reflexivity. munfold. do 2 f_equal. rewrite Hdev.
  assert (∀ t : string, Forall (λ a, a ∉ [" "; ")"; "("]%char) (Py.chars t) →
    Forall (λ a, a ∉ [" "; ")"]%char) (Py.chars t) ∧ "("%char ∉ Py.chars t) as Hsplit.
  { intros t Ht. split.
    - eapply Forall_impl; [exact Ht|]. intros a Ha Hin. apply Ha.
      apply elem_of_cons in Hin as [->|Hin]; [left|].
      apply elem_of_cons in Hin as [->|Hin]; [right; left|]. by apply elem_of_nil in Hin.
    - intros Hin. eapply Forall_forall in Ht; [|exact Hin]. apply Ht. right. right. left. }
  destruct (Hsplit dev Hd) as [Hd1 Hd2]. destruct (Hsplit ext He) as [He1 He2].
  assert (strip_chars [" "; ")"]%char (dev +:+ "(" +:+ ext +:+ ")") = dev +:+ "(" +:+ ext)
    as ->.
  { unfold strip_chars.
    assert (lstrip_chars [" "; ")"]%char (dev +:+ "(" +:+ ext +:+ ")")
            = dev +:+ "(" +:+ ext +:+ ")") as ->.
    { destruct dev as [|a dev].
      - apply lstrip_chars_keep. intros Hin.
        repeat (apply elem_of_cons in Hin as [Hin|Hin]; [discriminate Hin|]).
        by apply elem_of_nil in Hin.
      - rewrite append_cons. apply lstrip_chars_keep.
        cbn [Py.chars] in Hd1. by apply Forall_cons in Hd1 as [? _]. }
    replace (dev +:+ "(" +:+ ext +:+ ")") with ((dev +:+ "(" +:+ ext) +:+ ")")
      by (by rewrite !append_assoc).
    rewrite rstrip_chars_snoc by (right; left).
    apply rstrip_chars_app; [done|]. apply rstrip_chars_none.
    change ("(" +:+ ext) with (String "(" ext). cbn [Py.chars]. constructor; [|done].
    intros Hin. repeat (apply elem_of_cons in Hin as [Hin|Hin]; [discriminate Hin|]).
    by apply elem_of_nil in Hin. }
  unfold Py.split. change ("(" +:+ ext) with (String "(" ext).
  rewrite split_go_app by done. by rewrite split_go_no by done.
Qed.

(** ** Instances *)

Lemma loadAllLvs_replaces_or_keeps_witness :
  ∃ s', _loadAllLvs full_vg_sys = (Ok {[ ("vg0", "lv0") := Fresh lv0_record ]}, s') ∧
        _lvs (cache s') = {[ ("vg0", "lv0") := Fresh lv0_record ]} ∧
        "vg0" ∈ _freshlv (cache s').
Proof.
  pose (s' := (_loadAllLvs full_vg_sys).2).
  assert (_loadAllLvs full_vg_sys = (Ok {[ ("vg0", "lv0") := Fresh lv0_record ]}, s')) as H
    by (by vm_compute).
  exists s'. split; [exact H|].
  destruct (loadAllLvs_replaces_or_keeps _ _ _ H) as (r & s1 & Hcmd & _ & _ & Hrest).
  assert (r = mkRun 0 ["uuid-lv0|lv0|vg0|-wi-a-----|536870912|0|/dev/mapper/pv0(0)|"] [])
    as ->.
  { assert (cmd LVS_CMD [] full_vg_sys
            = (Ok (mkRun 0 ["uuid-lv0|lv0|vg0|-wi-a-----|536870912|0|/dev/mapper/pv0(0)|"] []),
               (cmd LVS_CMD [] full_vg_sys).2)) as E by (by vm_compute).
    rewrite E in Hcmd. by injection Hcmd as <- _. }
  cbn [rc Z.eqb] in Hrest. destruct Hrest as (Heq & _ & Hfl).
  split; [done|]. apply Hfl. exists "lv0". by rewrite lookup_singleton_eq.
Defined.

Lemma bootstrap_of_new_cache_witness :
  ∃ s', LVMCache_bootstrap (mkSys (LVMCache_init false) (world full_vg_sys)) = (Ok tt, s') ∧
        _stalevg (cache s') = false ∧
        ∀ k e, _lvs (cache s') !! k = Some e →
               ∃ lv, e = Fresh lv ∧ k = (LV.vg_name lv, LV.name lv).
Proof.
  pose (s' := (LVMCache_bootstrap (mkSys (LVMCache_init false) (world full_vg_sys))).2).
  assert (LVMCache_bootstrap (mkSys (LVMCache_init false) (world full_vg_sys)) = (Ok tt, s'))
    as H by (by vm_compute).
  exists s'. split; [exact H|].
  destruct (bootstrap_of_new_cache _ _ _ H) as (_ & _ & Hlvs & Hst & _).
  split; [exact Hst|exact Hlvs].
Defined.

Lemma invalidateVG_marks_witness :
  ∃ s', invalidateVG "vg0" true true warm_sys = (Ok tt, s') ∧
        _lvs (cache s') !! ("vg0", "lv0") = Some (Stale "lv0") ∧
        _pvs (cache s') !! "/dev/mapper/pv1" = Some (Stale "/dev/mapper/pv1").
Proof.
  destruct (invalidateVG_marks "vg0" true true warm_sys) as (s' & H & _ & _ & Hl & Hp).
  - intros k lv Hk.
    change (_lvs (cache warm_sys))
      with ({[ ("vg0", "lv0") := Fresh lv0_record ]} : gmap (string * string) (entry LV.t))
      in Hk.
    apply lookup_singleton_Some in Hk as [<- Hk]. by injection Hk as <-.
  - intros k pv Hk.
    change (_pvs (cache warm_sys))
      with (<["/dev/mapper/pv0" := Fresh (pv_record "pv0")]>
              ({[ "/dev/mapper/pv1" := Fresh (pv_record "pv1") ]}
               : gmap string (entry PV.t))) in Hk.
    apply lookup_insert_Some in Hk as [[<- Hk]|[_ Hk]].
    + by injection Hk as <-.
    + apply lookup_singleton_Some in Hk as [<- Hk]. by injection Hk as <-.
  - exists s'. split; [exact H|]. by rewrite Hl, Hp.
Defined.

Lemma listPVNames_agrees_with_getVGDevs_witness :
  listPVNames "vg0" warm_sys = (Ok ["/dev/mapper/pv0"; "/dev/mapper/pv1"], warm_sys) ∧
  _getVGDevs ["vg0"] warm_sys = (Ok ["/dev/mapper/pv0"; "/dev/mapper/pv1"], warm_sys).
Proof.
  assert (listPVNames "vg0" warm_sys
          = (Ok ["/dev/mapper/pv0"; "/dev/mapper/pv1"], warm_sys)) as H by reflexivity.
  split; [exact H|].
  by destruct (listPVNames_agrees_with_getVGDevs _ _ _ _ H) as (_ & Hd & _).
Defined.

Lemma getPvs_reloads_only_stale_witness :
  ∃ pvs s', getPvs "vg0" warm_sys = (Ok pvs, s') ∧
            world s' = world warm_sys ∧ length pvs = 2%nat.
Proof.
  destruct (getPvs_reloads_only_stale "vg0" vg0_record warm_sys) as [Hhit _];
    [reflexivity|].
  destruct Hhit as (pvs & H & Hall); [by vm_compute|].
  exists pvs. eexists. split; [exact H|]. split; [reflexivity|].
  apply Forall2_length in Hall. by rewrite <- Hall.
Defined.

Lemma getFirstExt_parses_witness :
  ∃ s', getFirstExt "vg0" (Some "lv0") S5_sys = (Ok ["/dev/mapper/pv0"; "0"], s').
Proof.
  eexists. apply (getFirstExt_parses "vg0" "lv0" "/dev/mapper/pv0" "0" lv0_record S5_sys).
  - done.
  - reflexivity.
  - reflexivity.
  - cbn [Py.chars].
    repeat (apply Forall_cons; split; [apply (bool_decide_unpack _); by vm_compute|]).
    apply Forall_nil_2.
  - cbn [Py.chars].
    repeat (apply Forall_cons; split; [apply (bool_decide_unpack _); by vm_compute|]).
    apply Forall_nil_2.
Defined.
